(** * BpWordzee: the word-ranking client and the offline service worker

    A shallow embedding of [front/index.js] (class [BpWordzeeClient]) and of
    [sw.js], followed by the properties of the ranking pipeline and of the
    cache layer.

    Conventions of the embedding.
    - A JavaScript string is a [string] whose characters are its UTF-16 code
      units; the words and messages handled here stay below code unit 256
      (the game alphabet is A-Z and Ñ, code unit 209), so [String.length] is
      the JavaScript [length].
    - Scores are integers ([Z]); on integers the comparator
      [(a, b) => b.puntos - a.puntos] is exact.
    - A thrown exception is an explicit [Throw] completion.
    - Built-ins of the host (upper-casing, JSON text, URL escaping, the
      network, URL parsing) are parameters gathered in records. *)

From Stdlib Require Import ZArith QArith.
From stdpp Require Import gmap strings list fin_maps pretty sorting.

Set Warnings "-register-all".

Local Open Scope Z_scope.
Local Open Scope string_scope.
Local Open Scope list_scope.
Local Open Scope nat_scope.

(** ** JavaScript values and completions *)

Module JS.

(** Numbers: the finite doubles are rationals; comparisons against the
    constants 1 and 5 are exact on them. *)
Inductive number : Type :=
| NaN
| Finite (q : Q)
| PosInfinity
| NegInfinity.

Inductive value : Type :=
| Undefined
| Null
| Boolean (b : bool)
| Number (n : number)
| Str (s : string)
| Array (elems : list value)
| Object (props : list (string * value)).

Inductive exn : Type :=
| Error (mensaje : string)
| TypeError
| SyntaxError.

Inductive completion (A : Type) : Type :=
| Return (a : A)
| Throw (e : exn).
Arguments Return {A} a.
Arguments Throw {A} e.

Definition bind {A B : Type} (c : completion A) (k : A → completion B) : completion B :=
  match c with
  | Return a => k a
  | Throw e => Throw e
  end.

#[global] Instance completion_ret : MRet completion := λ A a, Return a.
#[global] Instance completion_bind : MBind completion := λ A B k c, bind c k.

(** [x < y] on numbers: false as soon as one side is NaN. *)
Definition lt (x y : number) : bool :=
  match x, y with
  | NaN, _ | _, NaN => false
  | NegInfinity, NegInfinity => false
  | NegInfinity, _ => true
  | _, NegInfinity => false
  | PosInfinity, _ => false
  | Finite _, PosInfinity => true
  | Finite p, Finite q => negb (Qle_bool q p)
  end.

Definition of_nat (n : nat) : number := Finite (inject_Z (Z.of_nat n)).

(** Truthiness, as tested by [if (!v)] and [a || b]. *)
Definition truthy (v : value) : bool :=
  match v with
  | Undefined | Null => false
  | Boolean b => b
  | Number NaN => false
  | Number (Finite q) => negb (Qeq_bool q 0)
  | Number _ => true
  | Str s => negb (bool_decide (s = ""))
  | Array _ | Object _ => true
  end.

(** Property read [o.k] on an object literal; [Undefined] when absent. *)
Fixpoint get_prop (k : string) (props : list (string * value)) : value :=
  match props with
  | [] => Undefined
  | (k', v) :: rest => if bool_decide (k = k') then v else get_prop k rest
  end.

(** [Array.prototype.sort(cmp)]: the sort is stable (ECMAScript 2019), so
    for a comparator that is a consistent ordering the result is the one of
    a stable insertion sort: an element moves right past [y] only while
    [cmp x y > 0]. *)
Section Sort.
Context {A : Type} (cmp : A → A → Z).

Fixpoint sort_insert (x : A) (l : list A) : list A :=
  match l with
  | [] => [x]
  | y :: l' => if bool_decide (0 < cmp x y)%Z then y :: sort_insert x l' else x :: l
  end.

Fixpoint sort (l : list A) : list A :=
  match l with
  | [] => []
  | x :: l' => sort_insert x (sort l')
  end.
End Sort.

(** [s.includes(needle)] *)
Fixpoint includes (needle s : string) : bool :=
  String.prefix needle s ||
  match s with
  | EmptyString => false
  | String _ s' => includes needle s'
  end.

End JS.

(** ** The ranking pipeline of [BpWordzeeClient] *)

Module Est.
(** One entry of [estadisticas]. *)
Record t : Type := Build {
  total : nat;
  mejores : nat;
  puntos_max : Z;
  puntos_min : Z
}.
End Est.

(** [{ palabra: palabra, puntos: puntosAPI }] *)
Record Palabra : Type := {
  palabra : string;
  puntos : Z
}.

(** An element of the API's [palabras] array, [{"PALABRA": puntos}]: the own
    properties of the object in [Object.keys] order. *)
Definition Item : Type := list (string * Z).

(** [palabrasPorLongitud]: the object's entries in [Object.entries] order
    (integer keys ascending). *)
Definition Grupos : Type := list (nat * list Palabra).

Record Data : Type := {
  palabras : list Palabra;
  total : nat;
  total_antes_filtro : nat;
  estadisticas : gmap string Est.t
}.

Record Resultado : Type := {
  success : bool;
  data : Data
}.

(** [(a, b) => b.puntos - a.puntos] *)
Definition por_puntos_desc (a b : Palabra) : Z := (puntos b - puntos a)%Z.

(** [palabras[i].puntos]; every index read by the code is in range
    (lemma [lecturas_en_rango]). *)
Definition puntos_en (l : list Palabra) (i : nat) : Z :=
  match l !! i with
  | Some p => puntos p
  | None => 0%Z
  end.

(** [`longitud_${longitud}`] *)
Definition clave (longitud : nat) : string := "longitud_" +:+ pretty longitud.

(** The three locals of [ordenarYLimitarResultados]. *)
Record Locales : Type := {
  palabrasEncontradas : list Palabra;
  totalPalabras : nat;
  estadisticas_loc : gmap string Est.t
}.

(** One iteration of the [for ... of Object.entries(...)] loop. *)
Definition iteracion (st : Locales) (entrada : nat * list Palabra) : Locales :=
  let '(longitud, grupo) := entrada in
  if bool_decide (length grupo = 0) then st
  else
    let ordenadas := JS.sort por_puntos_desc grupo in
    let top10 := take 10 ordenadas in
    {| palabrasEncontradas := palabrasEncontradas st ++ top10;
       totalPalabras := totalPalabras st + length ordenadas;
       estadisticas_loc :=
         <[ clave longitud :=
              {| Est.total := length ordenadas;
                 Est.mejores := length top10;
                 Est.puntos_max := puntos_en ordenadas 0;
                 Est.puntos_min := puntos_en ordenadas (length ordenadas - 1) |} ]>
           (estadisticas_loc st) |}.

Definition ordenarYLimitarResultados (palabrasPorLongitud : Grupos) : Resultado :=
  let fin :=
    fold_left iteracion palabrasPorLongitud
      {| palabrasEncontradas := []; totalPalabras := 0; estadisticas_loc := ∅ |} in
  let ordenadas := JS.sort por_puntos_desc (palabrasEncontradas fin) in
  {| success := true;
     data := {| palabras := ordenadas;
                total := length ordenadas;
                total_antes_filtro := totalPalabras fin;
                estadisticas := estadisticas_loc fin |} |}.

(** [palabrasPorLongitud[longitud].push(p)]: [None] when the object has no
    property [longitud] (the read gives [undefined] and [.push] throws). *)
Fixpoint push_grupo (longitud : nat) (p : Palabra) (g : Grupos) : option Grupos :=
  match g with
  | [] => None
  | (k, ps) :: g' =>
      if bool_decide (longitud = k) then Some ((k, ps ++ [p]) :: g')
      else cons (k, ps) <$> push_grupo longitud p g'
  end.

(** The [for (const item of palabras)] loop.  An item without keys gives
    [palabra = undefined], and [palabra.length] throws. *)
Fixpoint agrupar (items : list Item) (g : Grupos) : JS.completion Grupos :=
  match items with
  | [] => JS.Return g
  | item :: resto =>
      match item with
      | [] => JS.Throw JS.TypeError
      | (palabra, puntosAPI) :: _ =>
          let longitud := String.length palabra in
          match push_grupo longitud {| palabra := palabra; puntos := puntosAPI |} g with
          | None => JS.Throw JS.TypeError
          | Some g' => agrupar resto g'
          end
      end
  end.

Definition grupos_iniciales : Grupos := [(3, []); (4, []); (5, []); (6, []); (7, [])].

Definition procesarPalabras (items : list Item) : JS.completion Resultado :=
  palabrasPorLongitud ← agrupar items grupos_iniciales;
  mret (ordenarYLimitarResultados palabrasPorLongitud).

(** ** Validation and the request to the word source *)

Definition es_array_de (n : nat) (v : JS.value) : bool :=
  match v with
  | JS.Array elems => bool_decide (length elems = n)
  | _ => false
  end.

(** The [for (let i = 0; i < puntosExtra.length; i++)] loop, from index [i]. *)
Fixpoint validarFilas (i : nat) (filas : list JS.value) : JS.completion unit :=
  match filas with
  | [] => mret ()
  | fila :: resto =>
      let longitud := i + 3 in
      if negb (es_array_de longitud fila) then
        JS.Throw (JS.Error ("La fila " +:+ pretty i +:+ " debe tener "
                              +:+ pretty longitud +:+ " elementos"))
      else validarFilas (S i) resto
  end.

(** Code unit 250, u with acute accent. *)
Definition u_aguda : string := String (Ascii.ascii_of_nat 250) "".

Definition validarParametros (letrasDisponibles puntosExtra ronda : JS.value)
  : JS.completion unit :=
  if negb (es_array_de 7 letrasDisponibles) then
    JS.Throw (JS.Error "El array de letras disponibles debe tener exactamente 7 letras")
  else if negb (es_array_de 5 puntosExtra) then
    JS.Throw (JS.Error "El array de puntos extra debe tener 5 filas (para longitudes 3-7)")
  else
    _ ← validarFilas 0 (match puntosExtra with JS.Array filas => filas | _ => [] end);
    match ronda with
    | JS.Number n =>
        if JS.lt n (JS.of_nat 1) || JS.lt (JS.of_nat 5) n then
          JS.Throw (JS.Error ("La ronda debe ser un n" +:+ u_aguda +:+ "mero entre 1 y 5"))
        else mret ()
    | _ => JS.Throw (JS.Error ("La ronda debe ser un n" +:+ u_aguda +:+ "mero entre 1 y 5"))
    end.

(** Built-ins used to build the request. *)
Record Host : Type := {
  toUpperCase : string → string;
  JSON_stringify : JS.value → string;
  encodeURIComponent : string → string;
  number_toString : JS.number → string
}.

(** What [fetch(url)] followed by [response.json()] gives. *)
Inductive RespuestaAPI : Type :=
| FalloDeRed
| CuerpoNoJSON
| Sobre (success : bool) (mensaje : option string) (palabras : option (list Item)).

(** A computation that issues network requests: its completion and the URLs
    fetched, in order. *)
Definition ConRed (A : Type) : Type := JS.completion A * list string.

Definition sin_red {A : Type} (c : JS.completion A) : ConRed A := (c, []).

Definition luego {A B : Type} (c : ConRed A) (k : A → ConRed B) : ConRed B :=
  match c with
  | (JS.Return a, urls) => let '(r, urls') := k a in (r, urls ++ urls')
  | (JS.Throw e, urls) => (JS.Throw e, urls)
  end.

(** [letrasDisponibles.map(l => l.toUpperCase())]: an element that is not a
    string has no [toUpperCase] method. *)
Fixpoint normalizar (h : Host) (letras : list JS.value) : JS.completion (list string) :=
  match letras with
  | [] => mret []
  | JS.Str l :: resto =>
      resto' ← normalizar h resto;
      mret (toUpperCase h l :: resto')
  | _ :: _ => JS.Throw JS.TypeError
  end.

Definition url_consulta (h : Host) (letras : list string) (puntosExtra : JS.value)
    (ronda : JS.number) (apiUrl : string) : string :=
  apiUrl +:+ "?letras=" +:+ String.concat "," letras
         +:+ "&puntos_extra=" +:+ encodeURIComponent h (JSON_stringify h puntosExtra)
         +:+ "&ronda=" +:+ number_toString h ronda.

Definition obtenerPalabrasAPI (h : Host) (fetch : string → RespuestaAPI)
    (letras : list string) (puntosExtra : JS.value) (ronda : JS.number)
    (apiUrl : string) : ConRed (list Item) :=
  let url := url_consulta h letras puntosExtra ronda apiUrl in
  (match fetch url with
   | FalloDeRed => JS.Throw JS.TypeError
   | CuerpoNoJSON =>
       JS.Throw (JS.Error ("El servidor no respondi" +:+ String (Ascii.ascii_of_nat 243) ""
                             +:+ " correctamente. Int" +:+ String (Ascii.ascii_of_nat 233) ""
                             +:+ "ntalo de nuevo."))
   | Sobre false mensaje _ =>
       JS.Throw (JS.Error (match mensaje with
                           | Some m => if bool_decide (m = "")
                                       then "No se pudo obtener las palabras del servidor"
                                       else m
                           | None => "No se pudo obtener las palabras del servidor"
                           end))
   | Sobre true _ (Some palabras) => mret palabras
   | Sobre true _ None => JS.Throw JS.TypeError
   end, [url]).

Definition buscarPalabras (h : Host) (fetch : string → RespuestaAPI)
    (letrasDisponibles puntosExtra ronda : JS.value) (apiUrl : string)
  : ConRed Resultado :=
  luego (sin_red (validarParametros letrasDisponibles puntosExtra ronda)) (λ _,
  luego (sin_red (normalizar h
           (match letrasDisponibles with JS.Array l => l | _ => [] end))) (λ letrasNormalizadas,
  luego (obtenerPalabrasAPI h fetch letrasNormalizadas puntosExtra
           (match ronda with JS.Number n => n | _ => JS.NaN end) apiUrl) (λ palabrasCoincidentes,
  sin_red (procesarPalabras palabrasCoincidentes)))).

(** ** The service worker ([sw.js]) *)

Module SW.

(** [event.request] with [new URL(request.url)] already taken apart by the
    host.  Only GET requests are modelled: the request identity in a cache
    is the URL. *)
Record Request : Type := {
  href : string;
  origin : string;
  hostname : string;
  pathname : string
}.

(** A response body is either the JSON text of a value
    ([JSON.stringify(v)]) or other content, which is not JSON text. *)
Inductive Body : Type :=
| JSON_text (v : JS.value)
| Otro (contenido : string).

Record Response : Type := {
  status : nat;
  statusText : string;
  headers : list (string * string);
  body : Body
}.

(** [response.json()] *)
Definition json (r : Response) : JS.completion JS.value :=
  match body r with
  | JSON_text v => mret v
  | Otro _ => JS.Throw JS.SyntaxError
  end.

(** [response.ok] *)
Definition ok (r : Response) : bool :=
  bool_decide (200 ≤ status r) && bool_decide (status r ≤ 299).

(** The network: the response to a GET of a URL, or [None] when [fetch]
    rejects. *)
Definition Red : Type := string → option Response.

(** [caches]: the named caches in creation order (the order of
    [caches.keys()] and of the search of [caches.match]); a cache maps a
    request URL to the stored response. *)
Abbreviation CacheStorage := (list (string * gmap string Response)).

Fixpoint caches_match (cs : CacheStorage) (url : string) : option Response :=
  match cs with
  | [] => None
  | (_, cache) :: cs' =>
      match cache !! url with
      | Some r => Some r
      | None => caches_match cs' url
      end
  end.

Definition caches_keys (cs : CacheStorage) : list string := cs.*1.

(** [caches.open(name)] creates the cache when it does not exist. *)
Definition caches_open (name : string) (cs : CacheStorage) : CacheStorage :=
  if bool_decide (name ∈ caches_keys cs) then cs else cs ++ [(name, ∅)].

Definition caches_delete (name : string) (cs : CacheStorage) : CacheStorage :=
  filter (λ kc, kc.1 ≠ name) cs.

(** [cache.put(url, r)] on the cache called [name]. *)
Fixpoint cache_put (name url : string) (r : Response) (cs : CacheStorage) : CacheStorage :=
  match cs with
  | [] => []
  | (k, cache) :: cs' =>
      if bool_decide (k = name) then (k, <[url := r]> cache) :: cs'
      else (k, cache) :: cache_put name url r cs'
  end.

(** The fetches of [cache.addAll(urls)]: [None] when one of them fails or
    answers with a status that is not ok ([addAll] then rejects and stores
    nothing). *)
Fixpoint fetch_all (red : Red) (urls : list string) : option (list (string * Response)) :=
  match urls with
  | [] => Some []
  | u :: us =>
      match red u with
      | Some r => if ok r then cons (u, r) <$> fetch_all red us else None
      | None => None
      end
  end.

Definition put_all (name : string) (rs : list (string * Response)) (cs : CacheStorage)
  : CacheStorage :=
  foldl (λ cs ur, cache_put name ur.1 ur.2 cs) cs rs.

(** Work started by a handler and not awaited by it:
    [caches.open(name).then(cache => { cache.put(request, response) })]. *)
Inductive Tarea : Type :=
| AbrirYGuardar (name url : string) (r : Response).

Definition ejecutar (cs : CacheStorage) (t : Tarea) : CacheStorage :=
  match t with
  | AbrirYGuardar name url r => cache_put name url r (caches_open name cs)
  end.

Record Estado : Type := {
  caches : CacheStorage;
  skipWaitingFlag : bool;
  clientsClaimed : bool;
  pendientes : list Tarea
}.

(** The pending work runs to completion. *)
Definition asentar (st : Estado) : Estado :=
  {| caches := foldl ejecutar (caches st) (pendientes st);
     skipWaitingFlag := skipWaitingFlag st;
     clientsClaimed := clientsClaimed st;
     pendientes := [] |}.

(** What a fetch handler leaves when the promise given to
    [event.respondWith] settles: the response ([None] when the promise
    rejects), the network fetches issued, and the state. *)
Record Salida : Type := {
  respuesta : option Response;
  peticiones : list string;
  estado : Estado
}.

Definition VERSION : string := "20260203-1915".

Definition PRECACHE_URLS : list string :=
  [ "./"; "./index.html"; "./front/index.css"; "./front/index.js";
    "./front/icons/favicon.ico"; "./front/icons/wordzee-32_32.png";
    "./front/icons/wordzee-64_64.jpg"; "./front/icons/wordzee-256_256.webp";
    "./front/icons/wordzee-512_512.png"; "./front/icons/telegram.png";
    "./front/icons/Facebook_f_logo_2019.svg" ].

Definition EXTERNAL_URLS : list string :=
  [ "https://cdn.jsdelivr.net/npm/bootstrap@5.3.8/dist/css/bootstrap.min.css";
    "https://cdn.jsdelivr.net/npm/bootstrap@5.3.8/dist/js/bootstrap.bundle.min.js" ].

(** The body of the response synthesized when the API is unreachable. *)
Definition cuerpo_sin_conexion : JS.value :=
  JS.Object
    [ ("success", JS.Boolean false);
      ("mensaje",
       JS.Str ("No se pudo conectar con el servidor. Verifica tu conexi"
                 +:+ String (Ascii.ascii_of_nat 243) "" +:+ "n a internet.")) ].

Definition respuesta_sin_conexion : Response :=
  {| status := 200;
     statusText := "OK";
     headers := [("Content-Type", "application/json")];
     body := JSON_text cuerpo_sin_conexion |}.

Section Worker.
(** The version string the script is deployed with ([VERSION] in the
    source at hand), the origin of the worker ([location.origin]) and
    the resolution of a manifest entry against the worker's location. *)
Variable version : string.
Variable location_origin : string.
Variable resolver : string → string.

Definition CACHE_NAME : string := "bpwordzee-" +:+ version.
Definition CACHE_NAME_EXTERNAL : string := "bpwordzee-external-" +:+ version.

(** [cache.addAll(urls)] on a cache just opened under [name]; the flag
    tells whether the promise is fulfilled. *)
Definition addAll (red : Red) (name : string) (urls : list string) (cs : CacheStorage)
  : bool * CacheStorage :=
  match fetch_all red (resolver <$> urls) with
  | Some rs => (true, put_all name rs cs)
  | None => (false, cs)
  end.

(** The [install] listener; the flag tells whether the promise given to
    [event.waitUntil] is fulfilled. *)
Definition on_install (red : Red) (st : Estado) : bool * Estado :=
  let '(ok1, cs1) := addAll red CACHE_NAME PRECACHE_URLS (caches_open CACHE_NAME (caches st)) in
  let '(_, cs2) :=
    addAll red CACHE_NAME_EXTERNAL EXTERNAL_URLS (caches_open CACHE_NAME_EXTERNAL cs1) in
  (ok1, {| caches := cs2;
           skipWaitingFlag := true;
           clientsClaimed := clientsClaimed st;
           pendientes := pendientes st |}).

(** The [activate] listener, once the promise given to
    [event.waitUntil] is fulfilled. *)
Definition on_activate (st : Estado) : Estado :=
  let keys := caches_keys (caches st) in
  let viejas :=
    filter (λ key, key ≠ CACHE_NAME ∧ key ≠ CACHE_NAME_EXTERNAL) keys in
  {| caches := foldl (λ cs key, caches_delete key cs) (caches st) viejas;
     skipWaitingFlag := skipWaitingFlag st;
     clientsClaimed := true;
     pendientes := pendientes st |}.

Definition es_api (request : Request) : bool :=
  JS.includes "/api/" (pathname request) || JS.includes "api." (hostname request).

Definition diferir (t : Tarea) (st : Estado) : Estado :=
  {| caches := caches st;
     skipWaitingFlag := skipWaitingFlag st;
     clientsClaimed := clientsClaimed st;
     pendientes := pendientes st ++ [t] |}.

(** The [fetch] listener. *)
Definition on_fetch (red : Red) (st : Estado) (request : Request) : Salida :=
  if es_api request then
    match red (href request) with
    | Some response =>
        {| respuesta := Some response; peticiones := [href request]; estado := st |}
    | None =>
        {| respuesta := Some respuesta_sin_conexion;
           peticiones := [href request]; estado := st |}
    end
  else if bool_decide (origin request ≠ location_origin) then
    match caches_match (caches st) (href request) with
    | Some cached => {| respuesta := Some cached; peticiones := []; estado := st |}
    | None =>
        match red (href request) with
        | Some response =>
            {| respuesta := Some response;
               peticiones := [href request];
               estado :=
                 if bool_decide (status response = 200) then
                   diferir (AbrirYGuardar CACHE_NAME_EXTERNAL (href request) response) st
                 else st |}
        | None => {| respuesta := None; peticiones := [href request]; estado := st |}
        end
    end
  else
    match caches_match (caches st) (href request) with
    | Some cached => {| respuesta := Some cached; peticiones := []; estado := st |}
    | None =>
        {| respuesta := red (href request); peticiones := [href request]; estado := st |}
    end.

(** The [message] listener, on [event.data]. *)
Definition on_message (st : Estado) (data : JS.value) : Estado :=
  if negb (JS.truthy data) then st
  else
    match data with
    | JS.Object props =>
        match JS.get_prop "type" props with
        | JS.Str t =>
            if bool_decide (t = "SKIP_WAITING") then
              {| caches := caches st;
                 skipWaitingFlag := true;
                 clientsClaimed := clientsClaimed st;
                 pendientes := pendientes st |}
            else st
        | _ => st
        end
    | _ => st
    end.

End Worker.

(** The phase a worker reaches once its install event has settled (the
    host's lifecycle): a failed install discards it; otherwise it is
    activated at once when nothing uses the previous version or when its
    skip-waiting flag is set, and waits else. *)
Inductive Fase : Type := Redundante | EnEspera | Activando.

Definition tras_instalar (instalado : bool) (version_anterior_en_uso : bool) (st : Estado)
  : Fase :=
  if negb instalado then Redundante
  else if skipWaitingFlag st || negb version_anterior_en_uso then Activando
  else EnEspera.

End SW.


(** ** Vocabulary of the statements *)

Abbreviation ordenar := (JS.sort por_puntos_desc).

(** Descending by score. *)
Definition desc (l : list Palabra) : Prop :=
  StronglySorted (λ a b, (puntos b ≤ puntos a)%Z) l.

(** The scored word an item stands for: its first key and that key's
    value. *)
Definition palabra_de (item : Item) : option Palabra :=
  match item with
  | [] => None
  | (w, p) :: _ => Some {| palabra := w; puntos := p |}
  end.

(** The words of length [n] among the candidates, in arrival order: the
    bucket of length [n] before sorting and truncation. *)
Definition grupo_de (n : nat) (items : list Item) : list Palabra :=
  filter (λ p, String.length (palabra p) = n) (omap palabra_de items).

(** An item the grouping loop accepts: it has a key, of length 3 to 7. *)
Definition bien_formado (item : Item) : bool :=
  match palabra_de item with
  | Some p => bool_decide (3 ≤ String.length (palabra p) ≤ 7)
  | None => false
  end.

(** The first ten of the sorted bucket of length [n]. *)
Definition mejores_de (n : nat) (items : list Item) : list Palabra :=
  take 10 (ordenar (grupo_de n items)).

(** A ranked word list given back to the ranking as candidates. *)
Definition como_items (ps : list Palabra) : list Item :=
  (λ p, [(palabra p, puntos p)]) <$> ps.

(** The effect of one [push] on the groups, and of the whole loop. *)
Definition anadir (n : nat) (p : Palabra) (kps : nat * list Palabra) : nat * list Palabra :=
  (kps.1, if bool_decide (n = kps.1) then kps.2 ++ [p] else kps.2).

(** The items an object with the keys [claves] accepts. *)
Definition aceptado (claves : list nat) (item : Item) : bool :=
  match palabra_de item with
  | Some p => bool_decide (String.length (palabra p) ∈ claves)
  | None => false
  end.

Definition extender (items : list Item) (kps : nat * list Palabra) : nat * list Palabra :=
  (kps.1, kps.2 ++ grupo_de kps.1 items).

(** The five groups the loop of [procesarPalabras] builds. *)
Definition grupos_de (items : list Item) : Grupos :=
  (λ n, (n, grupo_de n items)) <$> [3; 4; 5; 6; 7].

(** The statistics entry of a non-empty group, as the loop computes it. *)
Definition resumen (grupo : list Palabra) : Est.t :=
  let ordenadas := ordenar grupo in
  {| Est.total := length ordenadas;
     Est.mejores := length (take 10 ordenadas);
     Est.puntos_max := puntos_en ordenadas 0;
     Est.puntos_min := puntos_en ordenadas (length ordenadas - 1) |}.

(** Sample candidates. *)
Definition cuatro_candidatas : list Item :=
  [ [("SOL", 7%Z)]; [("CASA", 12%Z)]; [("MAR", 9%Z)]; [("LUZ", 4%Z)] ].

(** Four words of length 3 in ascending order of score, and one of length
    4. *)
Definition en_orden_creciente : list Item :=
  [ [("LUZ", 1%Z)]; [("SOL", 2%Z)]; [("MAR", 3%Z)]; [("PAN", 4%Z)]; [("CASA", 12%Z)] ].

(** Two buckets whose score ranges do not overlap: every word of length 4
    scores above every word of length 3. *)
Definition rangos_disjuntos : list Item :=
  [ [("SOL", 5%Z)]; [("MAR", 3%Z)]; [("CASA", 20%Z)]; [("LUNA", 11%Z)] ].

(** Fifteen words of length 4 with the scores 1 to 15, in arrival order. *)
Definition quince : list Item :=
  [ [("PATA", 1%Z)]; [("PATO", 2%Z)]; [("PALA", 3%Z)]; [("PALO", 4%Z)]; [("PASA", 5%Z)];
    [("PASO", 6%Z)]; [("PESA", 7%Z)]; [("PESO", 8%Z)]; [("PISA", 9%Z)]; [("PISO", 10%Z)];
    [("POSA", 11%Z)]; [("POSO", 12%Z)]; [("PUSO", 13%Z)]; [("PURA", 14%Z)];
    [("PURO", 15%Z)] ].

(** Fifteen words of length 4 and two words of length 3 that tie with one of
    them. *)
Definition quince_y_empates : list Item :=
  quince ++ [ [("SOL", 8%Z)]; [("MAR", 8%Z)] ].

(** Candidates with a word of length 1 and a word of length 2. *)
Definition con_palabras_cortas : list Item :=
  [ [("A", 5%Z)]; [("AB", 7%Z)]; [("AAA", 3%Z)]; [("AAA", 9%Z)] ].

(** The shape constraints of the three parameters. *)
Definition letras_validas (v : JS.value) : Prop :=
  ∃ elems, v = JS.Array elems ∧ length elems = 7.

Definition tabla_valida (v : JS.value) : Prop :=
  ∃ filas, v = JS.Array filas ∧ length filas = 5
           ∧ ∀ i fila, filas !! i = Some fila →
               ∃ elems, fila = JS.Array elems ∧ length elems = i + 3.

(** The round is a number from 1 to 5. *)
Definition ronda_numero_1_5 (v : JS.value) : Prop :=
  ∃ q, v = JS.Number (JS.Finite q) ∧ (1 <= q)%Q ∧ (q <= 5)%Q.

(** The round is an integer from 1 to 5. *)
Definition ronda_entera_1_5 (v : JS.value) : Prop :=
  ∃ q z, v = JS.Number (JS.Finite q) ∧ (q == inject_Z z)%Q ∧ (1 ≤ z ≤ 5)%Z.

(** Sample parameters: seven letters and a bonus table of the right shape. *)
Definition letras_ejemplo : list string := ["c"; "a"; "s"; "e"; "r"; "o"; "n"].

Definition tabla_ejemplo : JS.value :=
  JS.Array ((λ n, JS.Array (replicate n (JS.Str ""))) <$> [3; 4; 5; 6; 7]).

(** A host for the samples: upper-casing of the letters a-z, and stand-ins
    for the text built-ins. *)
Definition mayuscula (c : Ascii.ascii) : Ascii.ascii :=
  let n := Ascii.nat_of_ascii c in
  if bool_decide (97 ≤ n ≤ 122) then Ascii.ascii_of_nat (n - 32) else c.

Fixpoint mayusculas (s : string) : string :=
  match s with
  | EmptyString => EmptyString
  | String c s' => String (mayuscula c) (mayusculas s')
  end.

Definition host_ejemplo : Host :=
  {| toUpperCase := mayusculas;
     JSON_stringify := λ _, "[...]";
     encodeURIComponent := λ s, s;
     number_toString := λ _, "3" |}.

(** A word source that answers every request with four scored words. *)
Definition fetch_ejemplo : string → RespuestaAPI :=
  λ _, Sobre true None (Some cuatro_candidatas).

(** Sample requests and responses for the worker. *)
Definition origen_ejemplo : string := "https://bpwordzee.example".

Definition peticion_api : SW.Request :=
  {| SW.href := "https://bpwordzee.example/api/bpwordzee?ronda=1";
     SW.origin := "https://bpwordzee.example";
     SW.hostname := "bpwordzee.example";
     SW.pathname := "/api/bpwordzee" |}.

Definition peticion_cdn : SW.Request :=
  {| SW.href := "https://cdn.jsdelivr.net/npm/bootstrap@5.3.8/dist/css/bootstrap.min.css";
     SW.origin := "https://cdn.jsdelivr.net";
     SW.hostname := "cdn.jsdelivr.net";
     SW.pathname := "/npm/bootstrap@5.3.8/dist/css/bootstrap.min.css" |}.

Definition respuesta_200 : SW.Response :=
  {| SW.status := 200; SW.statusText := "OK"; SW.headers := [];
     SW.body := SW.Otro "body { margin: 0 }" |}.

Definition red_200 : SW.Red := λ _, Some respuesta_200.

Definition sin_red_alguna : SW.Red := λ _, None.

Definition estado_inicial : SW.Estado :=
  {| SW.caches := []; SW.skipWaitingFlag := false; SW.clientsClaimed := false;
     SW.pendientes := [] |}.

(** ** The form, the table of results and the bonus buttons ([front/index.js]) *)

Module UI.

(** [new FormData(formulario)] seen through [getAll]: the fields are text
    fields, so every entry is a string. *)
Definition FormData : Type := string → list string.

(** [formData.get(name)]: the first entry, or [null]. *)
Definition FormData_get (formData : FormData) (name : string) : option string :=
  head (formData name).

(** [{ letras, puntosExtra, ronda }] *)
Record Datos : Type := {
  letras : list string;
  puntosExtra : list (list string);
  ronda : JS.number
}.

(** [parseInt] is a built-in of the host; its argument is [None] for
    [null]. *)
Definition obtenerDatosFormulario (h : Host) (parseInt : option string → JS.number)
    (formData : FormData) : Datos :=
  {| letras := toUpperCase h <$> formData "letrasDisponibles[]";
     ronda :=
       (let n := parseInt (FormData_get formData "ronda") in
        if JS.truthy (JS.Number n) then n else JS.of_nat 1);
     puntosExtra :=
       (λ longitud, formData ("puntosextra[" +:+ pretty longitud +:+ "][]"))
         <$> [3; 4; 5; 6; 7] |}.

(** The three parameters as [buscarPalabras] receives them. *)
Definition letras_js (d : Datos) : JS.value := JS.Array (JS.Str <$> letras d).

Definition puntosExtra_js (d : Datos) : JS.value :=
  JS.Array ((λ fila, JS.Array (JS.Str <$> fila)) <$> puntosExtra d).

Definition ronda_js (d : Datos) : JS.value := JS.Number (ronda d).

(** [const url = 'http://127.0.0.1/api/bpwordzee'] *)
Definition url : string := "http://127.0.0.1/api/bpwordzee".

(** Code unit 34, the double quote. *)
Definition comilla : string := String (Ascii.ascii_of_nat 34) "".

(** [`<td class="${clase}">${palabra} - ${puntos}</td>`] *)
Definition celda (h : Host) (clase : string) (p : Palabra) : string :=
  "<td class=" +:+ comilla +:+ clase +:+ comilla +:+ ">" +:+ palabra p +:+ " - "
    +:+ number_toString h (JS.Finite (inject_Z (puntos p))) +:+ "</td>".

(** The [for (const { palabra, puntos } of datos)] loop: [tabla[index]] is
    [undefined] for an index that is negative or beyond the columns, and
    [.push] then throws. *)
Fixpoint llenar (h : Host) (clase : string) (datos : list Palabra)
    (tabla : list (list string)) : JS.completion (list (list string)) :=
  match datos with
  | [] => mret tabla
  | p :: resto =>
      let index := (Z.of_nat (String.length (palabra p)) - 3)%Z in
      if bool_decide (index < 0)%Z then JS.Throw JS.TypeError
      else
        match tabla !! Z.to_nat index with
        | None => JS.Throw JS.TypeError
        | Some columna =>
            llenar h clase resto (<[Z.to_nat index := columna ++ [celda h clase p]]> tabla)
        end
  end.

(** [arr[x] || '<td></td>'] *)
Definition celda_o_vacia (arr : list string) (x : nat) : string :=
  match arr !! x with
  | Some c => if bool_decide (c = "") then "<td></td>" else c
  | None => "<td></td>"
  end.

(** [tabla.map(arr => arr[x] || '<td></td>')] *)
Definition celdas_de_fila (tabla : list (list string)) (x : nat) : list string :=
  (λ arr, celda_o_vacia arr x) <$> tabla.

(** [Math.max(...tabla.map(arr => arr.length))] *)
Definition maximo (tabla : list (list string)) : nat := max_list (length <$> tabla).

(** [Array.from({ length: maximo }, (_, x) => '<tr>' + ... + '</tr>')] *)
Definition filas (tabla : list (list string)) : list string :=
  (λ x, "<tr>" +:+ String.concat "" (celdas_de_fila tabla x) +:+ "</tr>")
    <$> seq 0 (maximo tabla).

(** The markup the element [id] ends with, or [None] when the function
    returns at [if (!datos)] and leaves the element as it is. *)
Definition mostrarPalabrasEncontradas (h : Host) (clase : string)
    (datos : option (list Palabra)) : JS.completion (option string) :=
  match datos with
  | None => mret None
  | Some datos =>
      tabla ← llenar h clase datos [[]; []; []; []; []];
      mret (Some (String.concat "" (filas tabla)))
  end.

(** What the user sees after a submit: the table, an error modal showing the
    exception, or nothing new. *)
Inductive Vista : Type :=
| Tabla (html : string)
| ModalError (e : JS.exn)
| SinCambios.

(** [formularioEnviar]: the view and the URLs fetched.  The spinner and the
    click listeners put on the cells are left out. *)
Definition formularioEnviar (h : Host) (parseInt : option string → JS.number)
    (fetch : string → RespuestaAPI) (formData : FormData) : Vista * list string :=
  let d := obtenerDatosFormulario h parseInt formData in
  if bool_decide (length (letras d) ≠ 7) then
    (ModalError (JS.Error "Debes ingresar exactamente 7 letras"), [])
  else
    match buscarPalabras h fetch (letras_js d) (puntosExtra_js d) (ronda_js d) url with
    | (JS.Return resultado, urls) =>
        if success resultado then
          match mostrarPalabrasEncontradas h "palenc noselect"
                  (Some (palabras (data resultado))) with
          | JS.Return (Some html) => (Tabla html, urls)
          | JS.Return None => (SinCambios, urls)
          | JS.Throw e => (ModalError e, urls)
          end
        else (SinCambios, urls)
    | (JS.Throw e, urls) => (ModalError e, urls)
    end.

(** *** The bonus buttons *)

(** An [input] of a row: its value and its class list.  The value setter
    stores the string conversion of what it is given. *)
Record Input : Type := {
  value : string;
  classList : list string
}.

(** [classList.remove(...tokens)] and [classList.add(token)] *)
Definition classList_remove (tokens : list string) (cl : list string) : list string :=
  filter (λ c, c ∉ tokens) cl.

Definition classList_add (token : string) (cl : list string) : list string :=
  if bool_decide (token ∈ cl) then cl else cl ++ [token].

(** The own properties of [clases] and of [valores]. *)
Definition clases (k : string) : option string :=
  if bool_decide (k = "I") then Some "rosa"
  else if bool_decide (k = "DL") then Some "bg-success"
  else if bool_decide (k = "TL") then Some "info"
  else None.

Definition valores (k : string) : option string :=
  if bool_decide (k = "I") then Some "DL"
  else if bool_decide (k = "DL") then Some "TL"
  else if bool_decide (k = "TL") then Some ""
  else None.

(** What an object literal inherits: for a name, the string conversion of
    the property of [Object.prototype] under that name ([constructor],
    [toString], ...), [None] when there is none.  The inherited properties
    are functions and objects, hence truthy. *)
Definition Prototipo : Type := string → option string.

(** A property read [o[k]] on an object literal whose own properties are
    strings: an own property, else an inherited one, else [undefined]. *)
Inductive Lectura : Type :=
| Propia (s : string)
| Heredada (texto : string)
| Indefinida.

Definition leer (proto : Prototipo) (propias : string → option string) (k : string)
  : Lectura :=
  match propias k with
  | Some s => Propia s
  | None =>
      match proto k with
      | Some texto => Heredada texto
      | None => Indefinida
      end
  end.

(** The string an [input] holds after [input.value = v]. *)
Definition como_texto (v : Lectura) : string :=
  match v with
  | Propia s => s
  | Heredada texto => texto
  | Indefinida => "undefined"
  end.

Definition verdadera (v : Lectura) : bool :=
  match v with
  | Propia s => negb (bool_decide (s = ""))
  | Heredada _ => true
  | Indefinida => false
  end.

(** How the handler ends: it returns, or [classList.add] throws the
    [DOMException] of that name. *)
Inductive Fin : Type :=
| Vuelve
| Lanza (nombre : string).

(** ASCII whitespace: tab, line feed, form feed, carriage return, space. *)
Definition espacio (a : Ascii.ascii) : bool :=
  let n := Ascii.nat_of_ascii a in
  bool_decide (n = 9) || bool_decide (n = 10) || bool_decide (n = 12)
  || bool_decide (n = 13) || bool_decide (n = 32).

(** [classList.add(token)] on a computed token: an empty token and a token
    with whitespace are refused, and the list stays as it is. *)
Definition classList_add_token (token : string) (cl : list string) : Fin * list string :=
  if bool_decide (token = "") then (Lanza "SyntaxError", cl)
  else if existsb espacio (String.list_ascii_of_string token)
       then (Lanza "InvalidCharacterError", cl)
       else (Vuelve, classList_add token cl).

(** The body of the [forEach] over the inputs of the row. *)
Definition limpiar (input : Input) : Input :=
  if bool_decide (value input = "DL") || bool_decide (value input = "TL") then
    {| value := "";
       classList := classList_add "info"
                      (classList_remove ["rosa"; "bg-success"; "info"] (classList input)) |}
  else input.

(** [cambiarValorBotones] on the inputs of the target's parent, in document
    order, the target being the input at position [i] ([None] when the row
    has no such input): how the handler ends, and the row it leaves. *)
Definition cambiarValorBotones (proto : Prototipo) (fila : list Input) (i : nat)
  : option (Fin * list Input) :=
  target ← fila !! i;
  let currentValue := if bool_decide (value target = "") then "I" else value target in
  if bool_decide (currentValue = "DP") || bool_decide (currentValue = "TP")
  then Some (Vuelve, fila)
  else
    let fila' := limpiar <$> fila in
    target' ← fila' !! i;
    let sin_color := classList_remove ["rosa"; "bg-success"; "info"] (classList target') in
    let nuevo := como_texto (leer proto valores currentValue) in
    let clase := leer proto clases currentValue in
    let '(fin, cl) :=
      if verdadera clase then classList_add_token (como_texto clase) sin_color
      else (Vuelve, sin_color) in
    Some (fin, <[i := {| value := nuevo; classList := cl |}]> fila').

End UI.

(** ** The page behind the worker *)

(** What [obtenerPalabrasAPI] reads of the worker's answer to its request:
    a rejected promise is a failed fetch; [response.json()] either throws or
    gives the envelope, of which [success] and [mensaje] are read.  The
    reading stops ([None]) at envelopes that report success, whose words are
    not decoded here, and at a [mensaje] that is neither absent nor a
    string. *)
Definition leer_respuesta (respuesta : option SW.Response) : option RespuestaAPI :=
  match respuesta with
  | None => Some FalloDeRed
  | Some response =>
      match SW.json response with
      | JS.Throw _ => Some CuerpoNoJSON
      | JS.Return (JS.Object props) =>
          if JS.truthy (JS.get_prop "success" props) then None
          else
            match JS.get_prop "mensaje" props with
            | JS.Str m => Some (Sobre false (Some m) None)
            | JS.Undefined => Some (Sobre false None None)
            | _ => None
            end
      | JS.Return _ => None
      end
  end.


(** The page is controlled by the worker: where the worker's answer to a
    request can be read, it is what [fetch(url)] followed by
    [response.json()] gives the page; [nueva_URL] is the host's
    [new URL(request.url)]. *)
Definition controlada (version location_origin : string) (nueva_URL : string → SW.Request)
    (red : SW.Red) (st : SW.Estado) (fetch : string → RespuestaAPI) : Prop :=
  ∀ url r,
    leer_respuesta
      (SW.respuesta (SW.on_fetch version location_origin red st (nueva_URL url))) = Some r →
    fetch url = r.
(** ** Vocabulary of the further statements *)

(** The cells of the words of length [n], in the order of [datos]. *)
Definition columna (h : Host) (clase : string) (n : nat) (datos : list Palabra)
  : list string :=
  UI.celda h clase <$> filter (λ p, String.length (palabra p) = n) datos.

(** The five columns of the table, for the lengths 3 to 7. *)
Definition columnas (h : Host) (clase : string) (datos : list Palabra)
  : list (list string) :=
  (λ n, columna h clase n datos) <$> [3; 4; 5; 6; 7].

(** Every bonus row of the form has one entry per letter position. *)
Definition filas_completas (formData : UI.FormData) : Prop :=
  ∀ n, 3 ≤ n ≤ 7 → length (formData ("puntosextra[" +:+ pretty n +:+ "][]")) = n.

(** A form with seven letters, complete bonus rows and the round [ronda]. *)
Definition formulario_ejemplo (ronda : string) : UI.FormData :=
  λ name,
    if bool_decide (name = "letrasDisponibles[]") then letras_ejemplo
    else if bool_decide (name = "ronda") then [ronda]
    else if bool_decide (name = "puntosextra[3][]") then replicate 3 ""
    else if bool_decide (name = "puntosextra[4][]") then replicate 4 ""
    else if bool_decide (name = "puntosextra[5][]") then replicate 5 ""
    else if bool_decide (name = "puntosextra[6][]") then replicate 6 ""
    else if bool_decide (name = "puntosextra[7][]") then replicate 7 ""
    else [].

(** A stand-in for [parseInt] on the sample forms: the digits 1 to 9, and
    NaN for anything else. *)
Definition parseInt_ejemplo (s : option string) : JS.number :=
  match s with
  | Some "1" => JS.Finite 1
  | Some "2" => JS.Finite 2
  | Some "3" => JS.Finite 3
  | Some "4" => JS.Finite 4
  | Some "5" => JS.Finite 5
  | Some "6" => JS.Finite 6
  | Some "7" => JS.Finite 7
  | Some "8" => JS.Finite 8
  | Some "9" => JS.Finite 9
  | _ => JS.NaN
  end.

(** A bonus row: a letter bonus, a free square, and a word bonus. *)
Definition fila_ejemplo : list UI.Input :=
  [ {| UI.value := "DL"; UI.classList := ["btn"; "rosa"] |};
    {| UI.value := ""; UI.classList := ["btn"; "info"] |};
    {| UI.value := "DP"; UI.classList := ["btn"] |} ].

(** A row whose first button holds a text that is no bonus, and one whose
    first button holds the name of an inherited property. *)
Definition fila_con_otro_valor : list UI.Input :=
  [ {| UI.value := "X"; UI.classList := ["btn"; "rosa"] |};
    {| UI.value := "TL"; UI.classList := ["btn"; "bg-success"] |} ].

Definition fila_con_constructor : list UI.Input :=
  [ {| UI.value := "constructor"; UI.classList := ["btn"] |};
    {| UI.value := "TL"; UI.classList := ["btn"; "bg-success"] |} ].

(** What the literals inherit in a host that prints its built-in functions
    on one line. *)
Definition prototipo_ejemplo : UI.Prototipo :=
  λ k,
    if bool_decide (k = "constructor") then Some "function Object() { [native code] }"
    else if bool_decide (k = "toString") then Some "function toString() { [native code] }"
    else if bool_decide (k = "valueOf") then Some "function valueOf() { [native code] }"
    else None.

(** The three classes that colour a button. *)
Definition colores : list string := ["rosa"; "bg-success"; "info"].

(** The caches hold nothing but what the network [red] answers. *)
Definition coherente (red : SW.Red) (cs : SW.CacheStorage) : Prop :=
  ∀ name cache url r, (name, cache) ∈ cs → cache !! url = Some r → red url = Some r.

(** The state belongs to one version: every cache, and every cache a pending
    write will open, is named after [version]. *)
Definition de_una_version (version : string) (st : SW.Estado) : Prop :=
  (∀ name, name ∈ SW.caches_keys (SW.caches st) →
     name = SW.CACHE_NAME version ∨ name = SW.CACHE_NAME_EXTERNAL version)
  ∧ Forall (λ t, match t with
                 | SW.AbrirYGuardar name _ _ =>
                     name = SW.CACHE_NAME version ∨ name = SW.CACHE_NAME_EXTERNAL version
                 end) (SW.pendientes st).

(** The resolution of a manifest entry against a worker at the root of
    [origen_ejemplo]. *)
Definition resolver_ejemplo (u : string) : string :=
  if String.prefix "./" u
  then origen_ejemplo +:+ String.substring 1 (String.length u - 1) u
  else u.

(** A request of the page for its own style sheet. *)
Definition peticion_css : SW.Request :=
  {| SW.href := "https://bpwordzee.example/front/index.css";
     SW.origin := "https://bpwordzee.example";
     SW.hostname := "bpwordzee.example";
     SW.pathname := "/front/index.css" |}.


(** The events the worker of one version handles: its listeners, and the
    completion of the work they left pending. *)
Inductive Evento : Type :=
| Instalar (resolver : string → string) (red : SW.Red)
| Activar
| Pedir (red : SW.Red) (request : SW.Request)
| Asentar
| Mensaje (data : JS.value).

Definition paso (version location_origin : string) (st : SW.Estado) (e : Evento)
  : SW.Estado :=
  match e with
  | Instalar resolver red => (SW.on_install version resolver red st).2
  | Activar => SW.on_activate version st
  | Pedir red request => SW.estado (SW.on_fetch version location_origin red st request)
  | Asentar => SW.asentar st
  | Mensaje data => SW.on_message st data
  end.

(** The network once the assets have been reworked. *)
Definition respuesta_nueva : SW.Response :=
  {| SW.status := 200; SW.statusText := "OK"; SW.headers := [];
     SW.body := SW.Otro "body { margin: 1px }" |}.

Definition red_nueva : SW.Red := λ _, Some respuesta_nueva.

(** The caches left by the installs of two versions. *)
Definition tras_dos_versiones : SW.Estado :=
  (SW.on_install "v2" resolver_ejemplo red_nueva
     (SW.on_install "v1" resolver_ejemplo red_200 estado_inicial).2).2.

(** [new URL(url)] on the URLs of the sample API. *)
Definition nueva_URL_ejemplo (url : string) : SW.Request :=
  {| SW.href := url;
     SW.origin := "http://127.0.0.1";
     SW.hostname := "127.0.0.1";
     SW.pathname := "/api/bpwordzee" |}.

(** The page's view of a worker with empty caches and no network. *)
Definition fetch_sin_conexion (url : string) : RespuestaAPI :=
  default FalloDeRed
    (leer_respuesta
       (SW.respuesta
          (SW.on_fetch SW.VERSION "http://127.0.0.1" sin_red_alguna estado_inicial
             (nueva_URL_ejemplo url)))).
(** * Properties *)

(** ** The sort *)

Lemma insertar_perm x l : JS.sort_insert por_puntos_desc x l ≡ₚ x :: l.
Proof.
  induction l as [|y l IH]; simpl; [done|].
  case_bool_decide; [|done].
  rewrite IH. apply Permutation_swap.
Qed.

Lemma ordenar_perm l : ordenar l ≡ₚ l.
Proof.
  induction l as [|x l IH]; simpl; [done|].
  by rewrite insertar_perm, IH.
Qed.

Lemma ordenar_length l : length (ordenar l) = length l.
Proof. by rewrite ordenar_perm. Qed.

Lemma insertar_desc x l : desc l → desc (JS.sort_insert por_puntos_desc x l).
Proof.
  unfold desc. induction 1 as [|y l Hl IH Hy]; simpl.
  - repeat constructor.
  - unfold por_puntos_desc at 1. case_bool_decide as Hc.
    + constructor; [done|].
      rewrite insertar_perm. constructor; [lia|done].
    + constructor; [by constructor|].
      constructor; [lia|].
      eapply Forall_impl; [exact Hy|]. simpl. intros; lia.
Qed.

Lemma ordenar_desc l : desc (ordenar l).
Proof.
  induction l as [|x l IH]; simpl; [constructor|]. by apply insertar_desc.
Qed.

(** Sorting a list that is already descending leaves it as it is. *)
Lemma ordenar_id l : desc l → ordenar l = l.
Proof.
  induction 1 as [|x l Hl IH Hx]; simpl; [done|].
  rewrite IH. destruct Hx as [|y l Hy _]; simpl; [done|].
  unfold por_puntos_desc. case_bool_decide; [lia|done].
Qed.

Lemma Forall_filtro {A} (Q P : A → Prop) `{∀ x, Decision (P x)} (l : list A) :
  Forall Q l → Forall Q (filter P l).
Proof.
  rewrite !Forall_forall. intros HQ x [_ Hx]%list_elem_of_filter. by apply HQ.
Qed.

(** The head of a descending list bounds every element. *)
Lemma desc_cons_inv x l : desc (x :: l) → desc l ∧ Forall (λ y, (puntos y ≤ puntos x)%Z) l.
Proof. intros H. by apply StronglySorted_inv in H. Qed.

Lemma desc_head l p q : desc l → head l = Some p → q ∈ l → (puntos q ≤ puntos p)%Z.
Proof.
  destruct l as [|x l]; [done|]. intros [_ Hx]%desc_cons_inv [= ->] Hq.
  apply elem_of_cons in Hq as [->|Hq]; [done|].
  by apply (proj1 (Forall_forall _ _) Hx).
Qed.

Lemma desc_last l p q : desc l → last l = Some p → q ∈ l → (puntos p ≤ puntos q)%Z.
Proof.
  intros Hd Hp Hq. apply last_Some in Hp as [l' ->].
  apply elem_of_app in Hq as [Hq|Hq].
  - apply StronglySorted_app in Hd as (Hle & _ & _). apply (Hle q p Hq). left.
  - apply list_elem_of_singleton in Hq as ->. done.
Qed.

(** An element at least as large as the whole descending list is inserted
    in front. *)
Lemma insertar_frente x l :
  Forall (λ y, (puntos y ≤ puntos x)%Z) l → JS.sort_insert por_puntos_desc x l = x :: l.
Proof.
  destruct 1 as [|y l Hy _]; simpl; [done|].
  unfold por_puntos_desc. case_bool_decide; [lia|done].
Qed.

(** Stability: selecting by a property of the elements commutes with the
    sort, so the relative order of the selected elements is kept. *)
Lemma insertar_filter (P : Palabra → Prop) `{∀ p, Decision (P p)} x l :
  desc l →
  filter P (JS.sort_insert por_puntos_desc x l) =
  if decide (P x) then JS.sort_insert por_puntos_desc x (filter P l) else filter P l.
Proof.
  induction 1 as [|y l Hl IH Hy]; simpl.
  - rewrite filter_cons, filter_nil. by destruct (decide (P x)).
  - unfold por_puntos_desc at 1. case_bool_decide as Hc.
    + rewrite !filter_cons, IH.
      destruct (decide (P x)), (decide (P y)); simpl; try done.
      unfold por_puntos_desc at 2. by rewrite bool_decide_true.
    + rewrite !filter_cons.
      destruct (decide (P x)), (decide (P y)); simpl; try done.
      * unfold por_puntos_desc. by rewrite bool_decide_false.
      * symmetry. apply insertar_frente, Forall_filtro.
        eapply Forall_impl; [exact Hy|]. simpl. intros; lia.
Qed.

Lemma ordenar_filter (P : Palabra → Prop) `{∀ p, Decision (P p)} l :
  filter P (ordenar l) = ordenar (filter P l).
Proof.
  induction l as [|x l IH]; simpl; [done|].
  rewrite insertar_filter by apply ordenar_desc.
  rewrite filter_cons, IH. by destruct (decide (P x)).
Qed.

(** Words of equal score keep the order they arrived in. *)
Lemma ordenar_estable (s : Z) l :
  filter (λ p, puntos p = s) (ordenar l) = filter (λ p, puntos p = s) l.
Proof.
  rewrite ordenar_filter. apply ordenar_id.
  induction l as [|x l IH]; [constructor|].
  rewrite filter_cons. case_decide as Hx; [|done].
  constructor; [done|].
  apply Forall_forall. intros y Hy%list_elem_of_filter. lia.
Qed.

(** The model does not depend on the sorting algorithm: a descending list
    with the same equal-score runs as [l] is [ordenar l]. *)
Lemma ordenar_unico l l' :
  desc l' →
  (∀ s, filter (λ p, puntos p = s) l' = filter (λ p, puntos p = s) l) →
  l' = ordenar l.
Proof.
  intros Hd Hf.
  assert (∀ l1 l2, desc l1 → desc l2 →
            (∀ s, filter (λ p, puntos p = s) l1 = filter (λ p, puntos p = s) l2) →
            l1 = l2) as Huniq.
  { clear. intros l1. induction l1 as [|x l1 IH]; intros l2 H1 H2 Hf.
    - destruct l2 as [|y l2]; [done|].
      specialize (Hf (puntos y)). rewrite filter_nil, filter_cons in Hf.
      by rewrite decide_True in Hf.
    - destruct l2 as [|y l2].
      { specialize (Hf (puntos x)). rewrite filter_nil, filter_cons in Hf.
        by rewrite decide_True in Hf. }
      apply desc_cons_inv in H1 as [H1 Hx]. apply desc_cons_inv in H2 as [H2 Hy].
      assert (puntos x = puntos y) as Hxy.
      { assert (y ∈ x :: l1) as Hin1.
        { eapply (list_elem_of_filter (λ p, puntos p = puntos y)).
          rewrite Hf, filter_cons, decide_True by done. left. }
        assert (x ∈ y :: l2) as Hin2.
        { eapply (list_elem_of_filter (λ p, puntos p = puntos x)).
          rewrite <- Hf, filter_cons, decide_True by done. left. }
        rewrite Forall_forall in Hx, Hy.
        apply elem_of_cons in Hin1 as [->|Hin1]; [done|].
        apply elem_of_cons in Hin2 as [->|Hin2]; [done|].
        apply Hx in Hin1. apply Hy in Hin2. lia. }
      assert (x = y) as ->.
      { specialize (Hf (puntos x)). rewrite !filter_cons in Hf.
        rewrite decide_True in Hf by done. rewrite decide_True in Hf by done.
        congruence. }
      f_equal. apply IH; [done..|].
      intros s. specialize (Hf s). rewrite !filter_cons in Hf.
      destruct (decide (puntos y = s)); congruence. }
  apply Huniq; [done|apply ordenar_desc|].
  intros s. by rewrite Hf, ordenar_estable.
Qed.

(** ** Grouping by length *)

Lemma anadir_ausente n p (g : Grupos) : n ∉ g.*1 → anadir n p <$> g = g.
Proof.
  induction g as [|[k ps] g IH]; csimpl; [done|].
  intros Hn. rewrite not_elem_of_cons in Hn. destruct Hn as [Hk Hg].
  unfold anadir at 1. simpl. rewrite bool_decide_false by done.
  by rewrite IH.
Qed.

Lemma push_grupo_spec n p (g : Grupos) :
  NoDup g.*1 →
  push_grupo n p g = if bool_decide (n ∈ g.*1) then Some (anadir n p <$> g) else None.
Proof.
  induction g as [|[k ps] g IH]; csimpl; intros Hnd; [done|].
  apply NoDup_cons in Hnd as [Hk Hnd].
  unfold anadir at 1. simpl. specialize (IH Hnd).
  destruct (decide (n = k)) as [->|Hnk].
  - rewrite !(bool_decide_true (k = k)) by done.
    rewrite bool_decide_true by left.
    by rewrite anadir_ausente.
  - rewrite !(bool_decide_false (n = k)) by done. rewrite IH.
    destruct (decide (n ∈ g.*1)) as [Hin|Hin].
    + rewrite bool_decide_true by done. by rewrite bool_decide_true by (by right).
    + rewrite bool_decide_false by done.
      rewrite bool_decide_false; [done|].
      rewrite not_elem_of_cons. done.
Qed.

Lemma anadir_claves n p (g : Grupos) : (anadir n p <$> g).*1 = g.*1.
Proof. rewrite <- list_fmap_compose. by apply list_fmap_ext. Qed.

Lemma agrupar_spec items (g : Grupos) :
  NoDup g.*1 →
  agrupar items g =
    if forallb (aceptado g.*1) items then JS.Return (extender items <$> g)
    else JS.Throw JS.TypeError.
Proof.
  revert g. induction items as [|item items IH]; intros g Hnd; simpl.
  - f_equal. symmetry. rewrite <- (list_fmap_id g) at 2.
    apply list_fmap_ext. intros _ [k ps] _. unfold extender, grupo_de. simpl.
    by rewrite filter_nil, app_nil_r.
  - unfold aceptado at 1, palabra_de. destruct item as [|[w pts] resto]; [done|].
    simpl. rewrite push_grupo_spec by done.
    case_bool_decide as Hin; simpl; [|done].
    rewrite IH by (by rewrite anadir_claves).
    rewrite anadir_claves.
    destruct (forallb _ items); [|done].
    f_equal. rewrite <- list_fmap_compose. apply list_fmap_ext.
    intros _ [k ps] _. unfold extender, anadir, grupo_de. simpl.
    rewrite filter_cons. simpl.
    case_bool_decide as Hk; case_decide as Hk'; try congruence.
    + by rewrite <- app_assoc.
    + done.
Qed.

Lemma aceptado_iniciales item : aceptado grupos_iniciales.*1 item = bien_formado item.
Proof.
  unfold aceptado, bien_formado. destruct (palabra_de item) as [p|]; [|done].
  simpl. apply bool_decide_ext.
  rewrite !elem_of_cons, elem_of_nil. lia.
Qed.

Lemma agrupar_iniciales items :
  agrupar items grupos_iniciales =
    if forallb bien_formado items then JS.Return (grupos_de items)
    else JS.Throw JS.TypeError.
Proof.
  rewrite agrupar_spec by (by apply (bool_decide_unpack _)).
  replace (forallb (aceptado grupos_iniciales.*1) items) with (forallb bien_formado items); [done|].
  induction items as [|item items IH]; simpl; [done|].
  by rewrite aceptado_iniciales, IH.
Qed.

(** ** The loop of [ordenarYLimitarResultados] *)

Lemma clave_inj n m : clave n = clave m → n = m.
Proof.
  unfold clave. intros H. apply (inj (String.app "longitud_")) in H.
  by apply (inj pretty) in H.
Qed.

Arguments iteracion : simpl never.

Lemma iteracion_vacio st n : iteracion st (n, []) = st.
Proof. done. Qed.

Lemma iteracion_no_vacio st n grupo :
  grupo ≠ [] →
  iteracion st (n, grupo) =
    {| palabrasEncontradas := palabrasEncontradas st ++ take 10 (ordenar grupo);
       totalPalabras := totalPalabras st + length grupo;
       estadisticas_loc := <[clave n := resumen grupo]> (estadisticas_loc st) |}.
Proof.
  intros Hne. unfold iteracion. rewrite bool_decide_false.
  - unfold resumen. do 2 f_equal. apply ordenar_length.
  - by destruct grupo.
Qed.

Lemma bucle_palabras (g : Grupos) st :
  palabrasEncontradas (fold_left iteracion g st) =
  palabrasEncontradas st ++ concat ((λ kps, take 10 (ordenar kps.2)) <$> g).
Proof.
  revert st. induction g as [|[n grupo] g IH]; intros st; csimpl.
  - by rewrite app_nil_r.
  - rewrite IH. destruct grupo as [|p grupo].
    + by rewrite iteracion_vacio.
    + rewrite iteracion_no_vacio by done. simpl. by rewrite <- app_assoc.
Qed.

Lemma bucle_total (g : Grupos) st :
  totalPalabras (fold_left iteracion g st) =
  totalPalabras st + sum_list ((λ kps, length kps.2) <$> g).
Proof.
  revert st. induction g as [|[n grupo] g IH]; intros st; csimpl.
  - lia.
  - rewrite IH. destruct grupo as [|p grupo].
    + rewrite iteracion_vacio. simpl. lia.
    + rewrite iteracion_no_vacio by done. simpl. lia.
Qed.

(** A key that no non-empty group writes keeps its entry. *)
Lemma bucle_est_ajeno (g : Grupos) st k :
  (∀ n grupo, (n, grupo) ∈ g → grupo ≠ [] → clave n ≠ k) →
  estadisticas_loc (fold_left iteracion g st) !! k = estadisticas_loc st !! k.
Proof.
  revert st. induction g as [|[n grupo] g IH]; intros st Hk; simpl; [done|].
  rewrite IH by (intros n' grupo' ? ?; apply (Hk n' grupo'); [by right|done]).
  destruct grupo as [|p grupo]; [done|].
  rewrite iteracion_no_vacio by done. simpl.
  apply lookup_insert_ne. apply (Hk n (p :: grupo)); [left|done].
Qed.

Lemma bucle_est_propio (g : Grupos) st n grupo :
  NoDup g.*1 → (n, grupo) ∈ g → grupo ≠ [] →
  estadisticas_loc (fold_left iteracion g st) !! clave n = Some (resumen grupo).
Proof.
  revert st. induction g as [|[m grupo'] g IH]; intros st Hnd Hin Hne; csimpl in *.
  - by apply elem_of_nil in Hin.
  - apply NoDup_cons in Hnd as [Hm Hnd].
    apply elem_of_cons in Hin as [[= <- <-]|Hin].
    + rewrite bucle_est_ajeno.
      * rewrite iteracion_no_vacio by done. simpl. apply lookup_insert_eq.
      * intros n' grupo' Hin' _ Heq%clave_inj. subst n'.
        apply Hm. apply list_elem_of_fmap. by exists (n, grupo').
    + by apply IH.
Qed.

Lemma claves_unicas (g : Grupos) n grupo1 grupo2 :
  NoDup g.*1 → (n, grupo1) ∈ g → (n, grupo2) ∈ g → grupo1 = grupo2.
Proof.
  induction g as [|[m grupo] g IH]; csimpl; intros Hnd H1 H2.
  - by apply elem_of_nil in H1.
  - apply NoDup_cons in Hnd as [Hm Hnd].
    assert (∀ grupo', (m, grupo') ∈ g → False) as Hno.
    { intros grupo' Hin. apply Hm, list_elem_of_fmap. by exists (m, grupo'). }
    apply elem_of_cons in H1 as [H1|H1];
      apply elem_of_cons in H2 as [H2|H2]; simplify_eq; try done.
    + by destruct (Hno grupo2).
    + by destruct (Hno grupo1).
    + by apply IH.
Qed.

Lemma bucle_est_vacio (g : Grupos) st n :
  NoDup g.*1 → (n, []) ∈ g →
  estadisticas_loc (fold_left iteracion g st) !! clave n = estadisticas_loc st !! clave n.
Proof.
  intros Hnd Hin. apply bucle_est_ajeno.
  intros m grupo Hm Hne Heq%clave_inj. subst m.
  assert (grupo = []) as ->; [|done].
  by apply (claves_unicas g n grupo []).
Qed.

(** Every key of the result is written by a non-empty group. *)
Lemma bucle_est_origen (g : Grupos) st k s :
  estadisticas_loc (fold_left iteracion g st) !! k = Some s →
  estadisticas_loc st !! k = Some s ∨
  ∃ n grupo, (n, grupo) ∈ g ∧ grupo ≠ [] ∧ k = clave n.
Proof.
  revert st. induction g as [|[n grupo] g IH]; intros st Hs; simpl in *; [by left|].
  apply IH in Hs as [Hs|(m & grupo' & Hin & Hne & ->)].
  - destruct grupo as [|p grupo]; [by left|].
    rewrite iteracion_no_vacio in Hs by done. simpl in Hs.
    destruct (decide (clave n = k)) as [<-|Hk].
    + right. exists n, (p :: grupo). split; [left|done].
    + rewrite lookup_insert_ne in Hs by done. by left.
  - right. exists m, grupo'. split; [by right|done].
Qed.

(** The reads [palabras[0]] and [palabras[palabras.length - 1]] are in
    range whenever the loop reaches them. *)
Lemma lecturas_en_rango grupo :
  grupo ≠ [] →
  Some (Est.puntos_max (resumen grupo)) = puntos <$> head (ordenar grupo) ∧
  Some (Est.puntos_min (resumen grupo)) = puntos <$> last (ordenar grupo).
Proof.
  intros Hne. unfold resumen, puntos_en. simpl.
  assert (length (ordenar grupo) ≠ 0) as Hlen.
  { rewrite ordenar_length. by destruct grupo. }
  split.
  - rewrite <- head_lookup. destruct (ordenar grupo); [done|]. done.
  - rewrite last_lookup. replace (length (ordenar grupo) - 1) with (pred (length (ordenar grupo))) by lia.
    destruct (ordenar grupo !! pred (length (ordenar grupo))) eqn:E; [done|].
    apply lookup_ge_None in E. lia.
Qed.

(** ** The ranking as a whole *)

Lemma procesarPalabras_spec items :
  procesarPalabras items =
    if forallb bien_formado items
    then JS.Return (ordenarYLimitarResultados (grupos_de items))
    else JS.Throw JS.TypeError.
Proof.
  unfold procesarPalabras. rewrite agrupar_iniciales.
  by destruct (forallb bien_formado items).
Qed.

Lemma procesarPalabras_inv items r :
  procesarPalabras items = JS.Return r →
  forallb bien_formado items = true ∧ r = ordenarYLimitarResultados (grupos_de items).
Proof.
  rewrite procesarPalabras_spec. destruct (forallb bien_formado items); [|done].
  by intros [= <-].
Qed.

Lemma grupos_de_claves items : NoDup (grupos_de items).*1.
Proof. by apply (bool_decide_unpack _). Qed.

Lemma elem_of_grupos_de items n grupo :
  (n, grupo) ∈ grupos_de items ↔ 3 ≤ n ≤ 7 ∧ grupo = grupo_de n items.
Proof.
  unfold grupos_de. rewrite list_elem_of_fmap. split.
  - intros (m & [= -> ->] & Hm). split; [|done].
    rewrite !elem_of_cons, elem_of_nil in Hm. lia.
  - intros [Hn ->]. exists n. split; [done|].
    rewrite !elem_of_cons, elem_of_nil. lia.
Qed.

Lemma palabras_ranking items :
  palabras (data (ordenarYLimitarResultados (grupos_de items))) =
  ordenar (concat ((λ n, mejores_de n items) <$> [3; 4; 5; 6; 7])).
Proof.
  unfold ordenarYLimitarResultados. cbn [palabras data].
  by rewrite bucle_palabras.
Qed.

Lemma take_10_length {A} (l : list A) : length (take 10 l) = length l `min` 10.
Proof. rewrite length_take. lia. Qed.

Lemma est_no_vacio items n :
  3 ≤ n ≤ 7 → grupo_de n items ≠ [] →
  estadisticas (data (ordenarYLimitarResultados (grupos_de items))) !! clave n
  = Some (resumen (grupo_de n items)).
Proof.
  intros Hn Hne. unfold ordenarYLimitarResultados. cbn [estadisticas data].
  apply bucle_est_propio; [apply grupos_de_claves| |done].
  by apply elem_of_grupos_de.
Qed.

Lemma est_vacio items n :
  3 ≤ n ≤ 7 → grupo_de n items = [] →
  estadisticas (data (ordenarYLimitarResultados (grupos_de items))) !! clave n = None.
Proof.
  intros Hn Hvacio. unfold ordenarYLimitarResultados. cbn [estadisticas data].
  rewrite <- (lookup_empty (M := gmap string) (clave n)).
  apply (bucle_est_vacio _ {| estadisticas_loc := ∅ |}); [apply grupos_de_claves|].
  rewrite <- Hvacio. by apply elem_of_grupos_de.
Qed.

Lemma est_origen items k s :
  estadisticas (data (ordenarYLimitarResultados (grupos_de items))) !! k = Some s →
  ∃ n, 3 ≤ n ≤ 7 ∧ k = clave n ∧ grupo_de n items ≠ [] ∧ s = resumen (grupo_de n items).
Proof.
  unfold ordenarYLimitarResultados. cbn [estadisticas data]. intros Hs.
  destruct (bucle_est_origen _ _ _ _ Hs) as [Hs'|(n & grupo & Hin & Hne & ->)].
  - cbn [estadisticas_loc] in Hs'. by rewrite lookup_empty in Hs'.
  - rewrite (bucle_est_propio _ _ n grupo) in Hs
      by (done || apply grupos_de_claves).
    injection Hs as <-.
    apply elem_of_grupos_de in Hin as [Hn ->]. by exists n.
Qed.

Lemma resumen_total grupo : Est.total (resumen grupo) = length grupo.
Proof. apply ordenar_length. Qed.

Lemma resumen_mejores grupo : Est.mejores (resumen grupo) = length grupo `min` 10.
Proof. cbn [resumen Est.mejores]. by rewrite take_10_length, ordenar_length. Qed.

(** C4. For every input the ranking returns a result for, and every length
    3..7: a bucket that is non-empty before truncation has an entry in
    [estadisticas] whose [total] is the bucket's count before truncation,
    whose [mejores] is the count after truncation (at most 10), and whose
    [puntos_max] and [puntos_min] are the scores of the first and of the last
    word of the bucket sorted descending, before truncation: the sorted
    bucket is a rearrangement of the bucket, it is descending by score, and
    so [puntos_max] is the highest and [puntos_min] the lowest score of the
    whole bucket, each the score of one of its words.  An empty bucket has no
    entry, and there are no other entries. *)
Theorem C4_estadisticas_por_longitud (items : list Item) (r : Resultado) :
  procesarPalabras items = JS.Return r →
  (∀ n, 3 ≤ n ≤ 7 →
     let grupo := grupo_de n items in
     (grupo ≠ [] →
        ∃ s, estadisticas (data r) !! clave n = Some s
             ∧ Est.total s = length grupo
             ∧ Est.mejores s = length (mejores_de n items)
             ∧ Est.mejores s = length grupo `min` 10
             ∧ ordenar grupo ≡ₚ grupo
             ∧ desc (ordenar grupo)
             ∧ Some (Est.puntos_max s) = puntos <$> head (ordenar grupo)
             ∧ Some (Est.puntos_min s) = puntos <$> last (ordenar grupo)
             ∧ (∀ p, p ∈ grupo → (Est.puntos_min s ≤ puntos p ≤ Est.puntos_max s)%Z)
             ∧ (∃ p, p ∈ grupo ∧ puntos p = Est.puntos_max s)
             ∧ (∃ p, p ∈ grupo ∧ puntos p = Est.puntos_min s))
     ∧ (grupo = [] → estadisticas (data r) !! clave n = None))
  ∧ (∀ k s, estadisticas (data r) !! k = Some s →
       ∃ n, 3 ≤ n ≤ 7 ∧ k = clave n ∧ grupo_de n items ≠ [] ∧ 0 < Est.total s).
Proof.
  intros [_ ->]%procesarPalabras_inv. split.
  - intros n Hn. split.
    + intros Hne. exists (resumen (grupo_de n items)).
      split; [by apply est_no_vacio|].
      split; [apply resumen_total|]. split; [done|].
      split; [apply resumen_mejores|].
      split; [apply ordenar_perm|]. split; [apply ordenar_desc|].
      destruct (lecturas_en_rango (grupo_de n items) Hne) as [Hmax Hmin].
      split; [done|]. split; [done|].
      destruct (head (ordenar (grupo_de n items))) as [primera|] eqn:Hprimera;
        [|discriminate Hmax].
      destruct (last (ordenar (grupo_de n items))) as [ultima|] eqn:Hultima;
        [|discriminate Hmin].
      change (Some (Est.puntos_max (resumen (grupo_de n items))) = Some (puntos primera))
        in Hmax.
      change (Some (Est.puntos_min (resumen (grupo_de n items))) = Some (puntos ultima))
        in Hmin.
      apply (inj Some) in Hmax, Hmin. rewrite Hmax, Hmin.
      split; [|split].
      * intros p Hp. rewrite <- (ordenar_perm (grupo_de n items)) in Hp. split.
        -- by apply (desc_last (ordenar (grupo_de n items))); [apply ordenar_desc|..].
        -- by apply (desc_head (ordenar (grupo_de n items))); [apply ordenar_desc|..].
      * exists primera. split; [|done].
        rewrite <- (ordenar_perm (grupo_de n items)). by apply head_Some_elem_of.
      * exists ultima. split; [|done].
        rewrite <- (ordenar_perm (grupo_de n items)).
        apply last_Some in Hultima as [l' ->]. apply elem_of_app. right. left.
    + by apply est_vacio.
  - intros k s (n & Hn & -> & Hne & ->)%est_origen. exists n.
    split; [done|]. split; [done|]. split; [done|].
    rewrite resumen_total. destruct (grupo_de n items); [done|simpl; lia].
Qed.

(** Four words of length 3 that arrive in ascending order of score, and one
    of length 4: the entry of length 3 holds the highest and the lowest of
    the four scores, and there is no entry of length 5. *)
Lemma C4_estadisticas_por_longitud_witness :
  procesarPalabras en_orden_creciente
  = JS.Return (ordenarYLimitarResultados (grupos_de en_orden_creciente))
  ∧ (∃ s, estadisticas (data (ordenarYLimitarResultados (grupos_de en_orden_creciente)))
            !! clave 3 = Some s
          ∧ Est.total s = 4 ∧ Est.mejores s = 4
          ∧ Some (Est.puntos_max s) = Some 4%Z ∧ Some (Est.puntos_min s) = Some 1%Z
          ∧ ∀ p, p ∈ grupo_de 3 en_orden_creciente →
                 (Est.puntos_min s ≤ puntos p ≤ Est.puntos_max s)%Z)
  ∧ estadisticas (data (ordenarYLimitarResultados (grupos_de en_orden_creciente)))
      !! clave 5 = None.
Proof.
  split; [reflexivity|].
  destruct (C4_estadisticas_por_longitud en_orden_creciente _ eq_refl) as [H _].
  split.
  - destruct (H 3 ltac:(lia)) as [H3 _].
    destruct H3 as (s & Hs & Ht & Hm & _ & _ & _ & Hmax & Hmin & Hentre & _);
      [discriminate|].
    exists s. repeat split; try assumption; by apply Hentre.
  - destruct (H 5 ltac:(lia)) as [_ H5]. apply H5. reflexivity.
Defined.

(** C5. For every input the ranking returns a result for (the empty sequence
    included): [palabras] is the concatenation, in length order 3 to 7, of
    the truncated buckets, sorted again as a whole, hence descending by
    score across all lengths and a rearrangement of that concatenation;
    [total] is its length; [total_antes_filtro] is the sum of the buckets'
    counts before truncation. *)
Theorem C5_lista_global (items : list Item) (r : Resultado) :
  procesarPalabras items = JS.Return r →
  let truncados := concat ((λ n, mejores_de n items) <$> [3; 4; 5; 6; 7]) in
  palabras (data r) = ordenar truncados
  ∧ desc (palabras (data r))
  ∧ palabras (data r) ≡ₚ truncados
  ∧ total (data r) = length (palabras (data r))
  ∧ total_antes_filtro (data r)
    = sum_list ((λ n, length (grupo_de n items)) <$> [3; 4; 5; 6; 7]).
Proof.
  intros [_ ->]%procesarPalabras_inv. cbn zeta.
  rewrite palabras_ranking.
  split; [done|]. split; [apply ordenar_desc|]. split; [apply ordenar_perm|].
  split.
  - unfold ordenarYLimitarResultados. cbn [total data].
    by rewrite bucle_palabras.
  - unfold ordenarYLimitarResultados. cbn [total_antes_filtro data].
    by rewrite bucle_total.
Qed.

(** The two words of length 4 score above the two of length 3 and come
    first in the result. *)
Lemma C5_lista_global_witness :
  procesarPalabras rangos_disjuntos = JS.Return (ordenarYLimitarResultados (grupos_de rangos_disjuntos))
  ∧ palabras (data (ordenarYLimitarResultados (grupos_de rangos_disjuntos)))
    = [ {| palabra := "CASA"; puntos := 20 |}; {| palabra := "LUNA"; puntos := 11 |};
        {| palabra := "SOL"; puntos := 5 |}; {| palabra := "MAR"; puntos := 3 |} ]
  ∧ total (data (ordenarYLimitarResultados (grupos_de rangos_disjuntos))) = 4
  ∧ total_antes_filtro (data (ordenarYLimitarResultados (grupos_de rangos_disjuntos))) = 4.
Proof.
  split; [reflexivity|].
  destruct (C5_lista_global rangos_disjuntos _ eq_refl) as (Hp & _ & _ & Ht & Ha).
  split; [exact Hp|]. split; [exact Ht | exact Ha].
Defined.

(** The empty sequence is ranked to the empty result. *)
Example rank_vacio :
  procesarPalabras [] =
  JS.Return {| success := true;
               data := {| palabras := []; total := 0; total_antes_filtro := 0;
                          estadisticas := ∅ |} |}.
Proof. reflexivity. Qed.

(** ** Truncation *)

Lemma desc_take k l : desc l → desc (take k l).
Proof.
  intros H. rewrite <- (take_drop k l) in H. by apply StronglySorted_app_1_l in H.
Qed.

(** With pairwise distinct scores, whatever is cut off scores strictly
    below whatever is kept. *)
Lemma corte_estricto k l p q :
  desc l → NoDup (puntos <$> l) → p ∈ take k l → q ∈ drop k l → (puntos q < puntos p)%Z.
Proof.
  intros Hd Hnd Hp Hq. rewrite <- (take_drop k l) in Hd, Hnd.
  apply StronglySorted_app in Hd as (Hle & _ & _).
  rewrite fmap_app in Hnd. apply NoDup_app in Hnd as (_ & Hdis & _).
  specialize (Hle p q Hp Hq). simpl in Hle.
  assert (puntos p ≠ puntos q); [|lia].
  intros Heq. apply (Hdis (puntos p)).
  - apply list_elem_of_fmap. by exists p.
  - rewrite Heq. apply list_elem_of_fmap. by exists q.
Qed.

Lemma grupo_de_longitud n items : Forall (λ p, String.length (palabra p) = n) (grupo_de n items).
Proof. apply Forall_forall. by intros p [Hp _]%list_elem_of_filter. Qed.

Lemma mejores_de_longitud n items :
  Forall (λ p, String.length (palabra p) = n) (mejores_de n items).
Proof.
  apply Forall_forall. intros p Hp. unfold mejores_de in Hp.
  apply subseteq_take in Hp. rewrite ordenar_perm in Hp.
  by apply (proj1 (Forall_forall _ _) (grupo_de_longitud n items)).
Qed.

Lemma filter_todos {A} (P : A → Prop) `{∀ x, Decision (P x)} (l : list A) :
  Forall P l → filter P l = l.
Proof.
  induction 1 as [|x l Hx _ IH]; [done|].
  by rewrite filter_cons, decide_True, IH.
Qed.

Lemma filter_ninguno {A} (P : A → Prop) `{∀ x, Decision (P x)} (l : list A) :
  Forall (λ x, ¬ P x) l → filter P l = [].
Proof.
  induction 1 as [|x l Hx _ IH]; [done|].
  by rewrite filter_cons, decide_False, IH.
Qed.

Lemma filter_mejores_de n k items :
  filter (λ p, String.length (palabra p) = n) (mejores_de k items) =
  if decide (k = n) then mejores_de k items else [].
Proof.
  case_decide as Hk.
  - subst k. apply filter_todos, mejores_de_longitud.
  - apply filter_ninguno. eapply Forall_impl; [apply mejores_de_longitud|].
    simpl. intros p Hp. congruence.
Qed.

(** The words of length [n] in the final list are the truncated bucket of
    length [n], in the bucket's own sorted order. *)
Lemma filter_ranking n items :
  3 ≤ n ≤ 7 →
  filter (λ p, String.length (palabra p) = n)
         (palabras (data (ordenarYLimitarResultados (grupos_de items))))
  = mejores_de n items.
Proof.
  intros Hn. rewrite palabras_ranking, ordenar_filter.
  assert (filter (λ p, String.length (palabra p) = n)
            (concat ((λ n, mejores_de n items) <$> [3; 4; 5; 6; 7])) = mejores_de n items)
    as ->.
  { csimpl. rewrite !filter_app, !filter_mejores_de, filter_nil.
    repeat case_decide; simplify_eq; try lia; simpl; by rewrite ?app_nil_r. }
  apply ordenar_id, desc_take, ordenar_desc.
Qed.

(** ** Fifteen words of length 4 *)

(** C3, as written, fails: for fifteen words of length 4 scoring 1 to 15,
    the tenth-highest score is 6, but [puntos_min] of [longitud_4] is 1, the
    lowest score of the whole bucket. *)
Lemma C3_puntos_min_counterexample :
  procesarPalabras quince = JS.Return (ordenarYLimitarResultados (grupos_de quince))
  ∧ length (grupo_de 4 quince) = 15
  ∧ NoDup (puntos <$> grupo_de 4 quince)
  ∧ puntos <$> ordenar (grupo_de 4 quince) !! 9 = Some 6%Z
  ∧ estadisticas (data (ordenarYLimitarResultados (grupos_de quince))) !! clave 4
    = Some {| Est.total := 15; Est.mejores := 10;
              Est.puntos_max := 15; Est.puntos_min := 1 |}.
Proof.
  split; [reflexivity|]. split; [reflexivity|].
  split; [by apply (bool_decide_unpack _)|].
  split; reflexivity.
Qed.

(** C3, amended. When the bucket of length 4 holds exactly 15 words with
    pairwise distinct scores, the words of length 4 in the result are the
    first ten of the bucket sorted descending: ten words of the bucket, each
    scoring strictly above every word of the bucket that was dropped; and
    [longitud_4] is [{total: 15, mejores: 10, puntos_max, puntos_min}] with
    [puntos_max] the highest score of the bucket and [puntos_min] the lowest
    score of the whole bucket (the fifteenth-highest), which is strictly
    below the tenth-highest. *)
Theorem C3_quince_de_longitud_4 (items : list Item) (r : Resultado) :
  procesarPalabras items = JS.Return r →
  length (grupo_de 4 items) = 15 →
  NoDup (puntos <$> grupo_de 4 items) →
  let grupo := grupo_de 4 items in
  let conservadas := filter (λ p, String.length (palabra p) = 4) (palabras (data r)) in
  conservadas = take 10 (ordenar grupo)
  ∧ length conservadas = 10
  ∧ conservadas ⊆ grupo
  ∧ (∀ p q, p ∈ conservadas → q ∈ grupo → q ∉ conservadas → (puntos q < puntos p)%Z)
  ∧ ∃ s, estadisticas (data r) !! clave 4 = Some s
         ∧ Est.total s = 15
         ∧ Est.mejores s = 10
         ∧ (∃ p, p ∈ grupo ∧ puntos p = Est.puntos_max s)
         ∧ (∀ q, q ∈ grupo → (puntos q ≤ Est.puntos_max s)%Z)
         ∧ (∃ p, p ∈ grupo ∧ puntos p = Est.puntos_min s)
         ∧ (∀ q, q ∈ grupo → (Est.puntos_min s ≤ puntos q)%Z)
         ∧ (∀ p, conservadas !! 9 = Some p → (Est.puntos_min s < puntos p)%Z).
Proof.
  intros [_ ->]%procesarPalabras_inv Hlen Hnd. cbn zeta.
  assert (grupo_de 4 items ≠ []) as Hne.
  { intros Hnil. by rewrite Hnil in Hlen. }
  pose proof (est_no_vacio items 4 ltac:(lia) Hne) as Hs.
  destruct (lecturas_en_rango _ Hne) as [Hmax Hmin].
  pose proof (resumen_total (grupo_de 4 items)) as Ht.
  pose proof (resumen_mejores (grupo_de 4 items)) as Hm.
  remember (resumen (grupo_de 4 items)) as s eqn:Es. clear Es.
  set (grupo := grupo_de 4 items) in *.
  set (conservadas := filter _ _).
  assert (conservadas = take 10 (ordenar grupo)) as Hcons.
  { unfold conservadas. by rewrite filter_ranking by lia. }
  assert (NoDup (puntos <$> ordenar grupo)) as Hnd'.
  { by rewrite ordenar_perm. }
  assert (length (ordenar grupo) = 15) as Hlen'.
  { by rewrite ordenar_length. }
  split; [done|]. rewrite Hcons. split; [|split; [|split]].
  - rewrite length_take. lia.
  - intros p Hp%subseteq_take. by rewrite ordenar_perm in Hp.
  - intros p q Hp Hq Hnq.
    apply (corte_estricto 10 (ordenar grupo)); [apply ordenar_desc|done..|].
    rewrite <- (ordenar_perm grupo), <- (take_drop 10 (ordenar grupo)) in Hq.
    apply elem_of_app in Hq as [Hq|Hq]; done.
  - destruct (head (ordenar grupo)) as [pmax|] eqn:Hhead; [|done].
    destruct (last (ordenar grupo)) as [pmin|] eqn:Hlast; [|done].
    injection Hmax as Hmax. injection Hmin as Hmin.
    exists s. split; [done|]. split; [lia|]. split.
    { lia. }
    split; [|split; [|split; [|split]]].
    + exists pmax. split; [|done].
      rewrite <- (ordenar_perm grupo). by apply head_Some_elem_of.
    + intros q Hq. rewrite Hmax. apply (desc_head (ordenar grupo));
        [apply ordenar_desc|done|by rewrite ordenar_perm].
    + exists pmin. split; [|done].
      rewrite <- (ordenar_perm grupo). by apply last_Some_elem_of.
    + intros q Hq. rewrite Hmin. apply (desc_last (ordenar grupo));
        [apply ordenar_desc|done|by rewrite ordenar_perm].
    + intros p Hp%list_elem_of_lookup_2. rewrite Hmin.
      apply (corte_estricto 10 (ordenar grupo)); [apply ordenar_desc|done..|].
      rewrite <- (take_drop 10 (ordenar grupo)) in Hlast.
      rewrite last_app in Hlast.
      destruct (last (drop 10 (ordenar grupo))) as [x|] eqn:Hd.
      * injection Hlast as ->. by apply last_Some_elem_of.
      * apply last_None in Hd. apply (f_equal length) in Hd.
        rewrite length_drop in Hd. simpl in Hd. lia.
Qed.

(** The fifteen words scoring 1 to 15. *)
Lemma C3_quince_de_longitud_4_witness :
  procesarPalabras quince = JS.Return (ordenarYLimitarResultados (grupos_de quince))
  ∧ length (grupo_de 4 quince) = 15
  ∧ NoDup (puntos <$> grupo_de 4 quince)
  ∧ filter (λ p, String.length (palabra p) = 4)
           (palabras (data (ordenarYLimitarResultados (grupos_de quince))))
    = take 10 (ordenar (grupo_de 4 quince))
  ∧ ∃ s, estadisticas (data (ordenarYLimitarResultados (grupos_de quince))) !! clave 4
           = Some s
         ∧ Est.total s = 15 ∧ Est.mejores s = 10.
Proof.
  split; [reflexivity|]. split; [reflexivity|].
  assert (NoDup (puntos <$> grupo_de 4 quince)) as Hnd.
  { apply (bool_decide_unpack _). reflexivity. }
  split; [exact Hnd|].
  destruct (C3_quince_de_longitud_4 quince _ eq_refl eq_refl Hnd)
    as (Hc & _ & _ & _ & s & Hs & Ht & Hm & _).
  split; [exact Hc|]. exists s. split; [exact Hs|]. split; [exact Ht|exact Hm].
Defined.

(** ** Ranking again *)

Arguments ordenarYLimitarResultados : simpl never.

Lemma longitud_ranking items p :
  p ∈ palabras (data (ordenarYLimitarResultados (grupos_de items))) →
  3 ≤ String.length (palabra p) ≤ 7.
Proof.
  rewrite palabras_ranking, ordenar_perm. csimpl. rewrite app_nil_r.
  rewrite !elem_of_app.
  pose proof (λ n, proj1 (Forall_forall _ _) (mejores_de_longitud n items) p) as H.
  intros [Hp|[Hp|[Hp|[Hp|Hp]]]]; apply H in Hp; lia.
Qed.

Lemma omap_como_items ps : omap palabra_de (como_items ps) = ps.
Proof.
  induction ps as [|[w pts] ps IH]; csimpl; [done|]. by rewrite IH.
Qed.

Lemma bien_formado_como_items ps :
  Forall (λ p, 3 ≤ String.length (palabra p) ≤ 7) ps →
  forallb bien_formado (como_items ps) = true.
Proof.
  induction 1 as [|p ps Hp _ IH]; csimpl; [done|].
  rewrite IH, andb_true_r. unfold bien_formado. simpl. by apply bool_decide_eq_true.
Qed.

Lemma grupo_de_como_items n ps :
  grupo_de n (como_items ps) = filter (λ p, String.length (palabra p) = n) ps.
Proof. unfold grupo_de. by rewrite omap_como_items. Qed.

Lemma mejores_de_length n items : length (mejores_de n items) ≤ 10.
Proof. unfold mejores_de. rewrite length_take. lia. Qed.

Lemma mejores_de_desc n items : desc (mejores_de n items).
Proof. apply desc_take, ordenar_desc. Qed.

(** Ranking the ranked list: every bucket is the truncated bucket of the
    first ranking, which sorting and truncation leave as it is. *)
Lemma grupo_de_reordenado n items :
  3 ≤ n ≤ 7 →
  grupo_de n (como_items (palabras (data (ordenarYLimitarResultados (grupos_de items)))))
  = mejores_de n items.
Proof. intros Hn. by rewrite grupo_de_como_items, filter_ranking. Qed.

Lemma mejores_de_reordenado n items :
  3 ≤ n ≤ 7 →
  mejores_de n (como_items (palabras (data (ordenarYLimitarResultados (grupos_de items)))))
  = mejores_de n items.
Proof.
  intros Hn. unfold mejores_de at 1. rewrite grupo_de_reordenado by done.
  rewrite ordenar_id by apply mejores_de_desc.
  apply take_ge, mejores_de_length.
Qed.

Lemma resumen_reordenado grupo :
  grupo ≠ [] →
  Est.mejores (resumen (take 10 (ordenar grupo))) = Est.mejores (resumen grupo)
  ∧ Est.total (resumen (take 10 (ordenar grupo))) = Est.mejores (resumen grupo)
  ∧ Est.puntos_max (resumen (take 10 (ordenar grupo))) = Est.puntos_max (resumen grupo).
Proof.
  intros Hne. rewrite resumen_total, !resumen_mejores.
  rewrite take_10_length, ordenar_length.
  split; [lia|]. split; [done|].
  cbn [resumen Est.puntos_max]. unfold puntos_en.
  rewrite (ordenar_id (take 10 _)) by apply desc_take, ordenar_desc.
  by rewrite lookup_take_lt by lia.
Qed.

Lemma total_ranking (g : Grupos) :
  total (data (ordenarYLimitarResultados g))
  = length (palabras (data (ordenarYLimitarResultados g))).
Proof. done. Qed.

Lemma total_antes_ranking items :
  total_antes_filtro (data (ordenarYLimitarResultados (grupos_de items)))
  = sum_list ((λ n, length (grupo_de n items)) <$> [3; 4; 5; 6; 7]).
Proof.
  unfold ordenarYLimitarResultados. cbn [total_antes_filtro data].
  by rewrite bucle_total.
Qed.

(** C6. Ranking is idempotent: ranking the word list of a ranked result
    gives the same words in the same order; the count of words is not
    reduced ([total] is unchanged, and the count before truncation of the
    second ranking is the [total] of the first); for every length, the words
    kept ([mejores]) and the best score are unchanged; and the second result
    is a fixed point of the ranking. *)
Theorem C6_rank_idempotente (items : list Item) (r : Resultado) :
  procesarPalabras items = JS.Return r →
  ∃ r', procesarPalabras (como_items (palabras (data r))) = JS.Return r'
        ∧ palabras (data r') = palabras (data r)
        ∧ total (data r') = total (data r)
        ∧ total_antes_filtro (data r') = total (data r)
        ∧ (∀ n s, estadisticas (data r) !! clave n = Some s →
             ∃ s', estadisticas (data r') !! clave n = Some s'
                   ∧ Est.mejores s' = Est.mejores s
                   ∧ Est.total s' = Est.mejores s
                   ∧ Est.puntos_max s' = Est.puntos_max s)
        ∧ procesarPalabras (como_items (palabras (data r'))) = JS.Return r'.
Proof.
  intros [_ ->]%procesarPalabras_inv.
  set (r := ordenarYLimitarResultados (grupos_de items)).
  set (items' := como_items (palabras (data r))).
  assert (procesarPalabras items' = JS.Return (ordenarYLimitarResultados (grupos_de items')))
    as Hr'.
  { unfold items'. rewrite procesarPalabras_spec, bien_formado_como_items; [done|].
    apply Forall_forall. intros p. apply longitud_ranking. }
  assert (palabras (data (ordenarYLimitarResultados (grupos_de items'))) = palabras (data r))
    as Hpal.
  { unfold r. rewrite !palabras_ranking. csimpl.
    unfold items', r. by rewrite !mejores_de_reordenado by lia. }
  exists (ordenarYLimitarResultados (grupos_de items')).
  split; [done|]. split; [done|]. subst r items'.
  split; [|split; [|split]].
  - by rewrite !total_ranking, Hpal.
  - rewrite total_antes_ranking, total_ranking.
    cbn [fmap list_fmap sum_list sum_list_with].
    rewrite !grupo_de_reordenado by lia.
    rewrite palabras_ranking, ordenar_length. csimpl.
    rewrite !length_app. simpl. lia.
  - intros n s (n' & Hn & Heq%clave_inj & Hne & ->)%est_origen. subst n'.
    exists (resumen (mejores_de n items)).
    split; [|by apply resumen_reordenado].
    rewrite <- (grupo_de_reordenado n items) by done. apply est_no_vacio; [done|].
    rewrite grupo_de_reordenado by done. unfold mejores_de.
    intros Hnil%(f_equal length). rewrite take_10_length, ordenar_length in Hnil.
    destruct (grupo_de n items); [done|simpl in Hnil; lia].
  - by rewrite Hpal.
Qed.

(** Fifteen words of length 4 and two tied words of length 3, ranked
    twice. *)
Lemma C6_rank_idempotente_witness :
  procesarPalabras quince_y_empates = JS.Return (ordenarYLimitarResultados (grupos_de quince_y_empates))
  ∧ ∃ r', procesarPalabras
            (como_items (palabras (data (ordenarYLimitarResultados (grupos_de quince_y_empates)))))
          = JS.Return r'
          ∧ palabras (data r')
            = palabras (data (ordenarYLimitarResultados (grupos_de quince_y_empates)))
          ∧ total (data r') = 12.
Proof.
  split; [reflexivity|].
  destruct (C6_rank_idempotente quince_y_empates _ eq_refl) as (r' & Hr' & Hp & Ht & _).
  exists r'. split; [exact Hr'|]. split; [exact Hp|exact Ht].
Defined.

(** ** Words whose length is outside 3..7 *)

(** C1, as written, fails: on the candidates [{A:5},{AB:7},{AAA:3},{AAA:9}]
    the ranking throws at the first item (the groups have no property [1])
    and returns no result. *)
Lemma C1_fuera_de_rango_counterexample :
  procesarPalabras con_palabras_cortas = JS.Throw JS.TypeError
  ∧ ¬ ∃ r, procesarPalabras con_palabras_cortas = JS.Return r.
Proof.
  split; [reflexivity|]. intros [r Hr]. discriminate Hr.
Qed.

Lemma bien_formado_spec item :
  bien_formado item = true ↔
  ∃ w pts resto, item = (w, pts) :: resto ∧ 3 ≤ String.length w ≤ 7.
Proof.
  unfold bien_formado. destruct item as [|[w pts] resto]; simpl.
  - split; [done|]. by intros (? & ? & ? & ? & _).
  - rewrite bool_decide_eq_true. split.
    + intros H. by exists w, pts, resto.
    + by intros (? & ? & ? & [= -> _ _] & H).
Qed.

Lemma origen_ranking items p :
  p ∈ palabras (data (ordenarYLimitarResultados (grupos_de items))) →
  ∃ item, item ∈ items ∧ palabra_de item = Some p.
Proof.
  rewrite palabras_ranking, ordenar_perm. csimpl. rewrite app_nil_r, !elem_of_app.
  assert (∀ n, p ∈ mejores_de n items → ∃ item, item ∈ items ∧ palabra_de item = Some p)
    as H.
  { intros n Hp. unfold mejores_de in Hp.
    apply subseteq_take in Hp. rewrite ordenar_perm in Hp.
    apply list_elem_of_filter in Hp as [_ Hp].
    apply list_elem_of_omap in Hp as (item & Hitem & Hp). by exists item. }
  intros [Hp|[Hp|[Hp|[Hp|Hp]]]]; by apply H in Hp.
Qed.

Lemma forallb_bien_formado items :
  forallb bien_formado items = true ↔ Forall (λ item, bien_formado item = true) items.
Proof.
  induction items as [|item items IH]; simpl.
  - split; [constructor|done].
  - rewrite andb_true_iff, Forall_cons, IH. done.
Qed.

(** C1, amended. When every candidate has a word of length 3 to 7, the
    ranking returns a result, and the result contains only words of lengths
    3 to 7, each the word of a candidate.  A candidate whose word has a
    length outside 3..7 is not dropped: the ranking throws a [TypeError] and
    returns no result. *)
Theorem C1_longitudes_3_a_7 (items : list Item) :
  (Forall (λ item, bien_formado item = true) items →
     ∃ r, procesarPalabras items = JS.Return r
          ∧ (∀ p, p ∈ palabras (data r) → 3 ≤ String.length (palabra p) ≤ 7)
          ∧ (∀ p, p ∈ palabras (data r) → ∃ item, item ∈ items ∧ palabra_de item = Some p))
  ∧ (Exists (λ item, bien_formado item = false) items →
     procesarPalabras items = JS.Throw JS.TypeError).
Proof.
  rewrite procesarPalabras_spec. split.
  - intros Hok%forallb_bien_formado. rewrite Hok.
    exists (ordenarYLimitarResultados (grupos_de items)).
    split; [done|]. split; [apply longitud_ranking|apply origen_ranking].
  - intros Hex. destruct (forallb bien_formado items) eqn:Hok; [|done].
    apply forallb_bien_formado in Hok. apply Exists_exists in Hex as (item & Hin & Hbad).
    rewrite Forall_forall in Hok. specialize (Hok item Hin). congruence.
Qed.

(** Without the two short words, the candidates of the example are ranked
    to [AAA:9, AAA:3]. *)
Lemma C1_longitudes_3_a_7_witness :
  Forall (λ item, bien_formado item = true) [ [("AAA", 3%Z)]; [("AAA", 9%Z)] ]
  ∧ ∃ r, procesarPalabras [ [("AAA", 3%Z)]; [("AAA", 9%Z)] ] = JS.Return r
         ∧ (∀ p, p ∈ palabras (data r) → 3 ≤ String.length (palabra p) ≤ 7)
         ∧ palabras (data r) = [ {| palabra := "AAA"; puntos := 9 |};
                                 {| palabra := "AAA"; puntos := 3 |} ]
         ∧ estadisticas (data r) !! "longitud_3"
           = Some {| Est.total := 2; Est.mejores := 2;
                     Est.puntos_max := 9; Est.puntos_min := 3 |}.
Proof.
  assert (Forall (λ item, bien_formado item = true) [ [("AAA", 3%Z)]; [("AAA", 9%Z)] ])
    as Hok.
  { repeat constructor. }
  split; [exact Hok|].
  destruct (C1_longitudes_3_a_7 [ [("AAA", 3%Z)]; [("AAA", 9%Z)] ]) as [H _].
  destruct (H Hok) as (r & Hr & Hlen & _).
  exists r. split; [exact Hr|]. split; [exact Hlen|].
  assert (r = ordenarYLimitarResultados (grupos_de [ [("AAA", 3%Z)]; [("AAA", 9%Z)] ]))
    as ->.
  { symmetry. apply (f_equal (λ c, match c with JS.Return x => x | JS.Throw _ => r end)) in Hr.
    exact Hr. }
  split; reflexivity.
Defined.

Example rank_AAA :
  procesarPalabras [ [("AAA", 3%Z)]; [("AAA", 9%Z)] ] =
  JS.Return
    {| success := true;
       data := {| palabras := [ {| palabra := "AAA"; puntos := 9 |};
                                {| palabra := "AAA"; puntos := 3 |} ];
                  total := 2;
                  total_antes_filtro := 2;
                  estadisticas :=
                    {[ "longitud_3" := {| Est.total := 2; Est.mejores := 2;
                                          Est.puntos_max := 9; Est.puntos_min := 3 |} ]} |} |}.
Proof. reflexivity. Qed.

(** ** Validation *)

Lemma es_array_de_spec n v :
  es_array_de n v = true ↔ ∃ elems, v = JS.Array elems ∧ length elems = n.
Proof.
  destruct v; simpl; try (split; [done|by intros (? & ? & _)]).
  rewrite bool_decide_eq_true. split.
  - intros H. by eexists.
  - by intros (? & [= <-] & H).
Qed.

Lemma validarFilas_spec i filas :
  match validarFilas i filas with
  | JS.Return _ =>
      ∀ j fila, filas !! j = Some fila →
        ∃ elems, fila = JS.Array elems ∧ length elems = i + j + 3
  | JS.Throw e =>
      (∃ m, e = JS.Error m)
      ∧ ¬ ∀ j fila, filas !! j = Some fila →
            ∃ elems, fila = JS.Array elems ∧ length elems = i + j + 3
  end.
Proof.
  revert i. induction filas as [|fila filas IH]; intros i; simpl.
  - by intros j fila.
  - destruct (es_array_de (i + 3) fila) eqn:Hfila; simpl.
    + apply es_array_de_spec in Hfila as (elems & -> & Hlen).
      specialize (IH (S i)). destruct (validarFilas (S i) filas) as [[]|e].
      * intros [|j] fila' Hj; simpl in Hj.
        -- injection Hj as <-. exists elems. split; [done|lia].
        -- destruct (IH j fila' Hj) as (elems' & -> & Hlen').
           exists elems'. split; [done|lia].
      * destruct IH as [He Hno]. split; [done|].
        intros Hall. apply Hno. intros j fila' Hj.
        destruct (Hall (S j) fila' Hj) as (elems' & -> & Hlen').
        exists elems'. split; [done|lia].
    + split; [by eexists|].
      intros Hall. destruct (Hall 0 fila eq_refl) as (elems & -> & Hlen).
      assert (es_array_de (i + 3) (JS.Array elems) = true) as Hok; [|congruence].
      apply es_array_de_spec. exists elems. split; [done|lia].
Qed.

(** Validation either returns or throws an [Error]; it returns exactly on
    the valid shapes, a NaN round apart. *)
Lemma validarParametros_spec letras tabla ronda :
  ronda ≠ JS.Number JS.NaN →
  match validarParametros letras tabla ronda with
  | JS.Return _ => letras_validas letras ∧ tabla_valida tabla ∧ ronda_numero_1_5 ronda
  | JS.Throw e =>
      (∃ m, e = JS.Error m)
      ∧ ¬ (letras_validas letras ∧ tabla_valida tabla ∧ ronda_numero_1_5 ronda)
  end.
Proof.
  intros Hnan. unfold validarParametros.
  destruct (es_array_de 7 letras) eqn:Hl; simpl.
  2:{ split; [by eexists|]. intros [Hv _]. apply es_array_de_spec in Hv. congruence. }
  destruct (es_array_de 5 tabla) eqn:Ht; simpl.
  2:{ split; [by eexists|]. intros (_ & (filas & -> & Hlen & _) & _).
      simpl in Ht. by rewrite bool_decide_true in Ht. }
  apply es_array_de_spec in Hl. apply es_array_de_spec in Ht as (filas & -> & Hlen).
  pose proof (validarFilas_spec 0 filas) as Hf.
  destruct (validarFilas 0 filas) as [[]|e]; simpl.
  2:{ destruct Hf as [He Hno]. split; [done|].
      intros (_ & (filas' & [= <-] & _ & Hfilas) & _). by apply Hno. }
  assert (tabla_valida (JS.Array filas)) as Htabla.
  { exists filas. by repeat split. }
  destruct ronda as [| |b|n|s|elems|props];
    try (split; [by eexists|]; by intros (_ & _ & (? & ? & _))).
  destruct n as [|q| |]; [done| |by split; [eexists|intros (_ & _ & (? & ? & _))]..].
  unfold JS.lt, JS.of_nat.
  change (inject_Z (Z.of_nat 1)) with 1%Q. change (inject_Z (Z.of_nat 5)) with 5%Q.
  destruct (Qle_bool 1 q) eqn:H1; destruct (Qle_bool q 5) eqn:H5; simpl;
    try (split; [by eexists|]; intros (_ & _ & (q' & [= <-] & Hq1 & Hq5));
         apply (proj2 (Qle_bool_iff _ _)) in Hq1, Hq5; simpl in *; congruence).
  repeat split; try done. exists q. apply Qle_bool_iff in H1, H5. done.
Qed.

(** C2, as written, fails: with seven letters and a bonus table of the
    right shape, the round 2.5 is not an integer in [1,5], and validation
    succeeds. *)
Lemma C2_ronda_fraccionaria_counterexample :
  letras_validas (JS.Array (JS.Str <$> letras_ejemplo))
  ∧ tabla_valida tabla_ejemplo
  ∧ ¬ ronda_entera_1_5 (JS.Number (JS.Finite (5 # 2)))
  ∧ validarParametros (JS.Array (JS.Str <$> letras_ejemplo)) tabla_ejemplo
      (JS.Number (JS.Finite (5 # 2))) = JS.Return ().
Proof.
  split; [by eexists|]. split.
  { eexists. split; [done|]. split; [done|].
    intros i fila Hi. do 5 (destruct i as [|i]; [injection Hi as <-; by eexists|]).
    done. }
  split; [|reflexivity].
  intros (q & z & [= <-] & Hq & _). unfold Qeq in Hq. simpl in Hq. lia.
Qed.

(** A failed validation ends the search before any request. *)
Lemma buscarPalabras_invalido h fetch letras tabla ronda apiUrl e :
  validarParametros letras tabla ronda = JS.Throw e →
  buscarPalabras h fetch letras tabla ronda apiUrl = (JS.Throw e, []).
Proof. intros H. unfold buscarPalabras. by rewrite H. Qed.

Lemma normalizar_letras h ls :
  normalizar h (JS.Str <$> ls) = JS.Return (toUpperCase h <$> ls).
Proof.
  induction ls as [|l ls IH]; csimpl; [done|]. by rewrite IH.
Qed.

(** After a successful validation of letters that are strings, exactly one
    request is issued, for the upper-cased letters. *)
Lemma buscarPalabras_valido h fetch ls tabla n apiUrl :
  validarParametros (JS.Array (JS.Str <$> ls)) tabla (JS.Number n) = JS.Return () →
  ∃ res, buscarPalabras h fetch (JS.Array (JS.Str <$> ls)) tabla (JS.Number n) apiUrl
         = (res, [url_consulta h (toUpperCase h <$> ls) tabla n apiUrl]).
Proof.
  intros H. unfold buscarPalabras. rewrite H. cbn [sin_red luego].
  rewrite normalizar_letras. cbn [luego].
  unfold obtenerPalabrasAPI.
  destruct (fetch _) as [| |[] m [ps|]]; cbn [luego mret JS.completion_ret];
    by eexists.
Qed.

(** C2, amended. For a round that is not NaN, validation fails, with an
    [Error], exactly when the letters are not an array of exactly 7 elements,
    or the bonus table is not an array of exactly 5 rows, or some row [i] is
    not an array of exactly [i + 3] elements, or the round is not a number or
    is a number below 1 or above 5 (a fractional round between 1 and 5 is
    accepted).  For invalid input no request is issued; after a successful
    validation of letters that are strings, the one request issued carries
    the upper-cased letters. *)
Theorem C2_validarParametros (h : Host) (fetch : string → RespuestaAPI)
    (letras tabla ronda : JS.value) (apiUrl : string) :
  ronda ≠ JS.Number JS.NaN →
  ((∃ m, validarParametros letras tabla ronda = JS.Throw (JS.Error m))
     ↔ ¬ (letras_validas letras ∧ tabla_valida tabla ∧ ronda_numero_1_5 ronda))
  ∧ (validarParametros letras tabla ronda = JS.Return ()
     ↔ letras_validas letras ∧ tabla_valida tabla ∧ ronda_numero_1_5 ronda)
  ∧ (∀ e, validarParametros letras tabla ronda = JS.Throw e →
       buscarPalabras h fetch letras tabla ronda apiUrl = (JS.Throw e, []))
  ∧ (validarParametros letras tabla ronda = JS.Return () →
     ∀ ls, letras = JS.Array (JS.Str <$> ls) →
       ∃ n res, ronda = JS.Number n
                ∧ buscarPalabras h fetch letras tabla ronda apiUrl
                  = (res, [url_consulta h (toUpperCase h <$> ls) tabla n apiUrl])).
Proof.
  intros Hnan. pose proof (validarParametros_spec letras tabla ronda Hnan) as Hspec.
  split; [|split; [|split]].
  - destruct (validarParametros letras tabla ronda) as [[]|e].
    + split; [by intros [m Hm]|]. by intros Hno.
    + destruct Hspec as [[m ->] Hno]. split; [done|]. intros _. by exists m.
  - destruct (validarParametros letras tabla ronda) as [[]|e].
    + done.
    + destruct Hspec as [_ Hno]. split; [done|]. intros Hv. by destruct Hno.
  - intros e He. by apply buscarPalabras_invalido.
  - intros Hok ls ->. rewrite Hok in Hspec. destruct Hspec as (_ & _ & (q & -> & _)).
    exists (JS.Finite q). destruct (buscarPalabras_valido h fetch ls tabla (JS.Finite q) apiUrl Hok)
      as [res Hres].
    by exists res.
Qed.

(** Seven lower-case letters, a table of the right shape and round 3: one
    request, with the letters in upper case. *)
Lemma C2_validarParametros_witness :
  JS.Number (JS.Finite 3) ≠ JS.Number JS.NaN
  ∧ validarParametros (JS.Array (JS.Str <$> letras_ejemplo)) tabla_ejemplo
      (JS.Number (JS.Finite 3)) = JS.Return ()
  ∧ ∃ res, buscarPalabras host_ejemplo fetch_ejemplo
             (JS.Array (JS.Str <$> letras_ejemplo)) tabla_ejemplo
             (JS.Number (JS.Finite 3)) "/api/bpwordzee"
           = (res, ["/api/bpwordzee?letras=C,A,S,E,R,O,N&puntos_extra=[...]&ronda=3"]).
Proof.
  assert (JS.Number (JS.Finite 3) ≠ JS.Number JS.NaN) as Hnan by discriminate.
  split; [exact Hnan|]. split; [reflexivity|].
  destruct (C2_validarParametros host_ejemplo fetch_ejemplo
              (JS.Array (JS.Str <$> letras_ejemplo)) tabla_ejemplo
              (JS.Number (JS.Finite 3)) "/api/bpwordzee" Hnan) as (_ & _ & _ & H).
  destruct (H eq_refl letras_ejemplo eq_refl) as (n & res & Hn & Hres).
  injection Hn as <-. exists res. exact Hres.
Defined.

(** ** The service worker: requests to the API *)

#[local] Arguments String.append !_ _ / : simpl nomatch.

Lemma prefix_spec p s : String.prefix p s = true ↔ ∃ b, s = p +:+ b.
Proof.
  revert s. induction p as [|c p IH]; intros s.
  - split; [by exists s|]. by destruct s.
  - destruct s as [|d s]; simpl.
    + split; [done|]. by intros [b Hb].
    + destruct (Ascii.ascii_dec c d) as [->|Hcd].
      * rewrite IH. split; intros [b Hb]; exists b; congruence.
      * split; [done|]. intros [b [= -> _]]. done.
Qed.

(** [includes] finds the needle at some position. *)
Lemma includes_spec needle s :
  JS.includes needle s = true ↔ ∃ a b, s = a +:+ needle +:+ b.
Proof.
  induction s as [|c s IH].
  - change (JS.includes needle "") with (String.prefix needle "" || false).
    rewrite orb_false_r, prefix_spec. split.
    + intros [b Hb]. by exists "", b.
    + intros (a & b & Hab). destruct a as [|? a]; [by exists b|done].
  - change (JS.includes needle (String c s))
      with (String.prefix needle (String c s) || JS.includes needle s).
    rewrite orb_true_iff, prefix_spec, IH. split.
    + intros [[b Hb]|(a & b & Hab)].
      * by exists "", b.
      * exists (String c a), b. simpl. by rewrite Hab.
    + intros (a & b & Hab). destruct a as [|d a].
      * left. by exists b.
      * right. exists a, b. simpl in Hab. congruence.
Qed.

(** C7. For a request whose path contains [/api/] or whose host name
    contains [api.], the worker issues exactly one network fetch whatever
    the caches hold, answers with the network's response when there is one,
    and leaves the caches and the pending work as they were; when the fetch
    fails, the caller gets no error but a response with status 200 whose
    body is the JSON text of [{success: false, mensaje}] with a non-empty
    [mensaje]. *)
Theorem C7_api_siempre_a_la_red (version location_origin : string) (red : SW.Red)
    (st : SW.Estado) (request : SW.Request) :
  (∃ a b, SW.pathname request = a +:+ "/api/" +:+ b)
  ∨ (∃ a b, SW.hostname request = a +:+ "api." +:+ b) →
  let s := SW.on_fetch version location_origin red st request in
  SW.peticiones s = [SW.href request]
  ∧ SW.estado s = st
  ∧ (∀ response, red (SW.href request) = Some response → SW.respuesta s = Some response)
  ∧ (red (SW.href request) = None →
     ∃ response mensaje,
       SW.respuesta s = Some response
       ∧ SW.status response = 200
       ∧ SW.json response
         = JS.Return (JS.Object [("success", JS.Boolean false); ("mensaje", JS.Str mensaje)])
       ∧ mensaje ≠ "").
Proof.
  intros Hapi. assert (SW.es_api request = true) as Hes.
  { unfold SW.es_api. rewrite orb_true_iff, !includes_spec. done. }
  cbn zeta. unfold SW.on_fetch. rewrite Hes.
  destruct (red (SW.href request)) as [response|]; cbn.
  - split; [done|]. split; [done|]. split; [done|]. by intros [=].
  - split; [done|]. split; [done|]. split; [by intros ? [=]|]. intros _.
    eexists _, _. split; [done|]. split; [done|]. split; [done|]. done.
Qed.

(** A request to [/api/bpwordzee] while the network is down. *)
Lemma C7_api_siempre_a_la_red_witness :
  ((∃ a b, SW.pathname peticion_api = a +:+ "/api/" +:+ b)
   ∨ (∃ a b, SW.hostname peticion_api = a +:+ "api." +:+ b))
  ∧ SW.peticiones (SW.on_fetch SW.VERSION origen_ejemplo sin_red_alguna estado_inicial
                     peticion_api)
    = [SW.href peticion_api]
  ∧ ∃ response,
      SW.respuesta (SW.on_fetch SW.VERSION origen_ejemplo sin_red_alguna estado_inicial
                      peticion_api)
      = Some response
      ∧ SW.status response = 200.
Proof.
  assert ((∃ a b, SW.pathname peticion_api = a +:+ "/api/" +:+ b)
          ∨ (∃ a b, SW.hostname peticion_api = a +:+ "api." +:+ b)) as Hapi.
  { left. exists "", "bpwordzee". reflexivity. }
  split; [exact Hapi|].
  destruct (C7_api_siempre_a_la_red SW.VERSION origen_ejemplo sin_red_alguna estado_inicial
              peticion_api Hapi) as (Hp & _ & _ & Hoff).
  split; [exact Hp|].
  destruct (Hoff eq_refl) as (response & mensaje & Hr & Hs & _).
  exists response. split; [exact Hr|exact Hs].
Defined.

(** ** The service worker: cross-origin requests *)

Lemma caches_match_app cs cs' url :
  SW.caches_match (cs ++ cs') url =
  match SW.caches_match cs url with
  | Some r => Some r
  | None => SW.caches_match cs' url
  end.
Proof.
  induction cs as [|[k cache] cs IH]; simpl; [done|].
  by destruct (cache !! url).
Qed.

(** A stored entry is found by [caches.match] when no cache holds the URL
    yet. *)
Lemma caches_match_put name url r cs :
  SW.caches_match cs url = None →
  name ∈ SW.caches_keys cs →
  SW.caches_match (SW.cache_put name url r cs) url = Some r.
Proof.
  induction cs as [|[k cache] cs IH]; csimpl; intros Hnone Hin.
  - by apply elem_of_nil in Hin.
  - destruct (cache !! url) eqn:Hc; [done|].
    case_bool_decide as Hk; simpl.
    + by rewrite lookup_insert_eq.
    + rewrite Hc. apply IH; [done|].
      apply elem_of_cons in Hin as [->|Hin]; done.
Qed.

Lemma caches_open_keys name cs : name ∈ SW.caches_keys (SW.caches_open name cs).
Proof.
  unfold SW.caches_open. case_bool_decide as Hin; [done|].
  unfold SW.caches_keys. rewrite fmap_app. apply elem_of_app. right. left.
Qed.

Lemma caches_match_open name cs url :
  SW.caches_match (SW.caches_open name cs) url = SW.caches_match cs url.
Proof.
  unfold SW.caches_open. case_bool_decide; [done|].
  rewrite caches_match_app. by destruct (SW.caches_match cs url).
Qed.

Lemma caches_match_ejecutar_nuevo cs name url r :
  SW.caches_match cs url = None →
  SW.caches_match (SW.ejecutar cs (SW.AbrirYGuardar name url r)) url = Some r.
Proof.
  intros Hnone. simpl. apply caches_match_put.
  - by rewrite caches_match_open.
  - apply caches_open_keys.
Qed.

(** Storing never removes an entry: a URL that some cache holds is still
    held after a put. *)
Lemma caches_match_put_conserva name url' r cs url :
  is_Some (SW.caches_match cs url) →
  is_Some (SW.caches_match (SW.cache_put name url' r cs) url).
Proof.
  induction cs as [|[k cache] cs IH]; csimpl; [done|].
  intros Hs. case_bool_decide as Hk; simpl.
  - destruct (decide (url' = url)) as [->|Hne].
    + by rewrite lookup_insert_eq.
    + by rewrite lookup_insert_ne.
  - destruct (cache !! url); [done|]. by apply IH.
Qed.

Lemma caches_match_ejecutar cs name url r :
  is_Some (SW.caches_match (SW.ejecutar cs (SW.AbrirYGuardar name url r)) url).
Proof.
  destruct (SW.caches_match cs url) eqn:Hm.
  - simpl. apply caches_match_put_conserva. rewrite caches_match_open, Hm. by eexists.
  - rewrite caches_match_ejecutar_nuevo by done. by eexists.
Qed.

Lemma asentar_diferir t st :
  SW.caches (SW.asentar (SW.diferir t st))
  = SW.ejecutar (foldl SW.ejecutar (SW.caches st) (SW.pendientes st)) t.
Proof. unfold SW.asentar, SW.diferir. simpl. by rewrite foldl_app. Qed.

Lemma on_fetch_externo_acierto version location_origin red st request cached :
  SW.es_api request = false →
  SW.origin request ≠ location_origin →
  SW.caches_match (SW.caches st) (SW.href request) = Some cached →
  SW.on_fetch version location_origin red st request
  = {| SW.respuesta := Some cached; SW.peticiones := []; SW.estado := st |}.
Proof.
  intros Hapi Horigin Hc. unfold SW.on_fetch.
  by rewrite Hapi, (bool_decide_true _ Horigin), Hc.
Qed.

Lemma on_fetch_externo_fallo version location_origin red st request :
  SW.es_api request = false →
  SW.origin request ≠ location_origin →
  SW.caches_match (SW.caches st) (SW.href request) = None →
  SW.on_fetch version location_origin red st request
  = match red (SW.href request) with
    | Some response =>
        {| SW.respuesta := Some response;
           SW.peticiones := [SW.href request];
           SW.estado :=
             if bool_decide (SW.status response = 200) then
               SW.diferir (SW.AbrirYGuardar (SW.CACHE_NAME_EXTERNAL version)
                             (SW.href request) response) st
             else st |}
    | None =>
        {| SW.respuesta := None; SW.peticiones := [SW.href request]; SW.estado := st |}
    end.
Proof.
  intros Hapi Horigin Hc. unfold SW.on_fetch.
  by rewrite Hapi, (bool_decide_true _ Horigin), Hc.
Qed.

(** C8, as written, fails: when the response to a cross-origin request that
    was not cached comes back with status 200, it is returned while no cache
    holds a copy yet; the store is pending work the handler does not wait
    for. *)
Lemma C8_copia_pendiente_counterexample :
  SW.es_api peticion_cdn = false
  ∧ SW.origin peticion_cdn ≠ origen_ejemplo
  ∧ SW.respuesta (SW.on_fetch SW.VERSION origen_ejemplo red_200 estado_inicial peticion_cdn)
    = Some respuesta_200
  ∧ SW.status respuesta_200 = 200
  ∧ SW.caches_match
      (SW.caches
         (SW.estado (SW.on_fetch SW.VERSION origen_ejemplo red_200 estado_inicial
                       peticion_cdn)))
      (SW.href peticion_cdn) = None
  ∧ SW.pendientes
      (SW.estado (SW.on_fetch SW.VERSION origen_ejemplo red_200 estado_inicial peticion_cdn))
    = [SW.AbrirYGuardar (SW.CACHE_NAME_EXTERNAL SW.VERSION) (SW.href peticion_cdn)
         respuesta_200].
Proof.
  split; [reflexivity|]. split; [by apply (bool_decide_unpack _)|].
  repeat split; reflexivity.
Qed.

(** C8, amended. For a request that is not to the API and whose origin is
    not the worker's: an entry found in the caches is served with no network
    fetch; otherwise exactly one network fetch is issued and its outcome is
    what the caller gets, the caches being unchanged at that moment; if and
    only if the response has status 200, the store of a copy in the external
    cache is started, without the handler waiting for it, and once the
    pending work has run a subsequent identical request is served from the
    caches with no network fetch (with that very response when nothing else
    was pending); a response with another status, or a failed fetch, leaves
    the state as it was. *)
Theorem C8_externos_cache_primero (version location_origin : string) (red : SW.Red)
    (st : SW.Estado) (request : SW.Request) :
  SW.es_api request = false →
  SW.origin request ≠ location_origin →
  let s := SW.on_fetch version location_origin red st request in
  (∀ cached, SW.caches_match (SW.caches st) (SW.href request) = Some cached →
     SW.respuesta s = Some cached ∧ SW.peticiones s = [] ∧ SW.estado s = st)
  ∧ (SW.caches_match (SW.caches st) (SW.href request) = None →
     SW.peticiones s = [SW.href request]
     ∧ SW.respuesta s = red (SW.href request)
     ∧ SW.caches (SW.estado s) = SW.caches st
     ∧ (∀ response, red (SW.href request) = Some response → SW.status response = 200 →
          SW.pendientes (SW.estado s)
          = SW.pendientes st
              ++ [SW.AbrirYGuardar (SW.CACHE_NAME_EXTERNAL version) (SW.href request) response]
          ∧ ∀ red',
              let s' := SW.on_fetch version location_origin red' (SW.asentar (SW.estado s))
                          request in
              SW.peticiones s' = []
              ∧ is_Some (SW.respuesta s')
              ∧ (SW.pendientes st = [] → SW.respuesta s' = Some response))
     ∧ (∀ response, red (SW.href request) = Some response → SW.status response ≠ 200 →
          SW.estado s = st)
     ∧ (red (SW.href request) = None → SW.estado s = st)).
Proof.
  intros Hapi Horigin. cbn zeta. split.
  - intros cached Hc.
    by rewrite (on_fetch_externo_acierto _ _ _ _ _ cached Hapi Horigin Hc).
  - intros Hnone. rewrite (on_fetch_externo_fallo _ _ _ _ _ Hapi Horigin Hnone).
    destruct (red (SW.href request)) as [response|] eqn:Hred;
      cbn [SW.peticiones SW.respuesta SW.estado].
    + split; [done|]. split; [done|]. split; [by case_bool_decide|].
      split; [|split; [|done]].
      * intros ? [= <-] H200. rewrite (bool_decide_true _ H200).
        split; [done|]. intros red'.
        destruct (caches_match_ejecutar (foldl SW.ejecutar (SW.caches st) (SW.pendientes st))
                    (SW.CACHE_NAME_EXTERNAL version) (SW.href request) response)
          as [cached Hcached].
        rewrite <- asentar_diferir in Hcached.
        rewrite (on_fetch_externo_acierto _ _ _ _ _ cached Hapi Horigin Hcached).
        cbn [SW.peticiones SW.respuesta].
        split; [done|]. split; [by eexists|].
        intros Hpend. rewrite asentar_diferir, Hpend in Hcached. cbn [foldl] in Hcached.
        rewrite caches_match_ejecutar_nuevo in Hcached by done. done.
      * intros ? [= <-] Hno. by rewrite (bool_decide_false _ Hno).
    + repeat split; try done.
Qed.

(** A style sheet of the CDN fetched once, then served from the cache while
    the network is down. *)
Lemma C8_externos_cache_primero_witness :
  SW.es_api peticion_cdn = false
  ∧ SW.origin peticion_cdn ≠ origen_ejemplo
  ∧ SW.peticiones (SW.on_fetch SW.VERSION origen_ejemplo red_200 estado_inicial peticion_cdn)
    = [SW.href peticion_cdn]
  ∧ SW.peticiones
      (SW.on_fetch SW.VERSION origen_ejemplo sin_red_alguna
         (SW.asentar
            (SW.estado (SW.on_fetch SW.VERSION origen_ejemplo red_200 estado_inicial
                          peticion_cdn)))
         peticion_cdn)
    = []
  ∧ SW.respuesta
      (SW.on_fetch SW.VERSION origen_ejemplo sin_red_alguna
         (SW.asentar
            (SW.estado (SW.on_fetch SW.VERSION origen_ejemplo red_200 estado_inicial
                          peticion_cdn)))
         peticion_cdn)
    = Some respuesta_200.
Proof.
  assert (SW.origin peticion_cdn ≠ origen_ejemplo) as Horigin by discriminate.
  split; [reflexivity|]. split; [exact Horigin|].
  destruct (C8_externos_cache_primero SW.VERSION origen_ejemplo red_200 estado_inicial
              peticion_cdn eq_refl Horigin) as [_ H].
  destruct (H eq_refl) as (Hp & _ & _ & H200 & _).
  split; [exact Hp|].
  destruct (H200 respuesta_200 eq_refl eq_refl) as [_ Hdespues].
  destruct (Hdespues sin_red_alguna) as (Hp' & _ & Hr').
  split; [exact Hp'|exact (Hr' eq_refl)].
Defined.

(** ** The service worker: activation and installation *)

Lemma filter_equiv {A} (P Q : A → Prop) `{∀ x, Decision (P x)} `{∀ x, Decision (Q x)}
    (l : list A) :
  (∀ x, x ∈ l → P x ↔ Q x) → filter P l = filter Q l.
Proof.
  induction l as [|x l IH]; intros HPQ; [done|].
  rewrite !filter_cons, IH by (intros y Hy; apply HPQ; by right).
  destruct (decide (P x)) as [HP|HP], (decide (Q x)) as [HQ|HQ]; try done.
  - apply HPQ in HP; [done|left].
  - apply HPQ in HQ; [done|left].
Qed.

Lemma foldl_caches_delete (names : list string) (cs : SW.CacheStorage) :
  foldl (λ cs key, SW.caches_delete key cs) cs names
  = filter (λ kc, kc.1 ∉ names) cs.
Proof.
  revert cs. induction names as [|name names IH]; intros cs; simpl.
  - symmetry. apply filter_todos. apply Forall_forall. intros kc _. apply not_elem_of_nil.
  - rewrite IH. unfold SW.caches_delete.
    induction cs as [|kc cs IHcs]; [done|].
    rewrite !filter_cons. destruct (decide (kc.1 ≠ name)) as [Hne|Heq].
    + rewrite filter_cons, IHcs.
      destruct (decide (kc.1 ∉ names)), (decide (kc.1 ∉ name :: names)); try done.
      * rewrite not_elem_of_cons in *. tauto.
      * rewrite not_elem_of_cons in *. tauto.
    + rewrite IHcs. rewrite decide_False; [done|].
      intros Hnot. apply Heq. intros Hname. apply Hnot. rewrite Hname. left.
Qed.

(** Activation keeps exactly the caches named after the current version, in
    their order and with their content. *)
Lemma on_activate_caches version st :
  SW.caches (SW.on_activate version st)
  = filter (λ kc, kc.1 = SW.CACHE_NAME version ∨ kc.1 = SW.CACHE_NAME_EXTERNAL version)
           (SW.caches st).
Proof.
  unfold SW.on_activate. cbn [SW.caches]. rewrite foldl_caches_delete.
  apply filter_equiv. intros [k cache] Hin. simpl.
  rewrite list_elem_of_filter. unfold SW.caches_keys.
  assert (k ∈ (SW.caches st).*1) as Hk.
  { apply list_elem_of_fmap. by exists (k, cache). }
  destruct (decide (k = SW.CACHE_NAME version)); [tauto|].
  destruct (decide (k = SW.CACHE_NAME_EXTERNAL version)); tauto.
Qed.

(** Installation only adds caches: every name present before is still
    present, and the two caches of the version exist afterwards. *)
Lemma cache_put_keys name url r cs :
  SW.caches_keys (SW.cache_put name url r cs) = SW.caches_keys cs.
Proof.
  induction cs as [|[k cache] cs IH]; csimpl; [done|].
  case_bool_decide; csimpl; [done|]. by f_equal.
Qed.

Lemma put_all_keys name rs cs :
  SW.caches_keys (SW.put_all name rs cs) = SW.caches_keys cs.
Proof.
  unfold SW.put_all. revert cs.
  induction rs as [|[u r] rs IH]; intros cs; cbn [foldl fst snd]; [done|].
  by rewrite IH, cache_put_keys.
Qed.

Lemma addAll_keys resolver red name urls cs :
  SW.caches_keys (SW.addAll resolver red name urls cs).2 = SW.caches_keys cs.
Proof.
  unfold SW.addAll. destruct (SW.fetch_all _ _); simpl; [|done].
  apply put_all_keys.
Qed.

Lemma caches_open_keys_conserva name name' cs :
  name' ∈ SW.caches_keys cs → name' ∈ SW.caches_keys (SW.caches_open name cs).
Proof.
  unfold SW.caches_open. case_bool_decide; [done|].
  unfold SW.caches_keys. rewrite fmap_app, elem_of_app. by left.
Qed.

Lemma on_install_keys version resolver red st :
  let st' := (SW.on_install version resolver red st).2 in
  SW.CACHE_NAME version ∈ SW.caches_keys (SW.caches st')
  ∧ SW.CACHE_NAME_EXTERNAL version ∈ SW.caches_keys (SW.caches st')
  ∧ ∀ name, name ∈ SW.caches_keys (SW.caches st) → name ∈ SW.caches_keys (SW.caches st').
Proof.
  cbn zeta. unfold SW.on_install.
  pose proof (addAll_keys resolver red (SW.CACHE_NAME version) SW.PRECACHE_URLS
                (SW.caches_open (SW.CACHE_NAME version) (SW.caches st))) as H1.
  destruct (SW.addAll resolver red (SW.CACHE_NAME version) _ _) as [ok1 cs1].
  pose proof (addAll_keys resolver red (SW.CACHE_NAME_EXTERNAL version) SW.EXTERNAL_URLS
                (SW.caches_open (SW.CACHE_NAME_EXTERNAL version) cs1)) as H2.
  destruct (SW.addAll resolver red (SW.CACHE_NAME_EXTERNAL version) _ _) as [ok2 cs2].
  cbn [snd SW.caches] in *. rewrite H2. split; [|split].
  - apply caches_open_keys_conserva. rewrite H1. apply caches_open_keys.
  - apply caches_open_keys.
  - intros name Hname. apply caches_open_keys_conserva. rewrite H1.
    by apply caches_open_keys_conserva.
Qed.

Lemma on_activate_elem version st name cache :
  (name, cache) ∈ SW.caches (SW.on_activate version st)
  ↔ (name = SW.CACHE_NAME version ∨ name = SW.CACHE_NAME_EXTERNAL version)
    ∧ (name, cache) ∈ SW.caches st.
Proof. rewrite on_activate_caches, list_elem_of_filter. done. Qed.

Lemma on_activate_keys version st name :
  name ∈ SW.caches_keys (SW.caches (SW.on_activate version st))
  ↔ (name = SW.CACHE_NAME version ∨ name = SW.CACHE_NAME_EXTERNAL version)
    ∧ name ∈ SW.caches_keys (SW.caches st).
Proof.
  unfold SW.caches_keys. rewrite !list_elem_of_fmap. split.
  - intros ([k cache] & -> & [Hk Hin]%on_activate_elem). split; [done|].
    by exists (k, cache).
  - intros [Hk ([k cache] & -> & Hin)]. exists (k, cache). split; [done|].
    by apply on_activate_elem.
Qed.

(** C9. After activation, a cache that existed beforehand is gone exactly
    when its name is neither the primary nor the external cache name of the
    current version, and a surviving cache keeps its content; in particular,
    activating version [v2] after installs of [v1] and then [v2] deletes the
    two caches of [v1], which were there, and leaves the two caches of [v2]
    as they were. *)
Theorem C9_activar_borra_versiones_viejas (version : string) (st : SW.Estado)
    (name : string) :
  name ∈ SW.caches_keys (SW.caches st) →
  (name ∉ SW.caches_keys (SW.caches (SW.on_activate version st))
   ↔ name ≠ SW.CACHE_NAME version ∧ name ≠ SW.CACHE_NAME_EXTERNAL version)
  ∧ (∀ cache, (name, cache) ∈ SW.caches (SW.on_activate version st)
              ↔ (name = SW.CACHE_NAME version ∨ name = SW.CACHE_NAME_EXTERNAL version)
                ∧ (name, cache) ∈ SW.caches st)
  ∧ (∀ resolver red1 red2 st0,
       let st1 := (SW.on_install "v1" resolver red1 st0).2 in
       let st2 := (SW.on_install "v2" resolver red2 st1).2 in
       let st3 := SW.on_activate "v2" st2 in
       (SW.CACHE_NAME "v1" ∈ SW.caches_keys (SW.caches st2)
        ∧ SW.CACHE_NAME_EXTERNAL "v1" ∈ SW.caches_keys (SW.caches st2))
       ∧ ((SW.CACHE_NAME "v1" ∉ SW.caches_keys (SW.caches st3))
          ∧ (SW.CACHE_NAME_EXTERNAL "v1" ∉ SW.caches_keys (SW.caches st3)))
       ∧ (SW.CACHE_NAME "v2" ∈ SW.caches_keys (SW.caches st3)
          ∧ SW.CACHE_NAME_EXTERNAL "v2" ∈ SW.caches_keys (SW.caches st3))
       ∧ ∀ cache,
           ((SW.CACHE_NAME "v2", cache) ∈ SW.caches st3
            ↔ (SW.CACHE_NAME "v2", cache) ∈ SW.caches st2)
           ∧ ((SW.CACHE_NAME_EXTERNAL "v2", cache) ∈ SW.caches st3
              ↔ (SW.CACHE_NAME_EXTERNAL "v2", cache) ∈ SW.caches st2)).
Proof.
  intros Hname. split; [|split].
  - rewrite on_activate_keys.
    destruct (decide (name = SW.CACHE_NAME version));
      destruct (decide (name = SW.CACHE_NAME_EXTERNAL version)); tauto.
  - intros cache. apply on_activate_elem.
  - intros resolver red1 red2 st0. cbn zeta.
    set (st1 := (SW.on_install "v1" resolver red1 st0).2).
    set (st2 := (SW.on_install "v2" resolver red2 st1).2).
    destruct (on_install_keys "v1" resolver red1 st0) as (H1 & H1e & _).
    destruct (on_install_keys "v2" resolver red2 st1) as (H2 & H2e & Hcons).
    fold st1 in H1, H1e. fold st2 in H2, H2e, Hcons.
    split; [split; by apply Hcons|].
    split; [|split].
    + rewrite !on_activate_keys. split; intros [[Heq|Heq] _]; discriminate Heq.
    + rewrite !on_activate_keys. split; (split; [|done]); [by left|by right].
    + intros cache. rewrite !on_activate_elem. split; (split; [tauto|]).
      * intros H. split; [by left|done].
      * intros H. split; [by right|done].
Qed.

(** The primary cache of [v1] is there after the two installs and gone
    after the activation of [v2]. *)
Lemma C9_activar_borra_versiones_viejas_witness :
  "bpwordzee-v1" ∈ SW.caches_keys
                     (SW.caches (SW.on_install "v1" (λ u, u) red_200 estado_inicial).2)
  ∧ (SW.on_install "v2" (λ u, u) red_200
       (SW.on_install "v1" (λ u, u) red_200 estado_inicial).2).1 = true
  ∧ "bpwordzee-v1" ∉ SW.caches_keys
                       (SW.caches
                          (SW.on_activate "v2"
                             (SW.on_install "v2" (λ u, u) red_200
                                (SW.on_install "v1" (λ u, u) red_200 estado_inicial).2).2)).
Proof.
  assert ("bpwordzee-v1"
          ∈ SW.caches_keys
              (SW.caches
                 (SW.on_install "v2" (λ u, u) red_200
                    (SW.on_install "v1" (λ u, u) red_200 estado_inicial).2).2)) as Hin.
  { apply (bool_decide_unpack _). vm_compute. reflexivity. }
  split; [apply (bool_decide_unpack _); vm_compute; reflexivity|].
  split; [reflexivity|].
  destruct (C9_activar_borra_versiones_viejas "v2" _ "bpwordzee-v1" Hin) as [H _].
  apply H. split; discriminate.
Defined.

(** C10. Whatever the network and the caches, the install handler sets the
    skip-waiting flag, also when the precache fails; the worker therefore
    never stays waiting once installed, whether or not a message arrives, and
    a [SKIP_WAITING] message (like any other message) received afterwards
    changes nothing. *)
Theorem C10_skipWaiting_en_cada_install (version : string) (resolver : string → string)
    (red : SW.Red) (st : SW.Estado) :
  SW.skipWaitingFlag (SW.on_install version resolver red st).2 = true
  ∧ (∀ data, SW.on_message (SW.on_install version resolver red st).2 data
             = (SW.on_install version resolver red st).2)
  ∧ (∀ version_anterior_en_uso,
       SW.tras_instalar (SW.on_install version resolver red st).1 version_anterior_en_uso
         (SW.on_install version resolver red st).2
       ≠ SW.EnEspera)
  ∧ (∀ version_anterior_en_uso,
       (SW.on_install version resolver red st).1 = true →
       SW.tras_instalar true version_anterior_en_uso (SW.on_install version resolver red st).2
       = SW.Activando)
  ∧ SW.on_message st (JS.Object [("type", JS.Str "SKIP_WAITING")])
    = {| SW.caches := SW.caches st; SW.skipWaitingFlag := true;
         SW.clientsClaimed := SW.clientsClaimed st; SW.pendientes := SW.pendientes st |}.
Proof.
  assert (SW.skipWaitingFlag (SW.on_install version resolver red st).2 = true) as Hflag.
  { unfold SW.on_install. by do 2 destruct (SW.addAll _ _ _ _ _). }
  split; [done|]. split; [|split; [|split]].
  - intros data. destruct (SW.on_install version resolver red st).2 as [cs f c p].
    simpl in Hflag. subst f. unfold SW.on_message.
    destruct (negb (JS.truthy data)); [done|].
    destruct data as [| | | | | |props]; try done.
    destruct (JS.get_prop "type" props); try done.
    by case_bool_decide.
  - intros en_uso. unfold SW.tras_instalar. rewrite Hflag.
    by destruct (SW.on_install version resolver red st).1.
  - intros en_uso _. unfold SW.tras_instalar. by rewrite Hflag.
  - reflexivity.
Qed.

(** * Further properties of the ranking *)

Lemma bien_formado_palabra_de item :
  bien_formado item = true →
  ∃ p, palabra_de item = Some p ∧ 3 ≤ String.length (palabra p) ≤ 7.
Proof.
  unfold bien_formado. destruct (palabra_de item) as [p|]; [|done].
  intros H%bool_decide_eq_true. by exists p.
Qed.

(** The five groups split the candidates: nothing is counted twice and
    nothing is left out. *)
Lemma grupos_particion items :
  forallb bien_formado items = true →
  omap palabra_de items
  ≡ₚ grupo_de 3 items ++ grupo_de 4 items ++ grupo_de 5 items
       ++ grupo_de 6 items ++ grupo_de 7 items.
Proof.
  induction items as [|item items IH]; [done|].
  simpl. intros [Hitem Hitems]%andb_true_iff.
  destruct (bien_formado_palabra_de item Hitem) as (p & Hp & Hlen).
  unfold grupo_de. simpl. rewrite Hp. rewrite !filter_cons.
  rewrite (IH Hitems). unfold grupo_de.
  repeat case_decide; try lia; simpl; by rewrite <- ?Permutation_middle.
Qed.

Lemma omap_palabra_de_length items :
  forallb bien_formado items = true → length (omap palabra_de items) = length items.
Proof.
  induction items as [|item items IH]; [done|].
  simpl. intros [Hitem Hitems]%andb_true_iff.
  destruct (bien_formado_palabra_de item Hitem) as (p & -> & _).
  simpl. f_equal. by apply IH.
Qed.

Lemma filter_ranking_fuera n items :
  ¬ 3 ≤ n ≤ 7 →
  filter (λ p, String.length (palabra p) = n)
         (palabras (data (ordenarYLimitarResultados (grupos_de items)))) = [].
Proof.
  intros Hn. apply filter_ninguno. apply Forall_forall.
  intros p Hp%longitud_ranking. lia.
Qed.

Lemma palabras_ranking_perm items :
  palabras (data (ordenarYLimitarResultados (grupos_de items)))
  ≡ₚ mejores_de 3 items ++ mejores_de 4 items ++ mejores_de 5 items
       ++ mejores_de 6 items ++ mejores_de 7 items.
Proof. rewrite palabras_ranking, ordenar_perm. csimpl. by rewrite app_nil_r. Qed.

(** X1. When the ranking returns: every candidate is counted in
    [total_antes_filtro]; at most ten words of any length, hence at most
    fifty words, are returned, and never more than were received. *)
Theorem X1_cotas_del_ranking (items : list Item) (r : Resultado) :
  procesarPalabras items = JS.Return r →
  total_antes_filtro (data r) = length items
  ∧ total (data r) ≤ total_antes_filtro (data r)
  ∧ total (data r) ≤ 50
  ∧ ∀ n, length (filter (λ p, String.length (palabra p) = n) (palabras (data r))) ≤ 10.
Proof.
  intros [Hok ->]%procesarPalabras_inv.
  assert (total_antes_filtro (data (ordenarYLimitarResultados (grupos_de items)))
          = length items) as Hantes.
  { rewrite total_antes_ranking. cbn [fmap list_fmap sum_list sum_list_with]. unfold id.
    rewrite <- (omap_palabra_de_length items Hok), (grupos_particion items Hok).
    rewrite !length_app. lia. }
  assert (total (data (ordenarYLimitarResultados (grupos_de items)))
          = length (mejores_de 3 items) + length (mejores_de 4 items)
            + length (mejores_de 5 items) + length (mejores_de 6 items)
            + length (mejores_de 7 items)) as Htotal.
  { rewrite total_ranking, palabras_ranking_perm, !length_app. lia. }
  split; [done|]. split; [|split].
  - rewrite Hantes, Htotal, <- (omap_palabra_de_length items Hok),
      (grupos_particion items Hok), !length_app.
    unfold mejores_de. rewrite !length_take, !ordenar_length. lia.
  - rewrite Htotal.
    pose proof (mejores_de_length 3 items). pose proof (mejores_de_length 4 items).
    pose proof (mejores_de_length 5 items). pose proof (mejores_de_length 6 items).
    pose proof (mejores_de_length 7 items). lia.
  - intros n. destruct (decide (3 ≤ n ≤ 7)) as [Hn|Hn].
    + rewrite filter_ranking by done. apply mejores_de_length.
    + rewrite filter_ranking_fuera by done. simpl. lia.
Qed.

(** X2. Nothing is lost exactly when no bucket holds more than ten words:
    [total] equals [total_antes_filtro] if and only if every length has at
    most ten candidates, and then the result lists all the candidates'
    words, rearranged. *)
Theorem X2_sin_perdida (items : list Item) (r : Resultado) :
  procesarPalabras items = JS.Return r →
  (total (data r) = total_antes_filtro (data r)
   ↔ ∀ n, 3 ≤ n ≤ 7 → length (grupo_de n items) ≤ 10)
  ∧ ((∀ n, 3 ≤ n ≤ 7 → length (grupo_de n items) ≤ 10) →
     palabras (data r) ≡ₚ omap palabra_de items).
Proof.
  intros [Hok ->]%procesarPalabras_inv.
  assert (∀ n, length (mejores_de n items) = length (grupo_de n items) `min` 10) as Hm.
  { intros n. unfold mejores_de. by rewrite take_10_length, ordenar_length. }
  split.
  - rewrite total_ranking, palabras_ranking_perm, total_antes_ranking.
    cbn [fmap list_fmap sum_list sum_list_with]. unfold id. rewrite !length_app, !Hm. split.
    + intros Heq n Hn.
      assert (n = 3 ∨ n = 4 ∨ n = 5 ∨ n = 6 ∨ n = 7) as Hcases by lia.
      destruct Hcases as [->|[->|[->|[->| ->]]]]; lia.
    + intros Hle.
      pose proof (Hle 3 ltac:(lia)). pose proof (Hle 4 ltac:(lia)).
      pose proof (Hle 5 ltac:(lia)). pose proof (Hle 6 ltac:(lia)).
      pose proof (Hle 7 ltac:(lia)). lia.
  - intros Hle. rewrite palabras_ranking_perm, (grupos_particion items Hok).
    unfold mejores_de.
    rewrite !take_ge by (rewrite ordenar_length; apply Hle; lia).
    by rewrite !ordenar_perm.
Qed.

Lemma filter_take_prefix {A} (P : A → Prop) `{∀ x, Decision (P x)} k (l : list A) :
  filter P (take k l) `prefix_of` filter P l.
Proof.
  exists (filter P (drop k l)). by rewrite <- filter_app, take_drop.
Qed.

Lemma filter_longitud_puntos n s (l : list Palabra) :
  filter (λ p, String.length (palabra p) = n ∧ puntos p = s) l
  = filter (λ p, puntos p = s) (filter (λ p, String.length (palabra p) = n) l).
Proof. rewrite list_filter_filter. apply filter_equiv. intros; tauto. Qed.

(** X3. Ties keep the arrival order: among the candidates of one length and
    one score, the result lists the earliest arrived, in the order they
    arrived (truncation drops the latest of them first). *)
Theorem X3_empates_en_orden_de_llegada (items : list Item) (r : Resultado) (n : nat) (s : Z) :
  procesarPalabras items = JS.Return r →
  filter (λ p, String.length (palabra p) = n ∧ puntos p = s) (palabras (data r))
  `prefix_of`
  filter (λ p, String.length (palabra p) = n ∧ puntos p = s) (omap palabra_de items).
Proof.
  intros [Hok ->]%procesarPalabras_inv.
  rewrite !filter_longitud_puntos.
  destruct (decide (3 ≤ n ≤ 7)) as [Hn|Hn].
  - rewrite filter_ranking by done. fold (grupo_de n items).
    rewrite <- (ordenar_estable s (grupo_de n items)). apply filter_take_prefix.
  - rewrite filter_ranking_fuera by done. apply prefix_nil.
Qed.

Lemma elem_of_grupo_de p items :
  forallb bien_formado items = true →
  p ∈ omap palabra_de items →
  3 ≤ String.length (palabra p) ≤ 7 ∧ p ∈ grupo_de (String.length (palabra p)) items.
Proof.
  intros Hok Hp. assert (3 ≤ String.length (palabra p) ≤ 7) as Hlen.
  { apply list_elem_of_omap in Hp as (item & Hin & Hitem).
    assert (bien_formado item = true) as Hbf.
    { apply forallb_bien_formado in Hok. rewrite Forall_forall in Hok. by apply Hok. }
    destruct (bien_formado_palabra_de item Hbf) as (p' & Hp' & Hlen). congruence. }
  split; [done|]. by apply list_elem_of_filter.
Qed.

Lemma head_mejores_de n items : head (mejores_de n items) = head (ordenar (grupo_de n items)).
Proof. unfold mejores_de. by destruct (ordenar (grupo_de n items)). Qed.

Lemma elem_of_palabras_ranking p n items :
  3 ≤ n ≤ 7 → p ∈ mejores_de n items →
  p ∈ palabras (data (ordenarYLimitarResultados (grupos_de items))).
Proof.
  intros Hn Hp. rewrite palabras_ranking_perm, !elem_of_app.
  assert (n = 3 ∨ n = 4 ∨ n = 5 ∨ n = 6 ∨ n = 7) as Hcases by lia.
  destruct Hcases as [->|[->|[->|[->| ->]]]]; tauto.
Qed.

(** X4. The first word of the result is a best one: no candidate scores
    above it. *)
Theorem X4_la_mejor_primero (items : list Item) (r : Resultado) (p : Palabra) :
  procesarPalabras items = JS.Return r →
  p ∈ omap palabra_de items →
  ∃ q, head (palabras (data r)) = Some q ∧ (puntos p ≤ puntos q)%Z.
Proof.
  intros [Hok ->]%procesarPalabras_inv Hp.
  destruct (elem_of_grupo_de p items Hok Hp) as [Hlen Hin].
  set (n := String.length (palabra p)) in *.
  destruct (head (ordenar (grupo_de n items))) as [m|] eqn:Hm.
  2:{ apply head_None in Hm. apply (f_equal length) in Hm.
      rewrite ordenar_length in Hm. destruct (grupo_de n items); [|done].
      by apply elem_of_nil in Hin. }
  assert ((puntos p ≤ puntos m)%Z) as Hpm.
  { apply (desc_head (ordenar (grupo_de n items))); [apply ordenar_desc|done|].
    by rewrite ordenar_perm. }
  assert (m ∈ palabras (data (ordenarYLimitarResultados (grupos_de items)))) as Hmin.
  { apply (elem_of_palabras_ranking m n); [done|].
    apply head_Some_elem_of. by rewrite head_mejores_de. }
  destruct (head (palabras (data (ordenarYLimitarResultados (grupos_de items)))))
    as [q|] eqn:Hq.
  - exists q. split; [done|].
    assert ((puntos m ≤ puntos q)%Z); [|lia].
    eapply desc_head; [|exact Hq|exact Hmin].
    rewrite palabras_ranking. apply ordenar_desc.
  - apply head_None in Hq. rewrite Hq in Hmin. by apply elem_of_nil in Hmin.
Qed.

(** X5. The statistics agree with the list returned: for every entry
    [longitud_n], [mejores] is the number of words of length [n] in
    [palabras], [puntos_max] is the score of the first of them, and every
    one of them scores between [puntos_min] and [puntos_max]. *)
Theorem X5_estadisticas_y_lista (items : list Item) (r : Resultado) (n : nat) (s : Est.t) :
  procesarPalabras items = JS.Return r →
  estadisticas (data r) !! clave n = Some s →
  let de_longitud_n := filter (λ p, String.length (palabra p) = n) (palabras (data r)) in
  Est.mejores s = length de_longitud_n
  ∧ Some (Est.puntos_max s) = puntos <$> head de_longitud_n
  ∧ ∀ p, p ∈ de_longitud_n → (Est.puntos_min s ≤ puntos p ≤ Est.puntos_max s)%Z.
Proof.
  intros [Hok ->]%procesarPalabras_inv Hs. cbn zeta.
  apply est_origen in Hs as (n' & Hn & Heq%clave_inj & Hne & ->). subst n'.
  rewrite filter_ranking by done.
  destruct (lecturas_en_rango _ Hne) as [Hmax Hmin].
  split; [done|]. split; [by rewrite head_mejores_de|].
  remember (resumen (grupo_de n items)) as s eqn:Es. clear Es.
  intros p Hp. unfold mejores_de in Hp. apply subseteq_take in Hp.
  destruct (head (ordenar (grupo_de n items))) as [pmax|] eqn:Hhead; [|done].
  destruct (last (ordenar (grupo_de n items))) as [pmin|] eqn:Hlast; [|done].
  injection Hmax as ->. injection Hmin as ->. split.
  - by apply (desc_last (ordenar (grupo_de n items))); [apply ordenar_desc|..].
  - by apply (desc_head (ordenar (grupo_de n items))); [apply ordenar_desc|..].
Qed.

(** Seventeen candidates, fifteen of length 4: twelve are returned. *)
Lemma X1_cotas_del_ranking_witness :
  procesarPalabras quince_y_empates
  = JS.Return (ordenarYLimitarResultados (grupos_de quince_y_empates))
  ∧ total_antes_filtro (data (ordenarYLimitarResultados (grupos_de quince_y_empates))) = 17
  ∧ total (data (ordenarYLimitarResultados (grupos_de quince_y_empates))) ≤ 50.
Proof.
  split; [reflexivity|].
  destruct (X1_cotas_del_ranking quince_y_empates _ eq_refl) as (Ha & _ & Ht & _).
  split; [exact Ha|exact Ht].
Defined.

(** Four candidates, at most three of one length: all four are returned. *)
Lemma X2_sin_perdida_witness :
  procesarPalabras cuatro_candidatas
  = JS.Return (ordenarYLimitarResultados (grupos_de cuatro_candidatas))
  ∧ total (data (ordenarYLimitarResultados (grupos_de cuatro_candidatas)))
    = total_antes_filtro (data (ordenarYLimitarResultados (grupos_de cuatro_candidatas))).
Proof.
  split; [reflexivity|].
  destruct (X2_sin_perdida cuatro_candidatas _ eq_refl) as [[_ H] _].
  apply H. intros n Hn.
  assert (n = 3 ∨ n = 4 ∨ n = 5 ∨ n = 6 ∨ n = 7) as Hcases by lia.
  destruct Hcases as [->|[->|[->|[->| ->]]]]; vm_compute; lia.
Defined.

(** The two words of length 3 that tie at 8 points stay in arrival order. *)
Lemma X3_empates_en_orden_de_llegada_witness :
  procesarPalabras quince_y_empates
  = JS.Return (ordenarYLimitarResultados (grupos_de quince_y_empates))
  ∧ filter (λ p, String.length (palabra p) = 3 ∧ puntos p = 8%Z)
      (palabras (data (ordenarYLimitarResultados (grupos_de quince_y_empates))))
    `prefix_of` [ {| palabra := "SOL"; puntos := 8 |}; {| palabra := "MAR"; puntos := 8 |} ].
Proof.
  split; [reflexivity|].
  exact (X3_empates_en_orden_de_llegada quince_y_empates _ 3 8%Z eq_refl).
Defined.

(** [CASA], 12 points, is a candidate; the first word returned scores at
    least as much. *)
Lemma X4_la_mejor_primero_witness :
  procesarPalabras cuatro_candidatas
  = JS.Return (ordenarYLimitarResultados (grupos_de cuatro_candidatas))
  ∧ {| palabra := "CASA"; puntos := 12 |} ∈ omap palabra_de cuatro_candidatas
  ∧ ∃ q, head (palabras (data (ordenarYLimitarResultados (grupos_de cuatro_candidatas))))
         = Some q
         ∧ (12 ≤ puntos q)%Z.
Proof.
  assert ({| palabra := "CASA"; puntos := 12 |} ∈ omap palabra_de cuatro_candidatas) as Hin.
  { right. left. }
  split; [reflexivity|]. split; [exact Hin|].
  exact (X4_la_mejor_primero cuatro_candidatas _ _ eq_refl Hin).
Defined.

(** The entry of length 3 of four candidates, three of them of length 3. *)
Lemma X5_estadisticas_y_lista_witness :
  procesarPalabras cuatro_candidatas
  = JS.Return (ordenarYLimitarResultados (grupos_de cuatro_candidatas))
  ∧ estadisticas (data (ordenarYLimitarResultados (grupos_de cuatro_candidatas))) !! clave 3
    = Some {| Est.total := 3; Est.mejores := 3; Est.puntos_max := 9; Est.puntos_min := 4 |}
  ∧ 3 = length (filter (λ p, String.length (palabra p) = 3)
                  (palabras (data (ordenarYLimitarResultados (grupos_de cuatro_candidatas))))).
Proof.
  split; [reflexivity|]. split; [reflexivity|].
  destruct (X5_estadisticas_y_lista cuatro_candidatas _ 3 _ eq_refl eq_refl) as [H _].
  exact H.
Defined.

(** * Further properties of the search *)

Lemma validarParametros_formas letras tabla ronda :
  validarParametros letras tabla ronda = JS.Return () →
  ∃ elems n, letras = JS.Array elems ∧ ronda = JS.Number n.
Proof.
  unfold validarParametros.
  destruct (es_array_de 7 letras) eqn:Hl; [|done].
  apply es_array_de_spec in Hl as (elems & -> & _). simpl.
  destruct (es_array_de 5 tabla); [|done]. simpl.
  destruct (validarFilas 0 _) as [[]|e]; [|done]. simpl.
  destruct ronda; try done. intros _. by eexists _, _.
Qed.

Lemma normalizar_spec h elems :
  match normalizar h elems with
  | JS.Return ss => ∃ ls, elems = JS.Str <$> ls ∧ ss = toUpperCase h <$> ls
  | JS.Throw e => e = JS.TypeError ∧ ¬ ∃ ls, elems = JS.Str <$> ls
  end.
Proof.
  induction elems as [|v elems IH]; simpl.
  - by exists [].
  - destruct v as [| | | |l| |];
      try (split; [done|]; intros [[|? ?] Hls]; discriminate Hls).
    destruct (normalizar h elems) as [ss|e]; simpl.
    + destruct IH as (ls & -> & ->). by exists (l :: ls).
    + destruct IH as [-> Hno]. split; [done|].
      intros [[|l' ls] Hls]; [done|]. injection Hls as _ Hls.
      apply Hno. by exists ls.
Qed.

(** X6. A search returns a result exactly when the parameters pass the
    validation, the letters are strings, the word source answers the one
    request (for the upper-cased letters) with [success] and a list of
    words, and the ranking of that list returns; the result is that
    ranking. *)
Theorem X6_buscarPalabras_resultado (h : Host) (fetch : string → RespuestaAPI)
    (letras tabla ronda : JS.value) (apiUrl : string) (r : Resultado) (urls : list string) :
  buscarPalabras h fetch letras tabla ronda apiUrl = (JS.Return r, urls)
  ↔ validarParametros letras tabla ronda = JS.Return ()
    ∧ ∃ ls n mensaje candidatas,
        letras = JS.Array (JS.Str <$> ls)
        ∧ ronda = JS.Number n
        ∧ fetch (url_consulta h (toUpperCase h <$> ls) tabla n apiUrl)
          = Sobre true mensaje (Some candidatas)
        ∧ procesarPalabras candidatas = JS.Return r
        ∧ urls = [url_consulta h (toUpperCase h <$> ls) tabla n apiUrl].
Proof.
  unfold buscarPalabras. split.
  - destruct (validarParametros letras tabla ronda) as [[]|e] eqn:Hv; [|done].
    destruct (validarParametros_formas _ _ _ Hv) as (elems & n & -> & ->).
    cbn [sin_red luego].
    pose proof (normalizar_spec h elems) as Hn.
    destruct (normalizar h elems) as [ss|e]; [|done].
    destruct Hn as (ls & -> & ->). cbn [luego]. unfold obtenerPalabrasAPI.
    destruct (fetch _) as [| |[] m [ps|]] eqn:Hf; cbn [luego mret JS.completion_ret];
      try done.
    unfold sin_red. intros [= Hr <-]. split; [done|].
    by exists ls, n, m, ps.
  - intros (Hv & ls & n & m & ps & -> & -> & Hf & Hr & ->).
    rewrite Hv. cbn [sin_red luego]. rewrite normalizar_letras. cbn [luego].
    unfold obtenerPalabrasAPI. rewrite Hf. cbn [luego mret JS.completion_ret].
    unfold sin_red. by rewrite Hr.
Qed.

(** X7. A search issues at most one request, and issues it exactly when the
    validation passes and every letter is a string; a letter that is not a
    string ends the search with a [TypeError] before any request. *)
Theorem X7_una_peticion_como_mucho (h : Host) (fetch : string → RespuestaAPI)
    (letras tabla ronda : JS.value) (apiUrl : string) :
  length (buscarPalabras h fetch letras tabla ronda apiUrl).2 ≤ 1
  ∧ ((buscarPalabras h fetch letras tabla ronda apiUrl).2 ≠ []
     ↔ validarParametros letras tabla ronda = JS.Return ()
       ∧ ∃ ls, letras = JS.Array (JS.Str <$> ls))
  ∧ (validarParametros letras tabla ronda = JS.Return () →
     (¬ ∃ ls, letras = JS.Array (JS.Str <$> ls)) →
     buscarPalabras h fetch letras tabla ronda apiUrl = (JS.Throw JS.TypeError, [])).
Proof.
  unfold buscarPalabras.
  destruct (validarParametros letras tabla ronda) as [[]|e] eqn:Hv.
  2:{ cbn. split; [lia|]. split; [|done]. split; [done|]. by intros [? _]. }
  destruct (validarParametros_formas _ _ _ Hv) as (elems & n & -> & ->).
  cbn [sin_red luego].
  pose proof (normalizar_spec h elems) as Hn.
  destruct (normalizar h elems) as [ss|e].
  - destruct Hn as (ls & -> & ->). cbn [luego]. unfold obtenerPalabrasAPI.
    assert (∃ ls0, JS.Array (JS.Str <$> ls) = JS.Array (JS.Str <$> ls0)) as Hls
      by (by exists ls).
    destruct (fetch _) as [| |[] m [ps|]]; cbn [luego mret JS.completion_ret snd];
      (split; [simpl; lia|]); (split; [by split|]); by intros _ [].
  - destruct Hn as [-> Hno]. cbn [luego snd]. split; [simpl; lia|].
    assert (¬ ∃ ls, JS.Array elems = JS.Array (JS.Str <$> ls)) as Hno'.
    { intros [ls [= ->]]. apply Hno. by exists ls. }
    split; [|done]. split; [done|]. by intros [_ Hls].
Qed.

(** The sample search: validation passes, the source answers with four
    words, and their ranking is the result. *)
Lemma X6_buscarPalabras_resultado_witness :
  buscarPalabras host_ejemplo fetch_ejemplo (JS.Array (JS.Str <$> letras_ejemplo))
    tabla_ejemplo (JS.Number (JS.Finite 3)) "/api/bpwordzee"
  = (JS.Return (ordenarYLimitarResultados (grupos_de cuatro_candidatas)),
     ["/api/bpwordzee?letras=C,A,S,E,R,O,N&puntos_extra=[...]&ronda=3"]).
Proof.
  apply X6_buscarPalabras_resultado. split; [reflexivity|].
  exists letras_ejemplo, (JS.Finite 3), None, cuatro_candidatas.
  repeat split; reflexivity.
Defined.

(** Seven letters given as numbers: the validation passes and the search
    throws before any request. *)
Lemma X7_una_peticion_como_mucho_witness :
  validarParametros (JS.Array (replicate 7 (JS.Number (JS.Finite 1)))) tabla_ejemplo
    (JS.Number (JS.Finite 3)) = JS.Return ()
  ∧ buscarPalabras host_ejemplo fetch_ejemplo
      (JS.Array (replicate 7 (JS.Number (JS.Finite 1)))) tabla_ejemplo
      (JS.Number (JS.Finite 3)) "/api/bpwordzee"
    = (JS.Throw JS.TypeError, []).
Proof.
  split; [reflexivity|].
  destruct (X7_una_peticion_como_mucho host_ejemplo fetch_ejemplo
              (JS.Array (replicate 7 (JS.Number (JS.Finite 1)))) tabla_ejemplo
              (JS.Number (JS.Finite 3)) "/api/bpwordzee") as (_ & _ & H).
  apply H; [reflexivity|].
  intros [[|l ls] Hls]; discriminate Hls.
Defined.

(** * The table of results *)

Lemma llenar_cinco h clase datos c3 c4 c5 c6 c7 :
  UI.llenar h clase datos [c3; c4; c5; c6; c7] =
  if forallb (λ p, bool_decide (3 ≤ String.length (palabra p) ≤ 7)) datos then
    JS.Return [ c3 ++ columna h clase 3 datos; c4 ++ columna h clase 4 datos;
                c5 ++ columna h clase 5 datos; c6 ++ columna h clase 6 datos;
                c7 ++ columna h clase 7 datos ]
  else JS.Throw JS.TypeError.
Proof.
  revert c3 c4 c5 c6 c7. induction datos as [|p datos IH]; intros c3 c4 c5 c6 c7.
  - simpl. unfold columna. rewrite !filter_nil. csimpl. by rewrite !app_nil_r.
  - cbn [UI.llenar forallb].
    destruct (decide (3 ≤ String.length (palabra p) ≤ 7)) as [Hlen|Hlen].
    + rewrite (bool_decide_true _ Hlen), bool_decide_false by lia. cbn [andb].
      assert (∃ k, String.length (palabra p) = k + 3 ∧ k < 5) as (k & Hk & Hk5).
      { exists (String.length (palabra p) - 3). lia. }
      replace (Z.to_nat (Z.of_nat (String.length (palabra p)) - 3)) with k by lia.
      unfold columna. rewrite !filter_cons, Hk.
      do 5 (destruct k as [|k]; [cbn [lookup list_lookup insert list_insert];
                                  rewrite IH; destruct (forallb _ datos); [|done];
                                  unfold columna; repeat case_decide; try lia;
                                  csimpl; by rewrite <- ?app_assoc|]).
      lia.
    + rewrite (bool_decide_false _ Hlen). cbn [andb].
      case_bool_decide as Hneg; [done|].
      destruct (_ !! _) eqn:Hl; [|done].
      apply lookup_lt_Some in Hl. simpl in Hl. lia.
Qed.

Lemma forallb_longitudes datos :
  forallb (λ p, bool_decide (3 ≤ String.length (palabra p) ≤ 7)) datos = true
  ↔ Forall (λ p, 3 ≤ String.length (palabra p) ≤ 7) datos.
Proof.
  induction datos as [|p datos IH]; simpl.
  - split; [constructor|done].
  - by rewrite andb_true_iff, Forall_cons, IH, bool_decide_eq_true.
Qed.

Lemma celda_o_vacia_columna h clase n datos x :
  UI.celda_o_vacia (columna h clase n datos) x =
  match filter (λ p, String.length (palabra p) = n) datos !! x with
  | Some p => UI.celda h clase p
  | None => "<td></td>"
  end.
Proof.
  unfold UI.celda_o_vacia, columna. rewrite list_lookup_fmap.
  by destruct (_ !! x) as [p|].
Qed.

Lemma length_filas tabla : length (UI.filas tabla) = UI.maximo tabla.
Proof. unfold UI.filas. by rewrite length_fmap, length_seq. Qed.

Lemma llenar_columnas h clase datos :
  UI.llenar h clase datos [[]; []; []; []; []]
  = if forallb (λ p, bool_decide (3 ≤ String.length (palabra p) ≤ 7)) datos
    then JS.Return (columnas h clase datos) else JS.Throw JS.TypeError.
Proof. by rewrite llenar_cinco. Qed.

Lemma mostrar_columnas h clase datos :
  Forall (λ p, 3 ≤ String.length (palabra p) ≤ 7) datos →
  UI.mostrarPalabrasEncontradas h clase (Some datos)
  = JS.Return (Some (String.concat "" (UI.filas (columnas h clase datos)))).
Proof.
  intros Hok%forallb_longitudes. unfold UI.mostrarPalabrasEncontradas.
  by rewrite llenar_columnas, Hok.
Qed.

Lemma length_filas_columnas h clase datos :
  length (UI.filas (columnas h clase datos))
  = max_list ((λ n, length (filter (λ p, String.length (palabra p) = n) datos))
                <$> [3; 4; 5; 6; 7]).
Proof.
  rewrite length_filas. unfold UI.maximo, columnas, columna.
  rewrite <- list_fmap_compose. f_equal. apply list_fmap_ext.
  intros _ n _. simpl. by rewrite length_fmap.
Qed.

Lemma celdas_de_fila_columnas h clase datos x k :
  k < 5 →
  UI.celdas_de_fila (columnas h clase datos) x !! k
  = Some (match filter (λ p, String.length (palabra p) = k + 3) datos !! x with
          | Some p => UI.celda h clase p
          | None => "<td></td>"
          end).
Proof.
  intros Hk. unfold UI.celdas_de_fila, columnas. rewrite <- list_fmap_compose.
  do 5 (destruct k as [|k]; [simpl; by rewrite celda_o_vacia_columna|]). lia.
Qed.

(** X8. The table is built exactly when every word has a length from 3 to
    7, and a word of another length makes the function throw.  The table has
    as many rows as the longest column, every row has five cells, and the
    cell of row [x] for the length [k + 3] shows the word number [x] of that
    length, in the order given, or is an empty cell. *)
Theorem X8_tabla_de_resultados (h : Host) (clase : string) (datos : list Palabra) :
  (Forall (λ p, 3 ≤ String.length (palabra p) ≤ 7) datos →
     UI.mostrarPalabrasEncontradas h clase (Some datos)
     = JS.Return (Some (String.concat "" (UI.filas (columnas h clase datos))))
     ∧ length (UI.filas (columnas h clase datos))
       = max_list ((λ n, length (filter (λ p, String.length (palabra p) = n) datos))
                     <$> [3; 4; 5; 6; 7])
     ∧ ∀ x, length (UI.celdas_de_fila (columnas h clase datos) x) = 5
            ∧ ∀ k, k < 5 →
                UI.celdas_de_fila (columnas h clase datos) x !! k
                = Some (match filter (λ p, String.length (palabra p) = k + 3) datos !! x with
                        | Some p => UI.celda h clase p
                        | None => "<td></td>"
                        end))
  ∧ (Exists (λ p, ¬ 3 ≤ String.length (palabra p) ≤ 7) datos →
     UI.mostrarPalabrasEncontradas h clase (Some datos) = JS.Throw JS.TypeError).
Proof.
  split.
  - intros Hok. split; [by apply mostrar_columnas|].
    split; [apply length_filas_columnas|].
    intros x. split; [done|]. intros k Hk. by apply celdas_de_fila_columnas.
  - intros Hex. unfold UI.mostrarPalabrasEncontradas. rewrite llenar_columnas.
    destruct (forallb _ datos) eqn:Hok; [|done].
    apply forallb_longitudes in Hok. apply Exists_exists in Hex as (p & Hin & Hp).
    rewrite Forall_forall in Hok. by destruct (Hp (Hok p Hin)).
Qed.

(** A word of length 2 given to the table. *)
Lemma X8_tabla_de_resultados_witness :
  Exists (λ p, ¬ 3 ≤ String.length (palabra p) ≤ 7)
    [ {| palabra := "SOL"; puntos := 7 |}; {| palabra := "AB"; puntos := 7 |} ]
  ∧ UI.mostrarPalabrasEncontradas host_ejemplo "palenc noselect"
      (Some [ {| palabra := "SOL"; puntos := 7 |}; {| palabra := "AB"; puntos := 7 |} ])
    = JS.Throw JS.TypeError.
Proof.
  assert (Exists (λ p, ¬ 3 ≤ String.length (palabra p) ≤ 7)
            [ {| palabra := "SOL"; puntos := 7 |}; {| palabra := "AB"; puntos := 7 |} ])
    as Hex.
  { apply Exists_cons_tl, Exists_cons_hd. simpl. lia. }
  split; [exact Hex|].
  destruct (X8_tabla_de_resultados host_ejemplo "palenc noselect"
              [ {| palabra := "SOL"; puntos := 7 |}; {| palabra := "AB"; puntos := 7 |} ])
    as [_ H].
  exact (H Hex).
Defined.

(** X9. The table of a ranked result is always built: it has at most ten
    rows, and the cell of row [x] for the length [k + 3] shows the word
    number [x] among the best ten of that length, best first, or is an empty
    cell. *)
Theorem X9_tabla_del_ranking (h : Host) (clase : string) (items : list Item)
    (r : Resultado) :
  procesarPalabras items = JS.Return r →
  UI.mostrarPalabrasEncontradas h clase (Some (palabras (data r)))
  = JS.Return (Some (String.concat "" (UI.filas (columnas h clase (palabras (data r))))))
  ∧ length (UI.filas (columnas h clase (palabras (data r)))) ≤ 10
  ∧ ∀ x k, k < 5 →
      UI.celdas_de_fila (columnas h clase (palabras (data r))) x !! k
      = Some (match mejores_de (k + 3) items !! x with
              | Some p => UI.celda h clase p
              | None => "<td></td>"
              end).
Proof.
  intros [Hok ->]%procesarPalabras_inv. split; [|split].
  - apply mostrar_columnas. apply Forall_forall. intros p. apply longitud_ranking.
  - rewrite length_filas_columnas. cbn [fmap list_fmap max_list max_list_with]. unfold id.
    rewrite !filter_ranking by lia.
    pose proof (mejores_de_length 3 items). pose proof (mejores_de_length 4 items).
    pose proof (mejores_de_length 5 items). pose proof (mejores_de_length 6 items).
    pose proof (mejores_de_length 7 items). lia.
  - intros x k Hk. rewrite celdas_de_fila_columnas by done.
    by rewrite filter_ranking by lia.
Qed.

(** The table of the four sample candidates: three rows, and [MAR - 9]
    heads the first column. *)
Lemma X9_tabla_del_ranking_witness :
  procesarPalabras cuatro_candidatas
  = JS.Return (ordenarYLimitarResultados (grupos_de cuatro_candidatas))
  ∧ length (UI.filas (columnas host_ejemplo "palenc"
                        (palabras (data (ordenarYLimitarResultados
                                           (grupos_de cuatro_candidatas))))))
    ≤ 10
  ∧ UI.celdas_de_fila
      (columnas host_ejemplo "palenc"
         (palabras (data (ordenarYLimitarResultados (grupos_de cuatro_candidatas)))))
      0 !! 0
    = Some (UI.celda host_ejemplo "palenc" {| palabra := "MAR"; puntos := 9 |}).
Proof.
  split; [reflexivity|].
  destruct (X9_tabla_del_ranking host_ejemplo "palenc" cuatro_candidatas _ eq_refl)
    as (_ & Hlen & Hcell).
  split; [exact Hlen|]. exact (Hcell 0 0 ltac:(lia)).
Defined.

(** * The form *)

Lemma ronda_formulario h parseInt formData :
  UI.ronda (UI.obtenerDatosFormulario h parseInt formData) ≠ JS.NaN
  ∧ JS.truthy (JS.Number (UI.ronda (UI.obtenerDatosFormulario h parseInt formData))) = true.
Proof.
  unfold UI.obtenerDatosFormulario. cbn [UI.ronda].
  destruct (JS.truthy (JS.Number (parseInt _))) eqn:Ht.
  - split; [|done]. intros Hnan. by rewrite Hnan in Ht.
  - done.
Qed.

Lemma letras_validas_formulario (d : UI.Datos) :
  letras_validas (UI.letras_js d) ↔ length (UI.letras d) = 7.
Proof.
  unfold letras_validas, UI.letras_js. split.
  - intros (elems & [= <-] & Hlen). by rewrite length_fmap in Hlen.
  - intros Hlen. eexists. split; [done|]. by rewrite length_fmap.
Qed.

Lemma tabla_valida_formulario h parseInt formData :
  tabla_valida (UI.puntosExtra_js (UI.obtenerDatosFormulario h parseInt formData))
  ↔ filas_completas formData.
Proof.
  unfold tabla_valida, UI.puntosExtra_js, UI.obtenerDatosFormulario, filas_completas.
  cbn [UI.puntosExtra]. split.
  - intros (filas & [= <-] & _ & Hfilas) n Hn.
    assert (n = 3 ∨ n = 4 ∨ n = 5 ∨ n = 6 ∨ n = 7) as Hcases by lia.
    destruct Hcases as [->|[->|[->|[->| ->]]]];
      [destruct (Hfilas 0 _ eq_refl) as (elems & [= <-] & Hlen)
      |destruct (Hfilas 1 _ eq_refl) as (elems & [= <-] & Hlen)
      |destruct (Hfilas 2 _ eq_refl) as (elems & [= <-] & Hlen)
      |destruct (Hfilas 3 _ eq_refl) as (elems & [= <-] & Hlen)
      |destruct (Hfilas 4 _ eq_refl) as (elems & [= <-] & Hlen)];
      by rewrite length_fmap in Hlen.
  - intros Hfilas. eexists. split; [done|]. split; [done|].
    intros i fila Hi.
    destruct i as [|[|[|[|[|i]]]]]; [| | | | |done];
      injection Hi as <-; (eexists; split; [done|]); rewrite length_fmap.
    + exact (Hfilas 3 ltac:(lia)).
    + exact (Hfilas 4 ltac:(lia)).
    + exact (Hfilas 5 ltac:(lia)).
    + exact (Hfilas 6 ltac:(lia)).
    + exact (Hfilas 7 ltac:(lia)).
Qed.

Lemma validar_formulario h parseInt formData :
  validarParametros (UI.letras_js (UI.obtenerDatosFormulario h parseInt formData))
    (UI.puntosExtra_js (UI.obtenerDatosFormulario h parseInt formData))
    (UI.ronda_js (UI.obtenerDatosFormulario h parseInt formData))
  = JS.Return ()
  ↔ length (formData "letrasDisponibles[]") = 7
    ∧ filas_completas formData
    ∧ ronda_numero_1_5 (JS.Number (UI.ronda (UI.obtenerDatosFormulario h parseInt formData))).
Proof.
  destruct (ronda_formulario h parseInt formData) as [Hnan Ht].
  assert (JS.Number (UI.ronda (UI.obtenerDatosFormulario h parseInt formData))
          ≠ JS.Number JS.NaN) as Hnan' by congruence.
  pose proof (validarParametros_spec
                (UI.letras_js (UI.obtenerDatosFormulario h parseInt formData))
                (UI.puntosExtra_js (UI.obtenerDatosFormulario h parseInt formData))
                _ Hnan') as Hspec.
  assert (length (UI.letras (UI.obtenerDatosFormulario h parseInt formData))
          = length (formData "letrasDisponibles[]")) as Hlen.
  { unfold UI.obtenerDatosFormulario. cbn [UI.letras]. by rewrite length_fmap. }
  unfold UI.ronda_js.
  destruct (validarParametros _ _ _) as [[]|e].
  - rewrite letras_validas_formulario, tabla_valida_formulario, Hlen in Hspec. done.
  - destruct Hspec as [_ Hno].
    rewrite letras_validas_formulario, tabla_valida_formulario, Hlen in Hno.
    split; [done|]. intros Hok. by destruct Hno.
Qed.

Lemma validar_formulario_error h parseInt formData e :
  validarParametros (UI.letras_js (UI.obtenerDatosFormulario h parseInt formData))
    (UI.puntosExtra_js (UI.obtenerDatosFormulario h parseInt formData))
    (UI.ronda_js (UI.obtenerDatosFormulario h parseInt formData))
  = JS.Throw e →
  ∃ m, e = JS.Error m.
Proof.
  destruct (ronda_formulario h parseInt formData) as [Hnan Ht].
  assert (JS.Number (UI.ronda (UI.obtenerDatosFormulario h parseInt formData))
          ≠ JS.Number JS.NaN) as Hnan' by congruence.
  pose proof (validarParametros_spec
                (UI.letras_js (UI.obtenerDatosFormulario h parseInt formData))
                (UI.puntosExtra_js (UI.obtenerDatosFormulario h parseInt formData))
                _ Hnan') as Hspec.
  unfold UI.ronda_js. intros He. rewrite He in Hspec. by destruct Hspec.
Qed.

(** X10. Whatever the form holds and whatever [parseInt] gives, the round
    handed to the search is a number that is neither NaN nor zero (a missing
    or unreadable round becomes 1), the bonus table has exactly five rows,
    and the parameters pass the validation exactly when there are seven
    letters, every bonus row [n] has [n] entries and the round is between 1
    and 5. *)
Theorem X10_datos_del_formulario (h : Host) (parseInt : option string → JS.number)
    (formData : UI.FormData) :
  let d := UI.obtenerDatosFormulario h parseInt formData in
  UI.ronda d ≠ JS.NaN
  ∧ JS.truthy (JS.Number (UI.ronda d)) = true
  ∧ (JS.truthy (JS.Number (parseInt (UI.FormData_get formData "ronda"))) = false →
     UI.ronda d = JS.Finite 1)
  ∧ length (UI.puntosExtra d) = 5
  ∧ (validarParametros (UI.letras_js d) (UI.puntosExtra_js d) (UI.ronda_js d) = JS.Return ()
     ↔ length (formData "letrasDisponibles[]") = 7
       ∧ filas_completas formData
       ∧ ronda_numero_1_5 (JS.Number (UI.ronda d))).
Proof.
  cbn zeta. destruct (ronda_formulario h parseInt formData) as [Hnan Ht].
  split; [done|]. split; [done|]. split; [|split; [done|]].
  - intros Hf. unfold UI.obtenerDatosFormulario. cbn [UI.ronda]. by rewrite Hf.
  - apply validar_formulario.
Qed.

(** A form whose round field reads [abc]: the round becomes 1 and the
    parameters are valid. *)
Lemma X10_datos_del_formulario_witness :
  JS.truthy (JS.Number (parseInt_ejemplo
                          (UI.FormData_get (formulario_ejemplo "abc") "ronda"))) = false
  ∧ UI.ronda (UI.obtenerDatosFormulario host_ejemplo parseInt_ejemplo
                (formulario_ejemplo "abc")) = JS.Finite 1.
Proof.
  split; [reflexivity|].
  destruct (X10_datos_del_formulario host_ejemplo parseInt_ejemplo (formulario_ejemplo "abc"))
    as (_ & _ & H & _).
  exact (H eq_refl).
Defined.

Lemma buscarPalabras_tras_validar h fetch ls tabla n apiUrl :
  validarParametros (JS.Array (JS.Str <$> ls)) tabla (JS.Number n) = JS.Return () →
  buscarPalabras h fetch (JS.Array (JS.Str <$> ls)) tabla (JS.Number n) apiUrl
  = luego (obtenerPalabrasAPI h fetch (toUpperCase h <$> ls) tabla n apiUrl)
          (λ candidatas, sin_red (procesarPalabras candidatas)).
Proof.
  intros Hv. unfold buscarPalabras. rewrite Hv. cbn [sin_red luego].
  rewrite normalizar_letras. cbn [luego].
  by destruct (luego _ _) as [res urls].
Qed.

(** X11. A submit shows the form's own message, with no request, when there
    are not seven letters; shows a validation [Error], with no request, when
    a bonus row is incomplete or the round is outside 1..5; and otherwise
    issues exactly one request, after which a failed fetch shows a
    [TypeError], a rejection with a message shows that message, and a list
    of words of lengths 3 to 7 shows the table of their ranking. *)
Theorem X11_envio_del_formulario (h : Host) (parseInt : option string → JS.number)
    (fetch : string → RespuestaAPI) (formData : UI.FormData) :
  let d := UI.obtenerDatosFormulario h parseInt formData in
  let peticion :=
    url_consulta h (toUpperCase h <$> UI.letras d) (UI.puntosExtra_js d) (UI.ronda d) UI.url in
  let envio := UI.formularioEnviar h parseInt fetch formData in
  (length (formData "letrasDisponibles[]") ≠ 7 →
     envio = (UI.ModalError (JS.Error "Debes ingresar exactamente 7 letras"), []))
  ∧ (length (formData "letrasDisponibles[]") = 7 →
     ¬ (filas_completas formData ∧ ronda_numero_1_5 (JS.Number (UI.ronda d))) →
     ∃ m, envio = (UI.ModalError (JS.Error m), []))
  ∧ (length (formData "letrasDisponibles[]") = 7 →
     filas_completas formData →
     ronda_numero_1_5 (JS.Number (UI.ronda d)) →
     envio.2 = [peticion]
     ∧ (fetch peticion = FalloDeRed → envio.1 = UI.ModalError JS.TypeError)
     ∧ (∀ m candidatas, fetch peticion = Sobre false (Some m) candidatas → m ≠ "" →
          envio.1 = UI.ModalError (JS.Error m))
     ∧ (∀ m candidatas, fetch peticion = Sobre true m (Some candidatas) →
          Forall (λ item, bien_formado item = true) candidatas →
          envio.1
          = UI.Tabla
              (String.concat ""
                 (UI.filas
                    (columnas h "palenc noselect"
                       (palabras (data (ordenarYLimitarResultados
                                          (grupos_de candidatas))))))))).
Proof.
  cbn zeta. unfold UI.formularioEnviar.
  assert (length (UI.letras (UI.obtenerDatosFormulario h parseInt formData))
          = length (formData "letrasDisponibles[]")) as Hlen.
  { unfold UI.obtenerDatosFormulario. cbn [UI.letras]. by rewrite length_fmap. }
  rewrite Hlen.
  pose proof (validar_formulario h parseInt formData) as Hv.
  set (d := UI.obtenerDatosFormulario h parseInt formData) in *.
  split; [|split].
  - intros Hne. by rewrite bool_decide_true.
  - intros H7 Hno. rewrite bool_decide_false by (by intros []).
    unfold buscarPalabras.
    destruct (validarParametros _ _ _) as [[]|e] eqn:He.
    + destruct Hno. by apply Hv.
    + destruct (validar_formulario_error h parseInt formData e He) as [m ->].
      cbn [sin_red luego]. by exists m.
  - intros H7 Hfilas Hronda. rewrite bool_decide_false by (by intros []).
    unfold UI.letras_js, UI.ronda_js in *.
    rewrite buscarPalabras_tras_validar by (by apply Hv).
    unfold obtenerPalabrasAPI.
    split; [|split; [|split]].
    + destruct (fetch _) as [| |[] m [ps|]]; cbn [luego mret JS.completion_ret];
        try done.
      unfold sin_red. destruct (procesarPalabras ps) as [r|e]; [|done].
      destruct (success r); [|done].
      by destruct (UI.mostrarPalabrasEncontradas _ _ _) as [[]|].
    + intros ->. done.
    + intros m ps -> Hm. cbn [luego fst]. by rewrite bool_decide_false.
    + intros m ps -> Hps. cbn [luego mret JS.completion_ret]. unfold sin_red.
      rewrite procesarPalabras_spec, (proj2 (forallb_bien_formado ps) Hps).
      change (success (ordenarYLimitarResultados (grupos_de ps))) with true.
      cbn iota. rewrite mostrar_columnas; [done|].
      apply Forall_forall. intros p. apply longitud_ranking.
Qed.

(** A form with seven letters, complete rows and round 3: one request. *)
Lemma X11_envio_del_formulario_witness :
  length (formulario_ejemplo "3" "letrasDisponibles[]") = 7
  ∧ filas_completas (formulario_ejemplo "3")
  ∧ (UI.formularioEnviar host_ejemplo parseInt_ejemplo fetch_ejemplo
       (formulario_ejemplo "3")).2
    = ["http://127.0.0.1/api/bpwordzee?letras=C,A,S,E,R,O,N&puntos_extra=[...]&ronda=3"].
Proof.
  assert (filas_completas (formulario_ejemplo "3")) as Hfilas.
  { intros n Hn. assert (n = 3 ∨ n = 4 ∨ n = 5 ∨ n = 6 ∨ n = 7) as Hcases by lia.
    destruct Hcases as [->|[->|[->|[->| ->]]]]; reflexivity. }
  split; [reflexivity|]. split; [exact Hfilas|].
  destruct (X11_envio_del_formulario host_ejemplo parseInt_ejemplo fetch_ejemplo
              (formulario_ejemplo "3")) as (_ & _ & H).
  refine (proj1 (H eq_refl Hfilas _)).
  exists 3%Q. split; [reflexivity|]. split; discriminate.
Defined.

(** * The bonus buttons *)

Lemma limpiar_valor input :
  UI.value (UI.limpiar input) ≠ "DL" ∧ UI.value (UI.limpiar input) ≠ "TL".
Proof.
  unfold UI.limpiar.
  destruct (decide (UI.value input = "DL")) as [H1|H1];
    destruct (decide (UI.value input = "TL")) as [H2|H2];
    rewrite ?(bool_decide_true _ H1), ?(bool_decide_false _ H1),
      ?(bool_decide_true _ H2), ?(bool_decide_false _ H2); simpl; done.
Qed.

Lemma limpiar_otro input :
  UI.value input ≠ "DL" → UI.value input ≠ "TL" → UI.limpiar input = input.
Proof.
  intros H1 H2. unfold UI.limpiar.
  by rewrite (bool_decide_false _ H1), (bool_decide_false _ H2).
Qed.

Lemma colores_tras_add clase cl :
  clase ∈ colores →
  filter (λ c, c ∈ colores) (UI.classList_add clase (UI.classList_remove colores cl))
  = [clase].
Proof.
  intros Hc. unfold UI.classList_add, UI.classList_remove.
  assert (filter (λ c, c ∈ colores) (filter (λ c, c ∉ colores) cl) = []) as Hnil.
  { apply filter_ninguno. apply Forall_forall. by intros c [Hno _]%list_elem_of_filter. }
  rewrite bool_decide_false.
  - rewrite filter_app, Hnil, filter_cons, decide_True by done. done.
  - by intros [Hno _]%list_elem_of_filter.
Qed.

Lemma sin_color_sin_colores cl :
  filter (λ c, c ∈ colores) (UI.classList_remove colores cl) = [].
Proof.
  apply filter_ninguno. apply Forall_forall. by intros c [Hno _]%list_elem_of_filter.
Qed.

(** The three colour classes are tokens [classList.add] accepts. *)
Lemma classList_add_token_color clase cl :
  clase ∈ colores →
  UI.classList_add_token clase cl = (UI.Vuelve, UI.classList_add clase cl).
Proof.
  unfold colores. rewrite !elem_of_cons, elem_of_nil.
  intros [-> | [-> | [-> | []]]]; reflexivity.
Qed.

(** The reads of the two literals for a current value. *)
Lemma lecturas_propias k :
  k = "I" ∨ k = "DL" ∨ k = "TL" →
  ∃ nuevo clase,
    UI.valores k = Some nuevo ∧ UI.clases k = Some clase ∧ clase ∈ colores
    ∧ (k = "I" → nuevo = "DL" ∧ clase = "rosa")
    ∧ (k = "DL" → nuevo = "TL" ∧ clase = "bg-success")
    ∧ (k = "TL" → nuevo = "" ∧ clase = "info").
Proof.
  intros [-> | [-> | ->]].
  - exists "DL", "rosa". repeat split; try done. left.
  - exists "TL", "bg-success". repeat split; try done. right. left.
  - exists "", "info". repeat split; try done. do 2 right. left.
Qed.

Lemma lecturas_ajenas k :
  k ≠ "I" → k ≠ "DL" → k ≠ "TL" → UI.valores k = None ∧ UI.clases k = None.
Proof.
  intros H1 H2 H3. unfold UI.valores, UI.clases.
  by rewrite (bool_decide_false _ H1), (bool_decide_false _ H2), (bool_decide_false _ H3).
Qed.

(** The steps of [cambiarValorBotones] on a button that is no word bonus:
    the row is cleaned, then the target is rewritten. *)
Lemma cambiarValorBotones_pasos proto fila i target :
  fila !! i = Some target →
  UI.value target ≠ "DP" → UI.value target ≠ "TP" →
  let currentValue := if bool_decide (UI.value target = "") then "I" else UI.value target in
  let sin_color := UI.classList_remove colores (UI.classList (UI.limpiar target)) in
  let clase := UI.leer proto UI.clases currentValue in
  let final :=
    if UI.verdadera clase then UI.classList_add_token (UI.como_texto clase) sin_color
    else (UI.Vuelve, sin_color) in
  UI.cambiarValorBotones proto fila i
  = Some (final.1,
          <[i := {| UI.value := UI.como_texto (UI.leer proto UI.valores currentValue);
                    UI.classList := final.2 |}]> (UI.limpiar <$> fila)).
Proof.
  intros Hi Hdp Htp. cbn zeta. unfold UI.cambiarValorBotones. rewrite Hi.
  cbn [mbind option_bind].
  assert ((if bool_decide (UI.value target = "") then "I" else UI.value target) ≠ "DP"
          ∧ (if bool_decide (UI.value target = "") then "I" else UI.value target) ≠ "TP")
    as [H1 H2].
  { case_bool_decide; [split; discriminate|done]. }
  rewrite (bool_decide_false _ H1), (bool_decide_false _ H2). cbn [orb].
  rewrite list_lookup_fmap, Hi. cbn [fmap option_fmap option_map mbind option_bind].
  fold colores.
  by destruct (if UI.verdadera _ then _ else _) as [fin cl].
Qed.

(** X12. A click on a word-bonus button ([DP] or [TP]) changes nothing in
    the row, and the handler returns. *)
Theorem X12_bonus_de_palabra_inerte (proto : UI.Prototipo) (fila : list UI.Input) (i : nat)
    (target : UI.Input) :
  fila !! i = Some target →
  UI.value target = "DP" ∨ UI.value target = "TP" →
  UI.cambiarValorBotones proto fila i = Some (UI.Vuelve, fila).
Proof.
  intros Hi Hv. unfold UI.cambiarValorBotones. rewrite Hi. cbn [mbind option_bind].
  by destruct Hv as [-> | ->].
Qed.

(** The word bonus of the sample row. *)
Lemma X12_bonus_de_palabra_inerte_witness :
  fila_ejemplo !! 2 = Some {| UI.value := "DP"; UI.classList := ["btn"] |}
  ∧ UI.cambiarValorBotones prototipo_ejemplo fila_ejemplo 2 = Some (UI.Vuelve, fila_ejemplo).
Proof.
  split; [reflexivity|].
  apply (X12_bonus_de_palabra_inerte prototipo_ejemplo fila_ejemplo 2 _ eq_refl).
  left. reflexivity.
Defined.

(** X13. A click on a button that is no word bonus, whatever it holds,
    always leaves a row of the same length in which no other button holds a
    letter bonus ([DL] or [TL]): those that did are emptied and coloured
    [info], and the buttons that held none, word bonuses included, are
    untouched.  The handler returns unless the text held is the name of an
    inherited property; a button that holds a text other than the empty one,
    [I], [DL] and [TL], and no such name, ends up holding the text
    [undefined], with no colour class. *)
Theorem X13_un_bonus_de_letra_por_fila (proto : UI.Prototipo) (fila : list UI.Input)
    (i : nat) (target : UI.Input) :
  fila !! i = Some target →
  UI.value target ≠ "DP" → UI.value target ≠ "TP" →
  ∃ fin fila',
    UI.cambiarValorBotones proto fila i = Some (fin, fila')
    ∧ length fila' = length fila
    ∧ (∀ j input, j ≠ i → fila !! j = Some input →
         ∃ input', fila' !! j = Some input'
                   ∧ UI.value input' ≠ "DL" ∧ UI.value input' ≠ "TL"
                   ∧ (UI.value input ≠ "DL" → UI.value input ≠ "TL" → input' = input)
                   ∧ (UI.value input = "DL" ∨ UI.value input = "TL" →
                      UI.value input' = ""
                      ∧ filter (λ c, c ∈ colores) (UI.classList input') = ["info"]))
    ∧ (proto (UI.value target) = None → fin = UI.Vuelve)
    ∧ (UI.value target ≠ "" → UI.value target ≠ "I" →
       UI.value target ≠ "DL" → UI.value target ≠ "TL" →
       proto (UI.value target) = None →
       ∃ target', fila' !! i = Some target'
                  ∧ UI.value target' = "undefined"
                  ∧ filter (λ c, c ∈ colores) (UI.classList target') = []).
Proof.
  intros Hi Hdp Htp.
  pose proof (cambiarValorBotones_pasos proto fila i target Hi Hdp Htp) as Hc.
  cbn zeta in Hc. eexists _, _. split; [exact Hc|].
  assert (i < length (UI.limpiar <$> fila)) as Hlt.
  { rewrite length_fmap. by eapply lookup_lt_Some. }
  split; [by rewrite length_insert, length_fmap|].
  split; [|split].
  - intros j input Hj Hin. exists (UI.limpiar input).
    split; [by rewrite list_lookup_insert_ne, list_lookup_fmap, Hin|].
    destruct (limpiar_valor input) as [H1 H2].
    split; [done|]. split; [done|]. split; [apply limpiar_otro|].
    intros Hv. unfold UI.limpiar.
    assert (bool_decide (UI.value input = "DL") || bool_decide (UI.value input = "TL") = true)
      as ->.
    { destruct Hv as [-> | ->]; done. }
    split; [done|]. cbn [UI.classList]. apply colores_tras_add. do 2 right. left.
  - intros Hproto.
    destruct (decide ((if bool_decide (UI.value target = "") then "I" else UI.value target)
                      = "I"
                      ∨ (if bool_decide (UI.value target = "") then "I" else UI.value target)
                        = "DL"
                      ∨ (if bool_decide (UI.value target = "") then "I" else UI.value target)
                        = "TL")) as [Hk|Hk].
    + destruct (lecturas_propias _ Hk) as (nuevo & clase & _ & Hcl & Hcolor & _).
      unfold UI.leer. rewrite Hcl. cbn [UI.verdadera UI.como_texto].
      assert (clase ≠ "") as Hne.
      { intros ->. unfold colores in Hcolor.
        rewrite !elem_of_cons, elem_of_nil in Hcolor.
        by destruct Hcolor as [?|[?|[?|[]]]]. }
      rewrite (bool_decide_false _ Hne). cbn [negb].
      by rewrite classList_add_token_color.
    + assert (UI.value target ≠ "") as Hv.
      { intros Hv. apply Hk. left. by rewrite (bool_decide_true _ Hv). }
      rewrite (bool_decide_false _ Hv) in Hk |- *.
      destruct (lecturas_ajenas (UI.value target)) as [_ Hcl]; [tauto..|].
      unfold UI.leer. by rewrite Hcl, Hproto.
  - intros Hv HI Hdl Htl Hproto. eexists. split; [by apply list_lookup_insert_eq|].
    rewrite (bool_decide_false _ Hv).
    destruct (lecturas_ajenas (UI.value target) HI Hdl Htl) as [Hval Hcl].
    unfold UI.leer. rewrite Hval, Hcl, Hproto. cbn.
    split; [done|]. apply sin_color_sin_colores.
Qed.

(** The first button of a row holds [X] and is clicked: the handler
    returns, the second button loses its [TL], and the first ends up holding
    the text [undefined].  When it holds [constructor] instead, the row is
    cleaned all the same and the handler ends in [classList.add]. *)
Lemma X13_un_bonus_de_letra_por_fila_witness :
  fila_con_otro_valor !! 0 = Some {| UI.value := "X"; UI.classList := ["btn"; "rosa"] |}
  ∧ UI.cambiarValorBotones prototipo_ejemplo fila_con_otro_valor 0
    = Some (UI.Vuelve,
            [ {| UI.value := "undefined"; UI.classList := ["btn"] |};
              {| UI.value := ""; UI.classList := ["btn"; "info"] |} ])
  ∧ UI.cambiarValorBotones prototipo_ejemplo fila_con_constructor 0
    = Some (UI.Lanza "InvalidCharacterError",
            [ {| UI.value := "function Object() { [native code] }";
                 UI.classList := ["btn"] |};
              {| UI.value := ""; UI.classList := ["btn"; "info"] |} ])
  ∧ ∃ fin fila',
      UI.cambiarValorBotones prototipo_ejemplo fila_con_otro_valor 0 = Some (fin, fila')
      ∧ length fila' = 2
      ∧ ∃ input', fila' !! 1 = Some input' ∧ UI.value input' = "".
Proof.
  split; [reflexivity|]. split; [reflexivity|]. split; [reflexivity|].
  destruct (X13_un_bonus_de_letra_por_fila prototipo_ejemplo fila_con_otro_valor 0 _ eq_refl
              ltac:(discriminate) ltac:(discriminate))
    as (fin & fila' & Hc & Hlen & Hotros & _).
  exists fin, fila'. split; [exact Hc|]. split; [exact Hlen|].
  destruct (Hotros 1 _ ltac:(lia) eq_refl) as (input' & Hin & _ & _ & _ & Hlimpio).
  exists input'. split; [exact Hin|]. apply Hlimpio. right. reflexivity.
Defined.

(** X14. A click moves a button one step along empty, [DL], [TL], empty,
    and leaves it with exactly one of the three colour classes: [rosa] for
    [DL], [bg-success] for [TL], [info] for empty; the handler returns, and
    three clicks on an empty button bring it back to empty. *)
Theorem X14_ciclo_de_un_boton (proto : UI.Prototipo) (fila : list UI.Input) (i : nat)
    (target : UI.Input) :
  fila !! i = Some target →
  UI.value target = "" ∨ UI.value target = "DL" ∨ UI.value target = "TL" →
  ∃ fila' target',
    UI.cambiarValorBotones proto fila i = Some (UI.Vuelve, fila')
    ∧ fila' !! i = Some target'
    ∧ (UI.value target = "" →
       UI.value target' = "DL"
       ∧ filter (λ c, c ∈ colores) (UI.classList target') = ["rosa"])
    ∧ (UI.value target = "DL" →
       UI.value target' = "TL"
       ∧ filter (λ c, c ∈ colores) (UI.classList target') = ["bg-success"])
    ∧ (UI.value target = "TL" →
       UI.value target' = ""
       ∧ filter (λ c, c ∈ colores) (UI.classList target') = ["info"])
    ∧ (UI.value target = "" →
       ∃ fila2 fila3 target3,
         UI.cambiarValorBotones proto fila' i = Some (UI.Vuelve, fila2)
         ∧ UI.cambiarValorBotones proto fila2 i = Some (UI.Vuelve, fila3)
         ∧ fila3 !! i = Some target3
         ∧ UI.value target3 = "").
Proof.
  assert (∀ f t, f !! i = Some t →
            UI.value t = "" ∨ UI.value t = "DL" ∨ UI.value t = "TL" →
            ∃ f' t' nuevo clase,
              UI.cambiarValorBotones proto f i = Some (UI.Vuelve, f')
              ∧ f' !! i = Some t'
              ∧ UI.value t' = nuevo
              ∧ filter (λ c, c ∈ colores) (UI.classList t') = [clase]
              ∧ (UI.value t = "" → nuevo = "DL" ∧ clase = "rosa")
              ∧ (UI.value t = "DL" → nuevo = "TL" ∧ clase = "bg-success")
              ∧ (UI.value t = "TL" → nuevo = "" ∧ clase = "info")) as Hpaso.
  { intros f t Hf Hv.
    assert (i < length (UI.limpiar <$> f)) as Hlt.
    { rewrite length_fmap. by eapply lookup_lt_Some. }
    assert (UI.value t ≠ "DP" ∧ UI.value t ≠ "TP") as [Hdp Htp].
    { destruct Hv as [-> | [-> | ->]]; split; discriminate. }
    pose proof (cambiarValorBotones_pasos proto f i t Hf Hdp Htp) as Hc. cbn zeta in Hc.
    assert ((if bool_decide (UI.value t = "") then "I" else UI.value t) = "I"
            ∨ (if bool_decide (UI.value t = "") then "I" else UI.value t) = "DL"
            ∨ (if bool_decide (UI.value t = "") then "I" else UI.value t) = "TL") as Hk.
    { destruct Hv as [-> | [-> | ->]]; [by left|right; by left|right; by right]. }
    destruct (lecturas_propias _ Hk) as (nuevo & clase & Hval & Hcl & Hcolor & H0 & H1 & H2).
    assert (clase ≠ "") as Hne.
    { intros ->. unfold colores in Hcolor. rewrite !elem_of_cons, elem_of_nil in Hcolor.
      by destruct Hcolor as [?|[?|[?|[]]]]. }
    unfold UI.leer in Hc. rewrite Hval, Hcl in Hc. cbn [UI.verdadera UI.como_texto] in Hc.
    rewrite (bool_decide_false _ Hne) in Hc. cbn [negb] in Hc.
    rewrite classList_add_token_color in Hc by done. cbn [fst snd] in Hc.
    eexists _, _, nuevo, clase. split; [exact Hc|].
    split; [by apply list_lookup_insert_eq|]. split; [done|].
    split; [by apply colores_tras_add|].
    split; [|split].
    - intros Hvacio. apply H0. by rewrite Hvacio.
    - intros Hdl. apply H1. by rewrite Hdl.
    - intros Htl. apply H2. by rewrite Htl. }
  intros Hi Hv.
  destruct (Hpaso fila target Hi Hv) as (f1 & t1 & n1 & c1 & Hc1 & Ht1 & Hn1 & Hcl1 & H0 & H1 & H2).
  exists f1, t1. split; [done|]. split; [done|].
  split; [|split; [|split]].
  - intros Hvacio. destruct (H0 Hvacio) as [-> ->]. done.
  - intros Hdl. destruct (H1 Hdl) as [-> ->]. done.
  - intros Htl. destruct (H2 Htl) as [-> ->]. done.
  - intros Hvacio. destruct (H0 Hvacio) as [-> ->].
    destruct (Hpaso f1 t1 Ht1 ltac:(by right; left))
      as (f2 & t2 & n2 & c2 & Hc2 & Ht2 & Hn2 & _ & _ & H1' & _).
    destruct (H1' Hn1) as [-> _].
    destruct (Hpaso f2 t2 Ht2 ltac:(by right; right))
      as (f3 & t3 & n3 & c3 & Hc3 & Ht3 & Hn3 & _ & _ & _ & H2').
    destruct (H2' Hn2) as [-> _].
    by exists f2, f3, t3.
Qed.

(** The empty button of the sample row becomes [DL], coloured [rosa]. *)
Lemma X14_ciclo_de_un_boton_witness :
  fila_ejemplo !! 1 = Some {| UI.value := ""; UI.classList := ["btn"; "info"] |}
  ∧ ∃ fila' target',
      UI.cambiarValorBotones prototipo_ejemplo fila_ejemplo 1 = Some (UI.Vuelve, fila')
      ∧ fila' !! 1 = Some target'
      ∧ UI.value target' = "DL"
      ∧ filter (λ c, c ∈ colores) (UI.classList target') = ["rosa"].
Proof.
  split; [reflexivity|].
  destruct (X14_ciclo_de_un_boton prototipo_ejemplo fila_ejemplo 1 _ eq_refl ltac:(by left))
    as (fila' & target' & Hc & Ht & H0 & _).
  exists fila', target'. split; [exact Hc|]. split; [exact Ht|]. exact (H0 eq_refl).
Defined.

(** * Further properties of the service worker *)

Lemma fetch_all_spec red urls :
  match SW.fetch_all red urls with
  | Some rs =>
      rs.*1 = urls
      ∧ Forall (λ ur, red ur.1 = Some ur.2 ∧ SW.ok ur.2 = true) rs
  | None => ¬ Forall (λ u, ∃ r, red u = Some r ∧ SW.ok r = true) urls
  end.
Proof.
  induction urls as [|u urls IH]; simpl; [done|].
  destruct (red u) as [r|] eqn:Hr.
  2:{ intros [(r & Hr' & _) _]%Forall_cons. congruence. }
  destruct (SW.ok r) eqn:Hok.
  2:{ intros [(r' & Hr' & Hok') _]%Forall_cons. congruence. }
  destruct (SW.fetch_all red urls) as [rs|]; csimpl.
  - destruct IH as [Hurls Hrs]. split; [by f_equal|]. by constructor.
  - intros [_ Hall]%Forall_cons. by apply IH.
Qed.

(** X15. The install succeeds exactly when every same-origin asset of the
    manifest is fetched with an ok status; what happens to the third-party
    assets has no part in it. *)
Theorem X15_install_exige_los_recursos_propios (version : string)
    (resolver : string → string) (red : SW.Red) (st : SW.Estado) :
  (SW.on_install version resolver red st).1 = true
  ↔ ∀ u, u ∈ SW.PRECACHE_URLS → ∃ r, red (resolver u) = Some r ∧ SW.ok r = true.
Proof.
  unfold SW.on_install, SW.addAll.
  pose proof (fetch_all_spec red (resolver <$> SW.PRECACHE_URLS)) as Hspec.
  destruct (SW.fetch_all red (resolver <$> SW.PRECACHE_URLS)) as [rs|].
  - destruct (SW.fetch_all red (resolver <$> SW.EXTERNAL_URLS)); cbn [fst];
      (split; [intros _|done]); destruct Hspec as [Hurls Hrs];
      intros u Hu;
      (assert (resolver u ∈ rs.*1) as Hin
         by (rewrite Hurls; apply list_elem_of_fmap; by exists u));
      apply list_elem_of_fmap in Hin as ([u' r] & -> & Hin);
      rewrite Forall_forall in Hrs; destruct (Hrs _ Hin) as [Hr Hok]; by exists r.
  - destruct (SW.fetch_all red (resolver <$> SW.EXTERNAL_URLS)); cbn [fst];
      (split; [done|]); intros Hall; destruct Hspec;
      apply Forall_forall; intros u' (u & -> & Hu)%list_elem_of_fmap; by apply Hall.
Qed.

(** An install from a network that serves everything succeeds, so the page
    itself was fetched with an ok status. *)
Lemma X15_install_exige_los_recursos_propios_witness :
  (SW.on_install SW.VERSION resolver_ejemplo red_200 estado_inicial).1 = true
  ∧ ∃ r, red_200 (resolver_ejemplo "./index.html") = Some r ∧ SW.ok r = true.
Proof.
  split; [reflexivity|].
  apply (proj1 (X15_install_exige_los_recursos_propios SW.VERSION resolver_ejemplo red_200
                  estado_inicial) eq_refl).
  right. left.
Defined.

Lemma caches_match_put_some name url r cs :
  name ∈ SW.caches_keys cs → is_Some (SW.caches_match (SW.cache_put name url r cs) url).
Proof.
  intros Hin. destruct (SW.caches_match cs url) eqn:Hm.
  - apply caches_match_put_conserva. by rewrite Hm.
  - rewrite caches_match_put by done. by eexists.
Qed.

Lemma put_all_conserva name rs cs url :
  is_Some (SW.caches_match cs url) → is_Some (SW.caches_match (SW.put_all name rs cs) url).
Proof.
  unfold SW.put_all. revert cs.
  induction rs as [|[u r] rs IH]; intros cs Hs; cbn [foldl fst snd]; [done|].
  by apply IH, caches_match_put_conserva.
Qed.

Lemma put_all_some name rs cs url r :
  name ∈ SW.caches_keys cs → (url, r) ∈ rs →
  is_Some (SW.caches_match (SW.put_all name rs cs) url).
Proof.
  unfold SW.put_all. revert cs.
  induction rs as [|[u r'] rs IH]; intros cs Hname Hin; cbn [foldl fst snd].
  - by apply elem_of_nil in Hin.
  - apply elem_of_cons in Hin as [[= <- <-]|Hin].
    + apply (put_all_conserva name rs). by apply caches_match_put_some.
    + apply IH; [|done]. by rewrite cache_put_keys.
Qed.

Lemma addAll_conserva resolver red name urls cs url :
  is_Some (SW.caches_match cs url) →
  is_Some (SW.caches_match (SW.addAll resolver red name urls cs).2 url).
Proof.
  intros Hs. unfold SW.addAll. destruct (SW.fetch_all _ _); cbn [snd]; [|done].
  by apply put_all_conserva.
Qed.

Lemma caches_open_conserva name cs url :
  is_Some (SW.caches_match cs url) →
  is_Some (SW.caches_match (SW.caches_open name cs) url).
Proof. by rewrite caches_match_open. Qed.

(** Installing never loses an entry. *)
Lemma on_install_conserva version resolver red st url :
  is_Some (SW.caches_match (SW.caches st) url) →
  is_Some (SW.caches_match (SW.caches (SW.on_install version resolver red st).2) url).
Proof.
  intros Hs. unfold SW.on_install.
  pose proof (addAll_conserva resolver red (SW.CACHE_NAME version) SW.PRECACHE_URLS
                (SW.caches_open (SW.CACHE_NAME version) (SW.caches st)) url
                (caches_open_conserva _ _ _ Hs)) as H1.
  destruct (SW.addAll resolver red (SW.CACHE_NAME version) _ _) as [ok1 cs1].
  pose proof (addAll_conserva resolver red (SW.CACHE_NAME_EXTERNAL version) SW.EXTERNAL_URLS
                (SW.caches_open (SW.CACHE_NAME_EXTERNAL version) cs1) url
                (caches_open_conserva _ _ _ H1)) as H2.
  by destruct (SW.addAll resolver red (SW.CACHE_NAME_EXTERNAL version) _ _) as [ok2 cs2].
Qed.

Lemma coherente_match red cs url r :
  coherente red cs → SW.caches_match cs url = Some r → red url = Some r.
Proof.
  intros Hc. induction cs as [|[k cache] cs IH]; simpl; [done|].
  destruct (cache !! url) as [r'|] eqn:Hr.
  - intros [= <-]. apply (Hc k cache); [left|done].
  - apply IH. intros name cache' url' r' Hin. apply (Hc name cache'). by right.
Qed.

Lemma coherente_put red name url r cs :
  red url = Some r → coherente red cs → coherente red (SW.cache_put name url r cs).
Proof.
  intros Hr Hc. induction cs as [|[k cache] cs IH]; csimpl; [done|].
  assert (coherente red cs) as Hcs.
  { intros n c u' r' Hin. apply (Hc n c). by right. }
  case_bool_decide as Hk.
  - intros n c u' r' [[= -> ->]|Hin]%elem_of_cons.
    + destruct (decide (url = u')) as [<-|Hne].
      * rewrite lookup_insert_eq. by intros [= <-].
      * rewrite lookup_insert_ne by done. apply (Hc k cache). left.
    + by apply (Hcs n c).
  - intros n c u' r' [[= -> ->]|Hin]%elem_of_cons.
    + apply (Hc k cache). left.
    + by apply (IH Hcs n c).
Qed.

Lemma coherente_open red name cs : coherente red cs → coherente red (SW.caches_open name cs).
Proof.
  intros Hc. unfold SW.caches_open. case_bool_decide; [done|].
  intros n c u r [Hin|[= -> ->]%list_elem_of_singleton]%elem_of_app.
  - by apply (Hc n c).
  - by rewrite lookup_empty.
Qed.

Lemma coherente_addAll resolver red name urls cs :
  coherente red cs → coherente red (SW.addAll resolver red name urls cs).2.
Proof.
  intros Hc. unfold SW.addAll.
  pose proof (fetch_all_spec red (resolver <$> urls)) as Hspec.
  destruct (SW.fetch_all _ _) as [rs|]; cbn [snd]; [|done].
  destruct Hspec as [_ Hrs]. unfold SW.put_all. revert cs Hc.
  induction Hrs as [|[u r] rs [Hr _] _ IH]; intros cs Hc; cbn [foldl fst snd]; [done|].
  apply IH. by apply coherente_put.
Qed.

Lemma coherente_install version resolver red st :
  coherente red (SW.caches st) →
  coherente red (SW.caches (SW.on_install version resolver red st).2).
Proof.
  intros Hc. unfold SW.on_install.
  pose proof (coherente_addAll resolver red (SW.CACHE_NAME version) SW.PRECACHE_URLS
                _ (coherente_open red (SW.CACHE_NAME version) _ Hc)) as H1.
  destruct (SW.addAll resolver red (SW.CACHE_NAME version) _ _) as [ok1 cs1].
  pose proof (coherente_addAll resolver red (SW.CACHE_NAME_EXTERNAL version)
                SW.EXTERNAL_URLS _
                (coherente_open red (SW.CACHE_NAME_EXTERNAL version) _ H1)) as H2.
  by destruct (SW.addAll resolver red (SW.CACHE_NAME_EXTERNAL version) _ _) as [ok2 cs2].
Qed.

Lemma on_install_precache version resolver red st u :
  (SW.on_install version resolver red st).1 = true →
  u ∈ SW.PRECACHE_URLS →
  is_Some (SW.caches_match (SW.caches (SW.on_install version resolver red st).2) (resolver u)).
Proof.
  unfold SW.on_install. intros Hok Hu.
  assert (is_Some (SW.caches_match
                     (SW.addAll resolver red (SW.CACHE_NAME version) SW.PRECACHE_URLS
                        (SW.caches_open (SW.CACHE_NAME version) (SW.caches st))).2
                     (resolver u))) as H1.
  { unfold SW.addAll in *.
    pose proof (fetch_all_spec red (resolver <$> SW.PRECACHE_URLS)) as Hspec.
    destruct (SW.fetch_all red (resolver <$> SW.PRECACHE_URLS)) as [rs|].
    2:{ by destruct (SW.fetch_all red (resolver <$> SW.EXTERNAL_URLS)). }
    destruct Hspec as [Hurls _]. cbn [snd].
    assert (resolver u ∈ rs.*1) as Hin.
    { rewrite Hurls. apply list_elem_of_fmap. by exists u. }
    apply list_elem_of_fmap in Hin as ([u' r] & Heq & Hin). simpl in Heq. subst u'.
    apply (put_all_some _ _ _ _ r); [apply caches_open_keys|done]. }
  destruct (SW.addAll resolver red (SW.CACHE_NAME version) _ _) as [ok1 cs1].
  pose proof (addAll_conserva resolver red (SW.CACHE_NAME_EXTERNAL version) SW.EXTERNAL_URLS
                (SW.caches_open (SW.CACHE_NAME_EXTERNAL version) cs1) (resolver u)
                (caches_open_conserva _ _ _ H1)) as H2.
  by destruct (SW.addAll resolver red (SW.CACHE_NAME_EXTERNAL version) _ _) as [ok2 cs2].
Qed.

(** A request that is not to the API and whose URL some cache holds is
    served from the caches, whatever its origin. *)
Lemma on_fetch_acierto version location_origin red st request cached :
  SW.es_api request = false →
  SW.caches_match (SW.caches st) (SW.href request) = Some cached →
  SW.on_fetch version location_origin red st request
  = {| SW.respuesta := Some cached; SW.peticiones := []; SW.estado := st |}.
Proof.
  intros Hapi Hc. unfold SW.on_fetch. rewrite Hapi, Hc. by case_bool_decide.
Qed.

(** X16. After a successful install, every asset of the same-origin
    manifest is served from the caches with no network fetch, whatever the
    network then does; when the caches held nothing but answers of the
    network of the install, the response is the one fetched by the
    install. *)
Theorem X16_precache_disponible_sin_red (version location_origin : string)
    (resolver : string → string) (red red' : SW.Red) (st : SW.Estado) (u : string)
    (request : SW.Request) :
  (SW.on_install version resolver red st).1 = true →
  u ∈ SW.PRECACHE_URLS →
  SW.href request = resolver u →
  SW.es_api request = false →
  let instalado := (SW.on_install version resolver red st).2 in
  let s := SW.on_fetch version location_origin red' instalado request in
  SW.peticiones s = []
  ∧ is_Some (SW.respuesta s)
  ∧ SW.estado s = instalado
  ∧ (coherente red (SW.caches st) → SW.respuesta s = red (resolver u)).
Proof.
  intros Hok Hu Hhref Hapi. cbn zeta.
  destruct (on_install_precache version resolver red st u Hok Hu) as [cached Hc].
  rewrite <- Hhref in Hc.
  rewrite (on_fetch_acierto _ _ _ _ _ cached Hapi Hc). cbn.
  split; [done|]. split; [by eexists|]. split; [done|].
  intros Hcoh. symmetry. rewrite <- Hhref.
  eapply coherente_match; [|exact Hc]. by apply coherente_install.
Qed.

(** The style sheet of the page, installed from a network that serves
    everything and requested while the network is down. *)
Lemma X16_precache_disponible_sin_red_witness :
  (SW.on_install SW.VERSION resolver_ejemplo red_200 estado_inicial).1 = true
  ∧ "./front/index.css" ∈ SW.PRECACHE_URLS
  ∧ SW.es_api peticion_css = false
  ∧ SW.peticiones
      (SW.on_fetch SW.VERSION origen_ejemplo sin_red_alguna
         (SW.on_install SW.VERSION resolver_ejemplo red_200 estado_inicial).2 peticion_css)
    = []
  ∧ SW.respuesta
      (SW.on_fetch SW.VERSION origen_ejemplo sin_red_alguna
         (SW.on_install SW.VERSION resolver_ejemplo red_200 estado_inicial).2 peticion_css)
    = Some respuesta_200.
Proof.
  assert ("./front/index.css" ∈ SW.PRECACHE_URLS) as Hu.
  { do 2 right. left. }
  split; [reflexivity|]. split; [exact Hu|]. split; [reflexivity|].
  destruct (X16_precache_disponible_sin_red SW.VERSION origen_ejemplo resolver_ejemplo red_200
              sin_red_alguna estado_inicial "./front/index.css" peticion_css
              eq_refl Hu eq_refl eq_refl) as (Hp & _ & _ & Hr).
  split; [exact Hp|]. apply Hr.
  intros name cache url r Hin. apply elem_of_nil in Hin. destruct Hin.
Defined.

Lemma caches_open_keys_inv name name' cs :
  name' ∈ SW.caches_keys (SW.caches_open name cs) → name' = name ∨ name' ∈ SW.caches_keys cs.
Proof.
  unfold SW.caches_open. case_bool_decide; [by right|].
  unfold SW.caches_keys. rewrite fmap_app, elem_of_app.
  intros [Hin|Hin]; [by right|]. left. simpl in Hin.
  by apply list_elem_of_singleton in Hin.
Qed.

Lemma on_install_keys_inv version resolver red st name :
  name ∈ SW.caches_keys (SW.caches (SW.on_install version resolver red st).2) →
  (name = SW.CACHE_NAME version ∨ name = SW.CACHE_NAME_EXTERNAL version)
  ∨ name ∈ SW.caches_keys (SW.caches st).
Proof.
  unfold SW.on_install.
  pose proof (addAll_keys resolver red (SW.CACHE_NAME version) SW.PRECACHE_URLS
                (SW.caches_open (SW.CACHE_NAME version) (SW.caches st))) as H1.
  destruct (SW.addAll resolver red (SW.CACHE_NAME version) _ _) as [ok1 cs1].
  pose proof (addAll_keys resolver red (SW.CACHE_NAME_EXTERNAL version) SW.EXTERNAL_URLS
                (SW.caches_open (SW.CACHE_NAME_EXTERNAL version) cs1)) as H2.
  destruct (SW.addAll resolver red (SW.CACHE_NAME_EXTERNAL version) _ _) as [ok2 cs2].
  cbn [snd SW.caches] in *. rewrite H2.
  intros [->|Hin]%caches_open_keys_inv; [left; by right|].
  rewrite H1 in Hin. apply caches_open_keys_inv in Hin as [->|Hin]; [left; by left|by right].
Qed.

Lemma on_install_pendientes version resolver red st :
  SW.pendientes (SW.on_install version resolver red st).2 = SW.pendientes st.
Proof. unfold SW.on_install. by do 2 destruct (SW.addAll _ _ _ _ _). Qed.

Lemma foldl_ejecutar_keys (P : string → Prop) ts cs :
  Forall (λ t, match t with SW.AbrirYGuardar name _ _ => P name end) ts →
  (∀ name, name ∈ SW.caches_keys cs → P name) →
  ∀ name, name ∈ SW.caches_keys (foldl SW.ejecutar cs ts) → P name.
Proof.
  intros Hts. revert cs.
  induction Hts as [|[n u r] ts Hn _ IH]; intros cs Hcs; cbn [foldl]; [done|].
  apply IH. intros name. simpl. rewrite cache_put_keys.
  intros [->|Hin]%caches_open_keys_inv; [done|by apply Hcs].
Qed.

Lemma de_una_version_install version resolver red st :
  de_una_version version st →
  de_una_version version (SW.on_install version resolver red st).2.
Proof.
  intros [Hk Hp]. split.
  - intros name [Hn|Hin]%on_install_keys_inv; [done|by apply Hk].
  - by rewrite on_install_pendientes.
Qed.

Lemma de_una_version_activate version st :
  Forall (λ t, match t with
               | SW.AbrirYGuardar name _ _ =>
                   name = SW.CACHE_NAME version ∨ name = SW.CACHE_NAME_EXTERNAL version
               end) (SW.pendientes st) →
  de_una_version version (SW.on_activate version st).
Proof.
  intros Hp. split; [|done]. by intros name [Hn _]%on_activate_keys.
Qed.

Lemma de_una_version_diferir version url r st :
  de_una_version version st →
  de_una_version version
    (SW.diferir (SW.AbrirYGuardar (SW.CACHE_NAME_EXTERNAL version) url r) st).
Proof.
  intros [Hk Hp]. split; [done|]. cbn [SW.diferir SW.pendientes].
  apply Forall_app. split; [done|]. apply Forall_singleton. by right.
Qed.

Lemma de_una_version_fetch version location_origin red st request :
  de_una_version version st →
  de_una_version version (SW.estado (SW.on_fetch version location_origin red st request)).
Proof.
  intros Hinv. unfold SW.on_fetch.
  destruct (SW.es_api request).
  { by destruct (red (SW.href request)). }
  case_bool_decide.
  - destruct (SW.caches_match _ _); [done|].
    destruct (red (SW.href request)) as [response|]; [|done].
    cbn [SW.estado]. case_bool_decide; [|done]. by apply de_una_version_diferir.
  - by destruct (SW.caches_match _ _).
Qed.

Lemma de_una_version_asentar version st :
  de_una_version version st → de_una_version version (SW.asentar st).
Proof.
  intros [Hk Hp]. split; [|constructor].
  cbn [SW.asentar SW.caches].
  by apply (foldl_ejecutar_keys
              (λ name, name = SW.CACHE_NAME version ∨ name = SW.CACHE_NAME_EXTERNAL version)).
Qed.

Lemma de_una_version_message version st data :
  de_una_version version st → de_una_version version (SW.on_message st data).
Proof.
  intros Hinv. unfold SW.on_message.
  destruct (negb (JS.truthy data)); [done|].
  destruct data as [| | | | | |props]; try done.
  destruct (JS.get_prop "type" props); try done.
  by case_bool_decide.
Qed.

Lemma de_una_version_paso version location_origin st e :
  de_una_version version st → de_una_version version (paso version location_origin st e).
Proof.
  intros Hinv. destruct e as [resolver red| |red request| |data]; simpl.
  - by apply de_una_version_install.
  - apply de_una_version_activate. by destruct Hinv.
  - by apply de_una_version_fetch.
  - by apply de_una_version_asentar.
  - by apply de_una_version_message.
Qed.

(** X17. Once the worker of a version has been activated with no write
    pending, whatever events it handles afterwards (installs, activations,
    requests of any kind, completion of pending writes, messages), the cache
    storage holds no cache but the two named after that version, and every
    write still pending goes to one of them. *)
Theorem X17_solo_los_caches_de_la_version (version location_origin : string)
    (st0 : SW.Estado) (eventos : list Evento) :
  SW.pendientes st0 = [] →
  let st := foldl (paso version location_origin) (SW.on_activate version st0) eventos in
  (∀ name, name ∈ SW.caches_keys (SW.caches st) →
     name = SW.CACHE_NAME version ∨ name = SW.CACHE_NAME_EXTERNAL version)
  ∧ (∀ name url r, SW.AbrirYGuardar name url r ∈ SW.pendientes st →
       name = SW.CACHE_NAME version ∨ name = SW.CACHE_NAME_EXTERNAL version).
Proof.
  intros Hp0. cbn zeta.
  assert (de_una_version version
            (foldl (paso version location_origin) (SW.on_activate version st0) eventos))
    as [Hk Hp].
  { assert (de_una_version version (SW.on_activate version st0)) as Hinv.
    { apply de_una_version_activate. rewrite Hp0. constructor. }
    revert Hinv. generalize (SW.on_activate version st0).
    induction eventos as [|e eventos IH]; intros st Hinv; cbn [foldl]; [done|].
    by apply IH, de_una_version_paso. }
  split; [done|].
  intros name url r Hin. rewrite Forall_forall in Hp. apply (Hp _ Hin).
Qed.

(** After the installs of [v1] and [v2], the worker of [v2] is activated,
    serves a style sheet of the CDN and stores it: the storage holds the two
    caches of [v2] and nothing else. *)
Lemma X17_solo_los_caches_de_la_version_witness :
  SW.pendientes tras_dos_versiones = []
  ∧ "bpwordzee-v1" ∈ SW.caches_keys (SW.caches tras_dos_versiones)
  ∧ ∀ name,
      name ∈ SW.caches_keys
               (SW.caches
                  (foldl (paso "v2" origen_ejemplo) (SW.on_activate "v2" tras_dos_versiones)
                     [Pedir red_200 peticion_cdn; Asentar])) →
      name = "bpwordzee-v2" ∨ name = "bpwordzee-external-v2".
Proof.
  split; [reflexivity|].
  split; [apply (bool_decide_unpack _); vm_compute; reflexivity|].
  exact (proj1 (X17_solo_los_caches_de_la_version "v2" origen_ejemplo tras_dos_versiones
                  [Pedir red_200 peticion_cdn; Asentar] eq_refl)).
Defined.

Lemma controlada_sin_red version location_origin nueva_URL red st fetch url :
  controlada version location_origin nueva_URL red st fetch →
  SW.href (nueva_URL url) = url →
  SW.es_api (nueva_URL url) = true →
  red url = None →
  fetch url
  = Sobre false
      (Some ("No se pudo conectar con el servidor. Verifica tu conexi"
               +:+ String (Ascii.ascii_of_nat 243) "" +:+ "n a internet.")) None.
Proof.
  intros Hc Hhref Hapi Hred. apply Hc.
  unfold SW.on_fetch. by rewrite Hapi, Hhref, Hred.
Qed.

Lemma controlada_no_json version location_origin nueva_URL red st fetch url r :
  controlada version location_origin nueva_URL red st fetch →
  SW.href (nueva_URL url) = url →
  SW.es_api (nueva_URL url) = true →
  red url = Some r →
  (∀ v, SW.json r ≠ JS.Return v) →
  fetch url = CuerpoNoJSON.
Proof.
  intros Hc Hhref Hapi Hred Hjson. apply Hc.
  unfold SW.on_fetch. rewrite Hapi, Hhref, Hred. cbn [SW.respuesta leer_respuesta].
  destruct (SW.json r) as [v|e]; [by destruct (Hjson v)|done].
Qed.

(** X18. In a page controlled by the worker, a search whose parameters pass
    the validation and whose request is one to the API issues that one
    request and, when the network cannot be reached, fails with an [Error]
    that carries the worker's own message (not with the [TypeError] of a
    failed fetch); when the server answers with a body that is not JSON
    text, it fails with the client's generic message. *)
Theorem X18_sin_conexion_de_extremo_a_extremo (h : Host) (version location_origin : string)
    (nueva_URL : string → SW.Request) (red : SW.Red) (st : SW.Estado)
    (fetch : string → RespuestaAPI) (ls : list string) (tabla : JS.value) (n : JS.number)
    (apiUrl : string) :
  let peticion := url_consulta h (toUpperCase h <$> ls) tabla n apiUrl in
  controlada version location_origin nueva_URL red st fetch →
  validarParametros (JS.Array (JS.Str <$> ls)) tabla (JS.Number n) = JS.Return () →
  SW.href (nueva_URL peticion) = peticion →
  SW.es_api (nueva_URL peticion) = true →
  (red peticion = None →
   buscarPalabras h fetch (JS.Array (JS.Str <$> ls)) tabla (JS.Number n) apiUrl
   = (JS.Throw (JS.Error ("No se pudo conectar con el servidor. Verifica tu conexi"
                            +:+ String (Ascii.ascii_of_nat 243) "" +:+ "n a internet.")),
      [peticion]))
  ∧ (∀ r, red peticion = Some r → (∀ v, SW.json r ≠ JS.Return v) →
       buscarPalabras h fetch (JS.Array (JS.Str <$> ls)) tabla (JS.Number n) apiUrl
       = (JS.Throw (JS.Error ("El servidor no respondi" +:+ String (Ascii.ascii_of_nat 243) ""
                                +:+ " correctamente. Int"
                                +:+ String (Ascii.ascii_of_nat 233) ""
                                +:+ "ntalo de nuevo.")),
          [peticion])).
Proof.
  intros peticion Hc Hv Hhref Hapi.
  rewrite (buscarPalabras_tras_validar _ _ _ _ _ _ Hv).
  unfold obtenerPalabrasAPI. fold peticion. split.
  - intros Hred.
    rewrite (controlada_sin_red _ _ _ _ _ _ _ Hc Hhref Hapi Hred). reflexivity.
  - intros r Hred Hjson.
    rewrite (controlada_no_json _ _ _ _ _ _ _ _ Hc Hhref Hapi Hred Hjson). reflexivity.
Qed.

(** The sample search through a worker that cannot reach the network. *)
Lemma X18_sin_conexion_de_extremo_a_extremo_witness :
  ∃ mensaje peticion,
    buscarPalabras host_ejemplo fetch_sin_conexion (JS.Array (JS.Str <$> letras_ejemplo))
      tabla_ejemplo (JS.Number (JS.Finite 3)) UI.url
    = (JS.Throw (JS.Error mensaje), [peticion])
    ∧ String.length mensaje = 69.
Proof.
  assert (controlada SW.VERSION "http://127.0.0.1" nueva_URL_ejemplo sin_red_alguna
            estado_inicial fetch_sin_conexion) as Hc.
  { intros url r Hr. unfold fetch_sin_conexion. by rewrite Hr. }
  eexists _, _. split.
  - exact (proj1 (X18_sin_conexion_de_extremo_a_extremo host_ejemplo SW.VERSION
                    "http://127.0.0.1" nueva_URL_ejemplo sin_red_alguna estado_inicial
                    fetch_sin_conexion letras_ejemplo tabla_ejemplo (JS.Finite 3) UI.url
                    Hc eq_refl eq_refl eq_refl) eq_refl).
  - reflexivity.
Defined.

Lemma cache_put_app name url r cs cs' :
  name ∉ SW.caches_keys cs →
  SW.cache_put name url r (cs ++ cs') = cs ++ SW.cache_put name url r cs'.
Proof.
  induction cs as [|[k cache] cs IH]; csimpl; [done|].
  intros [Hk Hn]%not_elem_of_cons.
  rewrite bool_decide_false by done. f_equal. by apply IH.
Qed.

Lemma put_all_app name rs cs cs' :
  name ∉ SW.caches_keys cs →
  SW.put_all name rs (cs ++ cs') = cs ++ SW.put_all name rs cs'.
Proof.
  intros Hn. unfold SW.put_all. revert cs'.
  induction rs as [|[u r] rs IH]; intros cs'; cbn [foldl fst snd]; [done|].
  by rewrite cache_put_app, IH.
Qed.

Lemma caches_open_app name cs cs' :
  name ∉ SW.caches_keys cs →
  SW.caches_open name (cs ++ cs') = cs ++ SW.caches_open name cs'.
Proof.
  intros Hn. unfold SW.caches_open, SW.caches_keys. rewrite fmap_app.
  destruct (decide (name ∈ cs'.*1)) as [Hin|Hin].
  - rewrite !bool_decide_true; [done|done|]. apply elem_of_app. by right.
  - rewrite !bool_decide_false; [by rewrite app_assoc|done|].
    rewrite elem_of_app. by intros [?|?].
Qed.

Lemma addAll_app resolver red name urls cs cs' :
  name ∉ SW.caches_keys cs →
  SW.addAll resolver red name urls (cs ++ cs')
  = ((SW.addAll resolver red name urls cs').1, cs ++ (SW.addAll resolver red name urls cs').2).
Proof.
  intros Hn. unfold SW.addAll. destruct (SW.fetch_all _ _); cbn [fst snd]; [|done].
  by rewrite put_all_app.
Qed.

(** Caches under other names that were created earlier stay in front of
    the ones an install fills, untouched. *)
Lemma on_install_app version resolver red st st' cs :
  SW.caches st = cs ++ SW.caches st' →
  SW.CACHE_NAME version ∉ SW.caches_keys cs →
  SW.CACHE_NAME_EXTERNAL version ∉ SW.caches_keys cs →
  SW.caches (SW.on_install version resolver red st).2
  = cs ++ SW.caches (SW.on_install version resolver red st').2.
Proof.
  intros Hst Hn Hne. unfold SW.on_install. rewrite Hst.
  rewrite caches_open_app, addAll_app by done.
  destruct (SW.addAll resolver red (SW.CACHE_NAME version) _ _) as [ok1 cs1]. cbn [fst snd].
  rewrite caches_open_app, addAll_app by done.
  by destruct (SW.addAll resolver red (SW.CACHE_NAME_EXTERNAL version) _ _) as [ok2 cs2].
Qed.

(** Whether an install succeeds depends on the network alone. *)
Lemma on_install_fst version version' resolver red st st' :
  (SW.on_install version resolver red st).1 = (SW.on_install version' resolver red st').1.
Proof.
  unfold SW.on_install, SW.addAll.
  destruct (SW.fetch_all red (resolver <$> SW.PRECACHE_URLS));
    by destruct (SW.fetch_all red (resolver <$> SW.EXTERNAL_URLS)).
Qed.

Lemma nombres_distintos v1 v2 :
  v1 ≠ v2 → v1 ≠ "external-" +:+ v2 → v2 ≠ "external-" +:+ v1 →
  SW.CACHE_NAME v1 ≠ SW.CACHE_NAME v2
  ∧ SW.CACHE_NAME v1 ≠ SW.CACHE_NAME_EXTERNAL v2
  ∧ SW.CACHE_NAME_EXTERNAL v1 ≠ SW.CACHE_NAME v2
  ∧ SW.CACHE_NAME_EXTERNAL v1 ≠ SW.CACHE_NAME_EXTERNAL v2.
Proof.
  intros H12 H1 H2. unfold SW.CACHE_NAME, SW.CACHE_NAME_EXTERNAL. simpl.
  repeat split; intros [= Heq]; auto.
Qed.

(** What a first install into an empty storage leaves for an asset of the
    same-origin manifest. *)
Lemma primer_install version resolver red st u :
  SW.caches st = [] →
  (SW.on_install version resolver red st).1 = true →
  u ∈ SW.PRECACHE_URLS →
  ∃ r, red (resolver u) = Some r
       ∧ SW.caches_match (SW.caches (SW.on_install version resolver red st).2) (resolver u)
         = Some r.
Proof.
  intros Hst Hok Hu.
  destruct (on_install_precache version resolver red st u Hok Hu) as [r Hr].
  exists r. split; [|done].
  eapply coherente_match; [|exact Hr]. apply coherente_install.
  rewrite Hst. intros name cache url r' Hin. by apply elem_of_nil in Hin.
Qed.

(** X19. An update shows at activation, not before. After a first version
    has been installed into an empty storage and a second one, under names
    that do not clash with the first's, on top of it, a request for an asset of
    the same-origin manifest is answered from the caches, with no network
    fetch, with what the first install fetched; once the second version has
    been activated it is answered, still with no fetch, with what the second
    install fetched. *)
Theorem X19_la_actualizacion_se_ve_al_activar (v1 v2 version location_origin : string)
    (resolver : string → string) (red1 red2 red : SW.Red) (st0 : SW.Estado) (u : string)
    (request : SW.Request) :
  let st1 := (SW.on_install v1 resolver red1 st0).2 in
  let st2 := (SW.on_install v2 resolver red2 st1).2 in
  SW.caches st0 = [] →
  v1 ≠ v2 → v1 ≠ "external-" +:+ v2 → v2 ≠ "external-" +:+ v1 →
  (SW.on_install v1 resolver red1 st0).1 = true →
  (SW.on_install v2 resolver red2 st1).1 = true →
  u ∈ SW.PRECACHE_URLS →
  SW.href request = resolver u →
  SW.es_api request = false →
  SW.on_fetch version location_origin red st2 request
  = {| SW.respuesta := red1 (resolver u); SW.peticiones := []; SW.estado := st2 |}
  ∧ SW.on_fetch version location_origin red (SW.on_activate v2 st2) request
    = {| SW.respuesta := red2 (resolver u); SW.peticiones := [];
         SW.estado := SW.on_activate v2 st2 |}.
Proof.
  intros st1 st2 Hst0 H12 H1 H2 Hok1 Hok2 Hu Hhref Hapi.
  destruct (nombres_distintos v1 v2 H12 H1 H2) as (Hn1 & Hn2 & Hn3 & Hn4).
  rewrite (on_install_fst v2 v2 resolver red2 st1 st0) in Hok2.
  destruct (primer_install v1 resolver red1 st0 u Hst0 Hok1 Hu) as (r1 & Hr1 & Hm1).
  destruct (primer_install v2 resolver red2 st0 u Hst0 Hok2 Hu) as (r2 & Hr2 & Hm2).
  fold st1 in Hm1.
  assert (∀ name, name ∈ SW.caches_keys (SW.caches st1) →
                  name = SW.CACHE_NAME v1 ∨ name = SW.CACHE_NAME_EXTERNAL v1) as Hk1.
  { intros name [Hn|Hin]%on_install_keys_inv; [done|].
    rewrite Hst0 in Hin. by apply elem_of_nil in Hin. }
  assert (SW.caches st2
          = SW.caches st1 ++ SW.caches (SW.on_install v2 resolver red2 st0).2) as Hst2.
  { apply on_install_app.
    - by rewrite Hst0, app_nil_r.
    - intros [Heq|Heq]%Hk1; congruence.
    - intros [Heq|Heq]%Hk1; congruence. }
  split.
  - rewrite Hr1. apply on_fetch_acierto; [done|].
    by rewrite Hhref, Hst2, caches_match_app, Hm1.
  - rewrite Hr2. apply on_fetch_acierto; [done|].
    rewrite Hhref, on_activate_caches, Hst2, filter_app.
    rewrite filter_ninguno, filter_todos; [done| |].
    + apply Forall_forall. intros [k cache] Hin.
      destruct (on_install_keys_inv v2 resolver red2 st0 k) as [Hk|Hk]; [|done|].
      * apply list_elem_of_fmap. by exists (k, cache).
      * rewrite Hst0 in Hk. by apply elem_of_nil in Hk.
    + apply Forall_forall. intros [k cache] Hin. simpl.
      assert (k = SW.CACHE_NAME v1 ∨ k = SW.CACHE_NAME_EXTERNAL v1) as [->| ->].
      { apply Hk1, list_elem_of_fmap. by exists (k, cache). }
      * by intros [?|?].
      * by intros [?|?].
Qed.

(** The style sheet, installed by [v1] and reworked before the install of
    [v2], requested while the network is down. *)
Lemma X19_la_actualizacion_se_ve_al_activar_witness :
  SW.respuesta
    (SW.on_fetch "v1" origen_ejemplo sin_red_alguna tras_dos_versiones peticion_css)
  = Some respuesta_200
  ∧ SW.respuesta
      (SW.on_fetch "v2" origen_ejemplo sin_red_alguna
         (SW.on_activate "v2" tras_dos_versiones) peticion_css)
    = Some respuesta_nueva.
Proof.
  assert ("./front/index.css" ∈ SW.PRECACHE_URLS) as Hu.
  { do 2 right. left. }
  split.
  - exact (f_equal SW.respuesta
             (proj1 (X19_la_actualizacion_se_ve_al_activar "v1" "v2" "v1" origen_ejemplo
                       resolver_ejemplo red_200 red_nueva sin_red_alguna estado_inicial
                       "./front/index.css" peticion_css eq_refl
                       ltac:(discriminate) ltac:(discriminate) ltac:(discriminate)
                       eq_refl eq_refl Hu eq_refl eq_refl))).
  - exact (f_equal SW.respuesta
             (proj2 (X19_la_actualizacion_se_ve_al_activar "v1" "v2" "v2" origen_ejemplo
                       resolver_ejemplo red_200 red_nueva sin_red_alguna estado_inicial
                       "./front/index.css" peticion_css eq_refl
                       ltac:(discriminate) ltac:(discriminate) ltac:(discriminate)
                       eq_refl eq_refl Hu eq_refl eq_refl))).
Defined.
